(** * Seymour decomposition nodes, CMR sparse matrices and the PALP normal form

    A shallow embedding of the Cython sources

    - [sage/matrix/seymour_decomposition.pyx] (two revisions: the current one
      working on [CMR_MATROID_DEC] handles, and the earlier one working on
      [CMR_DEC] handles),
    - [sage/matrix/matrix_cmr_sparse.pyx],
    - [sage/geometry/palp_normal_form.pyx],

    together with the properties their specification states about them.

    Python exceptions are values of an error monad; C pointers are options
    ([None] is [NULL]); Python dictionaries and frozensets are stdpp's
    [gmap] and [gset]. *)

From Stdlib Require Import ZArith List String Bool Lia Sorted.
From stdpp Require Import base decidable countable option list gmap strings
  pretty.

Set Warnings "-register-all".
Local Open Scope string_scope.
Local Open Scope list_scope.
Local Open Scope Z_scope.

(** ** Python exceptions and the error monad *)

Module Py.

(** The exceptions the embedded code can raise.  [Segfault] stands for the
    undefined behaviour of C code reading through a [NULL] pointer or
    outside an array. *)
Inductive exception : Type :=
| ValueError (msg : string)
| IndexError
| KeyError
| TypeError (msg : string)
| OverflowError (msg : string)
| RuntimeError (msg : string)
| NotImplementedError
| Segfault.

Inductive result (A : Type) : Type :=
| Ok (a : A)
| Raise (e : exception).
Arguments Ok {A} a.
Arguments Raise {A} e.

#[global] Instance result_ret : MRet result := fun A a => Ok a.
#[global] Instance result_bind : MBind result :=
  fun A B f m => match m with Ok a => f a | Raise e => Raise e end.
#[global] Instance result_fmap : FMap result :=
  fun A B f m => match m with Ok a => Ok (f a) | Raise e => Raise e end.

Definition is_Ok {A} (r : result A) : bool :=
  match r with Ok _ => true | Raise _ => false end.

(** [tuple(f(x) for x in l)]: the elements are evaluated left to right and
    the first exception aborts the construction. *)
Fixpoint tuple_of {A B} (f : A -> result B) (l : list A) : result (list B) :=
  match l with
  | [] => Ok []
  | x :: l' => y ← f x; ys ← tuple_of f l'; Ok (y :: ys)
  end.

(** A [for] loop over [l] that updates a state and stops at the first
    exception. *)
Fixpoint for_each {A S} (body : S -> A -> result S) (l : list A) (s : S)
  : result S :=
  match l with
  | [] => Ok s
  | x :: l' => s' ← body s x; for_each body l' s'
  end.

(** [range(a, b)] over the integers. *)
Definition range (a b : Z) : list Z :=
  map (fun i => a + Z.of_nat i) (seq 0 (Z.to_nat (b - a))).

(** [seq[i]] for a Python sequence: negative indices count from the end,
    anything else out of range raises [IndexError]. *)
Definition getitem {A} (l : list A) (i : Z) : result A :=
  let n := Z.of_nat (length l) in
  let j := if i <? 0 then i + n else i in
  if (0 <=? j) && (j <? n) then
    match nth_error l (Z.to_nat j) with
    | Some x => Ok x
    | None => Raise IndexError
    end
  else Raise IndexError.

(** Python's [<] on tuples of non-negative integers. *)
Fixpoint tuple_ltb (x y : list nat) : bool :=
  match x, y with
  | [], [] => false
  | [], _ :: _ => true
  | _ :: _, [] => false
  | a :: x', b :: y' =>
      if Nat.ltb a b then true
      else if Nat.ltb b a then false
      else tuple_ltb x' y'
  end.

(** Conversion of a Python integer to the C type [size_t]. *)
Definition as_size_t (i : Z) : result nat :=
  if i <? 0 then Raise (OverflowError "can't convert negative value to size_t")
  else Ok (Z.to_nat i).

(** Conversion of a Python integer to the C type [char] (signed, one byte). *)
Definition as_char (v : Z) : result Z :=
  if (-128 <=? v) && (v <=? 127) then Ok v
  else Raise (OverflowError "value too large to convert to char").

(** Conversion of a Python integer to the C type [int] (32 bits). *)
Definition as_int (v : Z) : result Z :=
  if (-2147483648 <=? v) && (v <=? 2147483647) then Ok v
  else Raise (OverflowError "value too large to convert to int").

End Py.
Import Py.

(** ** Element keys ([ElementKey] of seymour_decomposition.pyx) *)

Module ElementKeys.
Section ElementKey.
Context {label : Type} `{Countable label}.

(** The members of the frozenset [_key]: a simple key holds the label
    itself, a composed key holds pairs [(sign, label)]. *)
Inductive member : Type :=
| Bare (l : label)
| Signed (sign : Z) (l : label).

#[global] Instance member_eq_dec : EqDecision member.
Proof. solve_decision. Defined.

Definition member_enc (m : member) : label + Z * label :=
  match m with Bare l => inl l | Signed s l => inr (s, l) end.
Definition member_dec (x : label + Z * label) : member :=
  match x with inl l => Bare l | inr (s, l) => Signed s l end.

#[global] Instance member_countable : Countable member.
Proof.
  apply (inj_countable' member_enc member_dec).
  intros []; reflexivity.
Defined.

Record ElementKey : Type := mkElementKey {
  _key : gset member;
  _composition : bool
}.

(** [ElementKey(keys)] *)
Definition simple (keys : label) : ElementKey :=
  {| _key := {[ Bare keys ]}; _composition := false |}.

(** [ElementKey((sign1, key1, sign2, key2), composition=True)] *)
Definition composed (sign1 : Z) (key1 : label) (sign2 : Z) (key2 : label)
  : ElementKey :=
  {| _key := {[ Signed sign1 key1; Signed sign2 key2 ]};
     _composition := true |}.

(** [__eq__] between two element keys *)
Definition __eq__ (self other : ElementKey) : bool :=
  bool_decide (_key self = _key other).

(** [__hash__]: the hash of the frozenset, whatever Python's hash of a
    frozenset is. *)
Definition __hash__ (hash : gset member -> Z) (self : ElementKey) : Z :=
  hash (_key self).

(** The labels a key is built from, signs forgotten. *)
Definition member_label (m : member) : label :=
  match m with Bare l => l | Signed _ l => l end.
Definition labels (k : ElementKey) : gset label :=
  set_map member_label (_key k).

Definition ElementKey_enc (k : ElementKey) : gset member * bool :=
  (_key k, _composition k).
Definition ElementKey_dec (x : gset member * bool) : ElementKey :=
  {| _key := x.1; _composition := x.2 |}.

#[global] Instance ElementKey_eq_dec : EqDecision ElementKey.
Proof. solve_decision. Defined.

#[global] Instance ElementKey_countable : Countable ElementKey.
Proof.
  apply (inj_countable' ElementKey_enc ElementKey_dec).
  intros []; reflexivity.
Defined.

End ElementKey.
Arguments member label : clear implicits.
Arguments ElementKey label {_ _}.
End ElementKeys.
Import ElementKeys.

(** ** The external CMR library

    CMR is a C library the Cython code calls; its structures are modelled by
    the fields the Cython code reads. *)

Module CMR.

(** Reading [a[i]] from a C array; outside the array the behaviour is
    undefined. *)
Definition array_get {A} (a : list A) (i : nat) : result A :=
  match nth_error a i with
  | Some x => Ok x
  | None => Raise Segfault
  end.

(** [CMR_CHRMAT]: a sparse matrix of [char] in compressed row form. *)
Record CMR_CHRMAT : Type := mkCHRMAT {
  numRows : nat;
  numColumns : nat;
  numNonzeros : nat;
  rowSlice : list nat;
  entryColumns : list nat;
  entryValues : list Z
}.

Fixpoint find_in_slice (cols : list nat) (column entry count : nat)
  : result (option nat) :=
  match count with
  | O => Ok None
  | S count' =>
      c ← array_get cols entry;
      if Nat.eqb c column then Ok (Some entry)
      else find_in_slice cols column (S entry) count'
  end.

(** Modelled from the spec: [CMRchrmatFindEntry] is a function of the CMR
    library.  It searches the slice of [row] for an entry in [column] and
    stores its index, or [SIZE_MAX] (here [None]) when the entry is
    structurally absent. *)
Definition CMRchrmatFindEntry (matrix : option CMR_CHRMAT) (row column : nat)
  : result (option nat) :=
  match matrix with
  | None => Raise Segfault
  | Some m =>
      lower ← array_get (rowSlice m) row;
      upper ← array_get (rowSlice m) (S row);
      find_in_slice (entryColumns m) column lower (upper - lower)
  end.

(** [CMR_ELEMENT]: [0] is invalid, a negative value [-1 - r] is row [r], a
    positive value [1 + c] is column [c].  The two index functions return
    a [size_t]. *)
Definition CMR_ELEMENT : Type := Z.
Definition CMRelementIsValid (element : CMR_ELEMENT) : bool := negb (element =? 0).
Definition CMRelementIsRow (element : CMR_ELEMENT) : bool := element <? 0.
Definition CMRelementToRowIndex (element : CMR_ELEMENT) : Z :=
  (-1 - element) mod 2 ^ 64.
Definition CMRelementToColumnIndex (element : CMR_ELEMENT) : Z :=
  (-1 + element) mod 2 ^ 64.
Definition CMRrowToElement (row : nat) : CMR_ELEMENT := -1 - Z.of_nat row.
Definition CMRcolumnToElement (column : nat) : CMR_ELEMENT := 1 + Z.of_nat column.

(** [CMR_MATROID_DEC]: a node of the decomposition computed by CMR, seen
    through the accessors the Cython code uses. *)
Inductive CMR_MATROID_DEC : Type := mkDEC {
  CMRmatroiddecType : Z;
  CMRmatroiddecNumRows : nat;
  CMRmatroiddecNumColumns : nat;
  CMRmatroiddecGetMatrix : option CMR_CHRMAT;
  CMRmatroiddecRowsParent : option (list CMR_ELEMENT);
  CMRmatroiddecColumnsParent : option (list CMR_ELEMENT);
  CMRmatroiddecChildren : list CMR_MATROID_DEC;
  CMRmatroiddecThreeSumConcentratedRank : bool;
  CMRmatroiddecThreeSumDistributedRanks : bool
}.

Definition CMRmatroiddecNumChildren (dec : CMR_MATROID_DEC) : nat :=
  length (CMRmatroiddecChildren dec).

Definition CMRmatroiddecChild (dec : CMR_MATROID_DEC) (index : nat)
  : result CMR_MATROID_DEC :=
  array_get (CMRmatroiddecChildren dec) index.

(** Reading [parent[i]] through a possibly-[NULL] array pointer. *)
Definition ptr_get {A} (p : option (list A)) (i : nat) : result A :=
  match p with
  | None => Raise Segfault
  | Some a => array_get a i
  end.

(** The values of the enumeration [CMR_MATROID_DEC_TYPE] that the Cython
    code names.  The enumeration is declared by CMR; its values are
    parameters here. *)
Class DecTypes : Type := {
  CMR_MATROID_DEC_TYPE_ONE_SUM : Z;
  CMR_MATROID_DEC_TYPE_TWO_SUM : Z;
  CMR_MATROID_DEC_TYPE_THREE_SUM : Z;
  CMR_MATROID_DEC_TYPE_GRAPH : Z;
  CMR_MATROID_DEC_TYPE_COGRAPH : Z;
  CMR_MATROID_DEC_TYPE_SERIES_PARALLEL : Z;
  CMR_MATROID_DEC_TYPE_PIVOTS : Z;
  CMR_MATROID_DEC_TYPE_SUBMATRIX : Z;
  CMR_MATROID_DEC_TYPE_IRREGULAR : Z;
  CMR_MATROID_DEC_TYPE_UNKNOWN : Z
}.

(** The named values are pairwise different, and none of them lies in the
    range [typ < -1] of the special leaves. *)
Definition DecTypes_wf `{DecTypes} : Prop :=
  NoDup [CMR_MATROID_DEC_TYPE_ONE_SUM; CMR_MATROID_DEC_TYPE_TWO_SUM;
         CMR_MATROID_DEC_TYPE_THREE_SUM; CMR_MATROID_DEC_TYPE_GRAPH;
         CMR_MATROID_DEC_TYPE_COGRAPH; CMR_MATROID_DEC_TYPE_SERIES_PARALLEL;
         CMR_MATROID_DEC_TYPE_PIVOTS; CMR_MATROID_DEC_TYPE_SUBMATRIX;
         CMR_MATROID_DEC_TYPE_IRREGULAR; CMR_MATROID_DEC_TYPE_UNKNOWN]
  /\ Forall (fun t => -1 <= t)
        [CMR_MATROID_DEC_TYPE_ONE_SUM; CMR_MATROID_DEC_TYPE_TWO_SUM;
         CMR_MATROID_DEC_TYPE_THREE_SUM; CMR_MATROID_DEC_TYPE_GRAPH;
         CMR_MATROID_DEC_TYPE_COGRAPH; CMR_MATROID_DEC_TYPE_SERIES_PARALLEL;
         CMR_MATROID_DEC_TYPE_PIVOTS; CMR_MATROID_DEC_TYPE_SUBMATRIX;
         CMR_MATROID_DEC_TYPE_IRREGULAR; CMR_MATROID_DEC_TYPE_UNKNOWN].

(** The values CMR gives them in [cmr/matroid.h]. *)
Definition cmr_matroid_h : DecTypes := {|
  CMR_MATROID_DEC_TYPE_IRREGULAR := -1;
  CMR_MATROID_DEC_TYPE_UNKNOWN := 0;
  CMR_MATROID_DEC_TYPE_ONE_SUM := 1;
  CMR_MATROID_DEC_TYPE_TWO_SUM := 2;
  CMR_MATROID_DEC_TYPE_THREE_SUM := 3;
  CMR_MATROID_DEC_TYPE_SERIES_PARALLEL := 4;
  CMR_MATROID_DEC_TYPE_PIVOTS := 5;
  CMR_MATROID_DEC_TYPE_SUBMATRIX := 6;
  CMR_MATROID_DEC_TYPE_GRAPH := 7;
  CMR_MATROID_DEC_TYPE_COGRAPH := 8
|}.

End CMR.
Import CMR.

(** ** Matrices of class [Matrix_cmr_chr_sparse] (matrix_cmr_sparse.pyx) *)

Module Matrix.
(** A matrix object: its dimensions, its CMR matrix, and the object that
    owns the memory of the CMR matrix ([None] when the matrix owns it). *)
Record Matrix_cmr_chr_sparse (ref : Type) : Type := mkMatrix {
  _nrows : nat;
  _ncols : nat;
  _mat : CMR_CHRMAT;
  _root : option ref
}.
Arguments mkMatrix {ref}.
Arguments _nrows {ref}.
Arguments _ncols {ref}.
Arguments _mat {ref}.
Arguments _root {ref}.
End Matrix.

(** A reference to a decomposition node object.  A node is identified by the
    address of its handle, which is also what its [__hash__] returns. *)
Definition node_ref : Type := option CMR_MATROID_DEC.

(** ** Decomposition nodes, current revision of seymour_decomposition.pyx *)

Module Seymour.

(** The classes [_class] can return. *)
Inductive node_class : Type :=
| OneSumNode | TwoSumNode | ThreeSumNode
| ThreeConnectedIrregularNode | UnknownNode
| GraphicNode | CographicNode | PlanarNode
| SeriesParallelReductionNode | SpecialLeafNode
| PivotsNode | SubmatrixNode.

#[global] Instance node_class_eq_dec : EqDecision node_class.
Proof. solve_decision. Defined.

Record DecompositionNode (K : Type) : Type := mkNode {
  __class__ : node_class;
  _dec : option CMR_MATROID_DEC;
  _root : option node_ref;
  _row_keys : option (list K);
  _column_keys : option (list K)
}.
Arguments mkNode {K}.
Arguments __class__ {K}.
Arguments _dec {K}.
Arguments _root {K}.
Arguments _row_keys {K}.
Arguments _column_keys {K}.

(** Dereferencing a handle pointer. *)
Definition deref {A} (p : option A) : result A :=
  match p with Some d => Ok d | None => Raise Segfault end.

Section Node.
Context `{DecTypes}.

(** [_class(dec)].  The last statement of the source, [assert
    NotImplementedError], asserts a class object, which is true: the
    function falls off its end and returns [None]. *)
Definition _class (dec : CMR_MATROID_DEC) : option node_class :=
  let typ := CMRmatroiddecType dec in
  if typ =? CMR_MATROID_DEC_TYPE_ONE_SUM then Some OneSumNode
  else if typ =? CMR_MATROID_DEC_TYPE_TWO_SUM then Some TwoSumNode
  else if typ =? CMR_MATROID_DEC_TYPE_THREE_SUM then Some ThreeSumNode
  else if typ =? CMR_MATROID_DEC_TYPE_GRAPH then
    if typ =? CMR_MATROID_DEC_TYPE_COGRAPH then Some PlanarNode
    else Some GraphicNode
  else if typ =? CMR_MATROID_DEC_TYPE_COGRAPH then Some CographicNode
  else if typ <? -1 then Some SpecialLeafNode
  else if typ =? CMR_MATROID_DEC_TYPE_SERIES_PARALLEL
    then Some SeriesParallelReductionNode
  else if typ =? CMR_MATROID_DEC_TYPE_PIVOTS then Some PivotsNode
  else if typ =? CMR_MATROID_DEC_TYPE_SUBMATRIX then Some SubmatrixNode
  else if typ =? CMR_MATROID_DEC_TYPE_IRREGULAR
    then Some ThreeConnectedIrregularNode
  else if typ =? CMR_MATROID_DEC_TYPE_UNKNOWN then Some UnknownNode
  else None.

Section Keys.
Context {K : Type} `{EqDecision K}.

(** A fresh instance: [__cinit__] sets [_dec = NULL]; the other
    attributes start as [None]. *)
Definition __cinit__ (cls : node_class) : DecompositionNode K :=
  mkNode cls None None None None.

(** The reference [self]. *)
Definition ref (self : DecompositionNode K) : node_ref := _dec self.

(** [self._root or self] *)
Definition root_or_self (self : DecompositionNode K) : node_ref :=
  match _root self with
  | Some r => r
  | None => ref self
  end.

(** [_set_dec(dec, root)].  Releasing the memory of an owned handle has
    no counterpart in the model. *)
Definition _set_dec (self : DecompositionNode K)
    (dec : option CMR_MATROID_DEC) (root : option node_ref)
  : DecompositionNode K :=
  mkNode (__class__ self) dec root (_row_keys self) (_column_keys self).

Definition nrows (self : DecompositionNode K) : result nat :=
  d ← deref (_dec self); Ok (CMRmatroiddecNumRows d).

Definition ncols (self : DecompositionNode K) : result nat :=
  d ← deref (_dec self); Ok (CMRmatroiddecNumColumns d).

Definition nchildren (self : DecompositionNode K) : result nat :=
  d ← deref (_dec self); Ok (CMRmatroiddecNumChildren d).

Definition row_keys (self : DecompositionNode K) := _row_keys self.
Definition column_keys (self : DecompositionNode K) := _column_keys self.

(** [_set_row_keys(row_keys)] *)
Definition _set_row_keys (self : DecompositionNode K)
    (row_keys : option (list K)) : result (DecompositionNode K) :=
  if bool_decide (_row_keys self <> None)
     && bool_decide (_row_keys self <> row_keys)
  then Raise (ValueError "inconsistent row keys")
  else
    bad ← match row_keys with
          | Some ks => n ← nrows self; Ok (bool_decide (n <> length ks))
          | None => Ok false
          end;
    if bad : bool
    then Raise (ValueError "inconsistent row keys: cardinality")
    else Ok (mkNode (__class__ self) (_dec self) (_root self)
                    row_keys (_column_keys self)).

(** [_set_column_keys(column_keys)] *)
Definition _set_column_keys (self : DecompositionNode K)
    (column_keys : option (list K)) : result (DecompositionNode K) :=
  if bool_decide (_column_keys self <> None)
     && bool_decide (_column_keys self <> column_keys)
  then Raise (ValueError "inconsistent column keys")
  else
    bad ← match column_keys with
          | Some ks => n ← ncols self; Ok (bool_decide (n <> length ks))
          | None => Ok false
          end;
    if bad : bool
    then Raise (ValueError "inconsistent column keys: cardinality")
    else Ok (mkNode (__class__ self) (_dec self) (_root self)
                    (_row_keys self) column_keys).

(** [matrix()] *)
Definition matrix (self : DecompositionNode K)
  : result (option (Matrix.Matrix_cmr_chr_sparse node_ref)) :=
  d ← deref (_dec self);
  match CMRmatroiddecGetMatrix d with
  | None => Ok None
  | Some mat =>
      Ok (Some (Matrix.mkMatrix (numRows mat) (numColumns mat) mat
                                (Some (root_or_self self))))
  end.

(** [all(parent[i] == 0 for i in range(n))] *)
Fixpoint all_zero (parent : list CMR_ELEMENT) (indices : list nat)
  : result bool :=
  match indices with
  | [] => Ok true
  | i :: indices' =>
      e ← array_get parent i;
      if e =? 0 then all_zero parent indices' else Ok false
  end.

(** One component of [parent_rows_and_columns()]: [None], the tuple of the
    keys, or a tuple of indices. *)
Definition parent_tuple (parent : option (list CMR_ELEMENT)) (n : nat)
    (keys : option (list K)) (to_index : CMR_ELEMENT -> Z)
  : result (option (list K + list nat)) :=
  match parent with
  | None => Ok None
  | Some a =>
      zero ← all_zero a (seq 0 n);
      if zero : bool then Ok None
      else
        match keys with
        | Some ks => Ok (Some (inl ks))
        | None =>
            indices ← tuple_of (fun i => e ← array_get a i;
                                         Ok (Z.to_nat (to_index e)))
                               (seq 0 n);
            Ok (Some (inr indices))
        end
  end.

(** [parent_rows_and_columns()] *)
Definition parent_rows_and_columns (self : DecompositionNode K)
  : result (option (list K + list nat) * option (list K + list nat)) :=
  d ← deref (_dec self);
  n ← nrows self;
  parent_rows_tuple ←
    parent_tuple (CMRmatroiddecRowsParent d) n (row_keys self)
                 CMRelementToRowIndex;
  n ← ncols self;
  parent_columns_tuple ←
    parent_tuple (CMRmatroiddecColumnsParent d) n (column_keys self)
                 CMRelementToColumnIndex;
  Ok (parent_rows_tuple, parent_columns_tuple).

(** [create_DecompositionNode(dec, root, row_keys, column_keys)].
    Calling the [None] that [_class] returned raises [TypeError]. *)
Definition create_DecompositionNode (dec : option CMR_MATROID_DEC)
    (root : option node_ref) (row_keys column_keys : option (list K))
  : result (option (DecompositionNode K)) :=
  match dec with
  | None => Ok None
  | Some d =>
      cls ← match _class d with
            | Some c => Ok c
            | None => Raise (TypeError "'NoneType' object is not callable")
            end;
      let result := _set_dec (__cinit__ cls) dec root in
      result ← match row_keys with
               | Some _ => _set_row_keys result row_keys
               | None => Ok result
               end;
      result ← match column_keys with
               | Some _ => _set_column_keys result column_keys
               | None => Ok result
               end;
      Ok (Some result)
  end.
End Keys.

Section Children.
Context {K : Type} `{Countable K}.

(** [_CMRelement_to_key(element)] *)
Definition _CMRelement_to_key (self : DecompositionNode K)
    (element : CMR_ELEMENT) : result (ElementKey K) :=
  if negb (CMRelementIsValid element) then
    Raise (ValueError
      "CMRelement index not valid. Extra row or column is detected.")
  else
    match row_keys self, column_keys self with
    | Some rk, Some ck =>
        if CMRelementIsRow element
        then simple <$> getitem rk (CMRelementToRowIndex element)
        else simple <$> getitem ck (CMRelementToColumnIndex element)
    | _, _ => Raise (ValueError "row_keys and column_keys are required")
    end.

(** [tuple(self._CMRelement_to_key(parent[i]) for i in indices)] *)
Definition keys_of (self : DecompositionNode K)
    (parent : option (list CMR_ELEMENT)) (indices : list nat)
  : result (list (ElementKey K)) :=
  tuple_of (fun i => e ← ptr_get parent i; _CMRelement_to_key self e)
           indices.

(** [_create_child_node(index)] *)
Definition _create_child_node (self : DecompositionNode K) (index : nat)
  : result (option (DecompositionNode (ElementKey K))) :=
  d ← deref (_dec self);
  child_dec ← CMRmatroiddecChild d index;
  let parent_rows := CMRmatroiddecRowsParent child_dec in
  let parent_columns := CMRmatroiddecColumnsParent child_dec in
  match row_keys self, column_keys self with
  | Some _, Some _ =>
      child_row_keys ←
        keys_of self parent_rows (seq 0 (CMRmatroiddecNumRows child_dec));
      child_column_keys ←
        keys_of self parent_columns
                (seq 0 (CMRmatroiddecNumColumns child_dec));
      create_DecompositionNode (Some child_dec) (Some (root_or_self self))
        (Some child_row_keys) (Some child_column_keys)
  | _, _ =>
      create_DecompositionNode (Some child_dec) (Some (root_or_self self))
        None None
  end.

(** [DecompositionNode._children()] *)
Definition DecompositionNode__children (self : DecompositionNode K)
  : result (list (option (DecompositionNode (ElementKey K)))) :=
  n ← nchildren self;
  tuple_of (_create_child_node self) (seq 0 n).

Definition is_concentrated_rank (self : DecompositionNode K)
  : result bool :=
  d ← deref (_dec self); Ok (CMRmatroiddecThreeSumConcentratedRank d).

Definition is_distributed_ranks (self : DecompositionNode K)
  : result bool :=
  d ← deref (_dec self); Ok (CMRmatroiddecThreeSumDistributedRanks d).

(** [CMR_CALL(CMRchrmatFindEntry(mat, row, column, &index))] with Python
    integers for [row] and [column]. *)
Definition FindEntry (mat : option CMR_CHRMAT) (row column : Z)
  : result (option nat) :=
  r ← as_size_t row; c ← as_size_t column; CMRchrmatFindEntry mat r c.

(** [Integer(0)] if [index == SIZE_MAX], else
    [Integer(mat.entryValues[index])]. *)
Definition entryValue_or_0 (mat : option CMR_CHRMAT) (index : option nat)
  : result Z :=
  match index with
  | None => Ok 0
  | Some i => m ← deref mat; array_get (entryValues m) i
  end.

(** [ThreeSumNode._children()] *)
Definition ThreeSumNode__children (self : DecompositionNode K)
  : result (list (option (DecompositionNode (ElementKey K)))) :=
  n ← nchildren self;
  if negb (Nat.eqb n 2)
  then Raise (ValueError "ThreeSumNode has exactly two children")
  else
  d ← deref (_dec self);
  child1_dec ← CMRmatroiddecChild d 0;
  let parent_rows1 := CMRmatroiddecRowsParent child1_dec in
  let parent_columns1 := CMRmatroiddecColumnsParent child1_dec in
  let mat1 := CMRmatroiddecGetMatrix child1_dec in
  child2_dec ← CMRmatroiddecChild d 1;
  let parent_rows2 := CMRmatroiddecRowsParent child2_dec in
  let parent_columns2 := CMRmatroiddecColumnsParent child2_dec in
  let mat2 := CMRmatroiddecGetMatrix child2_dec in
  match row_keys self, column_keys self with
  | Some row_keys, Some column_keys =>
      let child1_nrows := CMRmatroiddecNumRows child1_dec in
      let child1_ncols := CMRmatroiddecNumColumns child1_dec in
      concentrated ← is_concentrated_rank self;
      '(child1_row_keys, child1_column_keys) ←
        (if concentrated : bool then (* Mixed_Mixed *)
           child1_row_keys ← keys_of self parent_rows1 (seq 0 child1_nrows);
           child1_column_keys ←
             keys_of self parent_columns1 (seq 0 (child1_ncols - 1));
           index1 ← FindEntry mat1 (Z.of_nat child1_nrows - 2)
                                   (Z.of_nat child1_ncols - 1);
           epsilon1 ← entryValue_or_0 mat1 index1;
           index2 ← FindEntry mat1 (Z.of_nat child1_nrows - 1)
                                   (Z.of_nat child1_ncols - 1);
           epsilon2 ← entryValue_or_0 mat1 index2;
           k1 ← getitem row_keys (Z.of_nat child1_nrows - 2);
           k2 ← getitem row_keys (Z.of_nat child1_nrows - 1);
           Ok (child1_row_keys,
               child1_column_keys ++ [composed epsilon1 k1 epsilon2 k2])
         else (* Wide_Wide *)
           child1_row_keys ← keys_of self parent_rows1 (seq 0 child1_nrows);
           child1_column_keys ←
             keys_of self parent_columns1 (seq 0 (child1_ncols - 1));
           index1 ← FindEntry mat1 (Z.of_nat child1_nrows - 1)
                                   (Z.of_nat child1_ncols - 1);
           epsilon1 ← entryValue_or_0 mat1 index1;
           k1 ← getitem column_keys (Z.of_nat child1_ncols - 1);
           k2 ← getitem row_keys (Z.of_nat child1_nrows - 1);
           Ok (child1_row_keys,
               child1_column_keys ++ [composed 1 k1 epsilon1 k2]));
      child1 ← create_DecompositionNode (Some child1_dec)
                  (Some (root_or_self self))
                  (Some child1_row_keys) (Some child1_column_keys);
      let child2_nrows := CMRmatroiddecNumRows child2_dec in
      let child2_ncols := CMRmatroiddecNumColumns child2_dec in
      concentrated ← is_concentrated_rank self;
      '(child2_row_keys, child2_column_keys) ←
        (if concentrated : bool then (* Mixed_Mixed *)
           child2_row_keys ←
             keys_of self parent_rows2 (seq 1 (child2_nrows - 1));
           index1 ← FindEntry mat2 0 0;
           epsilon1 ← entryValue_or_0 mat1 index1;
           index2 ← FindEntry mat2 0 1;
           epsilon2 ← entryValue_or_0 mat1 index2;
           k1 ← getitem column_keys 0;
           k2 ← getitem column_keys 1;
           let child2_row_keys :=
             [composed epsilon1 k1 epsilon2 k2] ++ child2_row_keys in
           child2_column_keys ←
             keys_of self parent_columns2 (seq 0 child2_ncols);
           Ok (child2_row_keys, child2_column_keys)
         else (* Wide_Wide *)
           child2_row_keys ← keys_of self parent_rows2 (seq 0 child2_nrows);
           index1 ← FindEntry mat2 0 0;
           epsilon1 ← entryValue_or_0 mat1 index1;
           child2_column_keys ←
             keys_of self parent_columns2 (seq 1 (child2_ncols - 1));
           k1 ← getitem column_keys 1;
           k2 ← getitem row_keys 0;
           Ok (child2_row_keys,
               [composed 1 k1 epsilon1 k2] ++ child2_column_keys));
      child2 ← create_DecompositionNode (Some child2_dec)
                  (Some (root_or_self self))
                  (Some child2_row_keys) (Some child2_column_keys);
      Ok [child1; child2]
  | _, _ =>
      child1 ← create_DecompositionNode (Some child1_dec)
                  (Some (root_or_self self)) None None;
      child2 ← create_DecompositionNode (Some child2_dec)
                  (Some (root_or_self self)) None None;
      Ok [child1; child2]
  end.

(** [self._children()], dispatched on the class of [self]. *)
Definition _children (self : DecompositionNode K)
  : result (list (option (DecompositionNode (ElementKey K)))) :=
  match __class__ self with
  | ThreeSumNode => ThreeSumNode__children self
  | _ => DecompositionNode__children self
  end.
End Children.
End Node.
End Seymour.

(** ** Decomposition nodes, earlier revision of seymour_decomposition.pyx

    The earlier revision works on [CMR_DEC] handles, which CMR describes by
    predicates instead of a type tag, and carries no keys. *)

Module SeymourEarlier.
Import Seymour.

Inductive CMR_DEC : Type := mkCMR_DEC {
  CMRdecIsSum : Z;
  CMRdecIsGraphicLeaf : bool;
  CMRdecIsCographicLeaf : bool;
  CMRdecIsSpecialLeaf : Z;
  CMRdecIsSeriesParallelReduction : bool;
  CMRdecIsUnknown : bool;
  CMRdecNumRows : nat;
  CMRdecNumColumns : nat;
  CMRdecGetMatrix : option CMR_CHRMAT;
  CMRdecRowsParent : option (list nat);
  CMRdecColumnsParent : option (list nat);
  CMRdecChildren : list CMR_DEC
}.

Definition CMRdecNumChildren (dec : CMR_DEC) : nat :=
  length (CMRdecChildren dec).
Definition CMRdecChild (dec : CMR_DEC) (index : nat) : result CMR_DEC :=
  array_get (CMRdecChildren dec) index.

Definition node_ref : Type := option CMR_DEC.

Record DecompositionNode : Type := mkNode {
  __class__ : node_class;
  _dec : option CMR_DEC;
  _root : option node_ref
}.

(** [_class(dec)] *)
Definition _class (dec : CMR_DEC) : node_class :=
  let k := CMRdecIsSum dec in
  if k =? 1 then OneSumNode
  else if k =? 2 then TwoSumNode
  else if k =? 3 then ThreeSumNode
  else if CMRdecIsGraphicLeaf dec then
    if CMRdecIsCographicLeaf dec then PlanarNode else GraphicNode
  else if CMRdecIsCographicLeaf dec then CographicNode
  else if negb (CMRdecIsSpecialLeaf dec =? 0) then SpecialLeafNode
  else if CMRdecIsSeriesParallelReduction dec then SeriesParallelReductionNode
  else if CMRdecIsUnknown dec then UnknownNode
  else ThreeConnectedIrregularNode.

Definition root_or_self (self : DecompositionNode) : node_ref :=
  match _root self with
  | Some r => r
  | None => _dec self
  end.

(** [create_DecompositionNode(dec, root)] *)
Definition create_DecompositionNode (dec : option CMR_DEC)
    (root : option node_ref) : option DecompositionNode :=
  match dec with
  | None => None
  | Some d => Some (mkNode (_class d) dec root)
  end.

(** [matrix()] *)
Definition matrix (self : DecompositionNode)
  : result (option (Matrix.Matrix_cmr_chr_sparse node_ref)) :=
  d ← deref (_dec self);
  match CMRdecGetMatrix d with
  | None => Ok None
  | Some mat =>
      Ok (Some (Matrix.mkMatrix (numRows mat) (numColumns mat) mat
                                (Some (root_or_self self))))
  end.

(** A tuple of indices, or [None]. *)
Definition index_tuple : Type := option (list nat).
Definition sort_key : Type := index_tuple * index_tuple.

(** [parent_rows_and_columns()] *)
Definition parent_rows_and_columns (self : DecompositionNode)
  : result sort_key :=
  d ← deref (_dec self);
  parent_rows_tuple ←
    match CMRdecRowsParent d with
    | None => Ok None
    | Some a => Some <$> tuple_of (array_get a) (seq 0 (CMRdecNumRows d))
    end;
  parent_columns_tuple ←
    match CMRdecColumnsParent d with
    | None => Ok None
    | Some a => Some <$> tuple_of (array_get a) (seq 0 (CMRdecNumColumns d))
    end;
  Ok (parent_rows_tuple, parent_columns_tuple).

(** [<] between two components of a key: [None] is not ordered. *)
Definition index_tuple_lt (x y : index_tuple) : result bool :=
  match x, y with
  | Some a, Some b => Ok (tuple_ltb a b)
  | _, _ => Raise (TypeError "'<' not supported")
  end.

(** [<] between two keys: the first components that differ decide. *)
Definition key_lt (x y : sort_key) : result bool :=
  if bool_decide (x.1 = y.1) then
    if bool_decide (x.2 = y.2) then Ok false
    else index_tuple_lt x.2 y.2
  else index_tuple_lt x.1 y.1.

(** [sorted(items, key=...)] on items paired with their keys: a stable
    sort that compares with [<] only. *)
Fixpoint insert_sorted {A} (x : sort_key * A) (l : list (sort_key * A))
  : result (list (sort_key * A)) :=
  match l with
  | [] => Ok [x]
  | y :: l' =>
      b ← key_lt x.1 y.1;
      if b : bool then Ok (x :: y :: l')
      else r ← insert_sorted x l'; Ok (y :: r)
  end.

Fixpoint sort_keyed {A} (sorted_prefix unsorted : list (sort_key * A))
  : result (list (sort_key * A)) :=
  match unsorted with
  | [] => Ok sorted_prefix
  | x :: rest => acc ← insert_sorted x sorted_prefix; sort_keyed acc rest
  end.

Definition with_key (node : option DecompositionNode)
  : result (sort_key * option DecompositionNode) :=
  match node with
  | None => Raise (TypeError "'NoneType' object has no attribute")
  | Some n => k ← parent_rows_and_columns n; Ok (k, node)
  end.

(** [_children()] *)
Definition _children (self : DecompositionNode)
  : result (list (option DecompositionNode)) :=
  d ← deref (_dec self);
  nodes ← tuple_of (fun index =>
                      child ← CMRdecChild d index;
                      Ok (create_DecompositionNode (Some child)
                            (Some (root_or_self self))))
                   (seq 0 (CMRdecNumChildren d));
  keyed ← tuple_of with_key nodes;
  sorted ← sort_keyed [] keyed;
  Ok (map snd sorted).

End SeymourEarlier.

(** ** matrix_cmr_sparse.pyx *)

Module MatrixCmrSparse.

(** Reading and writing [a[i]] in a C array with a Python integer [i]. *)
Definition array_getZ {A} (a : list A) (i : Z) : result A :=
  if 0 <=? i then array_get a (Z.to_nat i) else Raise Segfault.

Definition array_set {A} (a : list A) (i : nat) (v : A) : result (list A) :=
  if Nat.ltb i (length a) then Ok (<[i := v]> a) else Raise Segfault.

Definition array_setZ {A} (a : list A) (i : Z) (v : A) : result (list A) :=
  if 0 <=? i then array_set a (Z.to_nat i) v else Raise Segfault.

(** The items of the dictionary [d], in the order [d.items()] yields them:
    [((row, col), coeff)]. *)
Definition dict_items : Type := list ((Z * Z) * Z).

(** [CMRchrmatCreate(cmr, &mat, nrows, ncols, nnz)] allocates the three
    arrays; what they contain is whatever the allocator returned,
    [garbage]. *)
Definition CMRchrmatCreate (garbage : nat -> nat) (nrows ncols nnz : nat)
  : CMR_CHRMAT :=
  mkCHRMAT nrows ncols nnz
    (map garbage (seq 0 (S nrows)))
    (map garbage (seq 0 nnz))
    (map (fun i => Z.of_nat (garbage i)) (seq 0 nnz)).

(** Insertion of an entry in a list of entries sorted by column. *)
Fixpoint insert_entry (e : nat * Z) (l : list (nat * Z)) : list (nat * Z) :=
  match l with
  | [] => [e]
  | e' :: l' =>
      if Nat.ltb e.1 e'.1 then e :: e' :: l' else e' :: insert_entry e l'
  end.

Definition sort_entries (l : list (nat * Z)) : list (nat * Z) :=
  fold_right insert_entry [] l.

(** The entries of the slice [lower, upper). *)
Definition slice {A} (lower upper : nat) (a : list A) : list A :=
  take (upper - lower) (drop lower a).

Definition sort_row (m : CMR_CHRMAT) (row : nat) : CMR_CHRMAT :=
  match rowSlice m !! row, rowSlice m !! S row with
  | Some lower, Some upper =>
      let sorted :=
        sort_entries (combine (slice lower upper (entryColumns m))
                              (slice lower upper (entryValues m))) in
      mkCHRMAT (numRows m) (numColumns m) (numNonzeros m) (rowSlice m)
        (take lower (entryColumns m) ++ sorted.*1
           ++ drop (lower + length sorted) (entryColumns m))
        (take lower (entryValues m) ++ sorted.*2
           ++ drop (lower + length sorted) (entryValues m))
  | _, _ => m
  end.

(** Modelled from the spec: [CMRchrmatSortNonzeros] is a function of the
    CMR library; it sorts the entries of every row by column. *)
Definition CMRchrmatSortNonzeros (m : CMR_CHRMAT) : CMR_CHRMAT :=
  fold_left sort_row (seq 0 (numRows m)) m.

(** [_init_from_dict(d, nrows, ncols)] *)
Definition count_step (rowSlice : list nat) (item : (Z * Z) * Z)
  : result (list nat) :=
  let '((row, col), coeff) := item in
  if coeff =? 0 then Ok rowSlice
  else v ← array_getZ rowSlice (row + 1);
       array_setZ rowSlice (row + 1) (v + 1)%nat.

Definition accumulate_step (rowSlice : list nat) (row : nat)
  : result (list nat) :=
  a ← array_get rowSlice (S row);
  b ← array_get rowSlice row;
  array_set rowSlice (S row) (a + b)%nat.

Definition fill_step (st : list nat * list nat * list Z)
    (item : (Z * Z) * Z) : result (list nat * list nat * list Z) :=
  let '(rowSlice, entryColumns, entryValues) := st in
  let '((row, col), coeff) := item in
  if coeff =? 0 then Ok st
  else
    index ← array_getZ rowSlice row;
    c ← as_size_t col;
    entryColumns ← array_set entryColumns index c;
    v ← as_char coeff;
    entryValues ← array_set entryValues index v;
    rowSlice ← array_setZ rowSlice row (index + 1)%nat;
    Ok (rowSlice, entryColumns, entryValues).

Definition shift_step (rowSlice : list nat) (row : nat)
  : result (list nat) :=
  v ← array_get rowSlice row;
  array_set rowSlice (S row) v.

Definition _init_from_dict (garbage : nat -> nat) (d : dict_items)
    (nrows ncols : nat) : result CMR_CHRMAT :=
  let mat := CMRchrmatCreate garbage nrows ncols (length d) in
  rowSlice ← for_each (fun rs row => array_set rs row 0%nat)
                      (seq 0 nrows) (rowSlice mat);
  rowSlice ← for_each count_step d rowSlice;
  rowSlice ← for_each accumulate_step (seq 0 nrows) rowSlice;
  '(rowSlice, entryColumns, entryValues) ←
     for_each fill_step d (rowSlice, entryColumns mat, entryValues mat);
  rowSlice ← for_each shift_step (rev (seq 0 nrows)) rowSlice;
  rowSlice ← array_set rowSlice 0 0%nat;
  Ok (CMRchrmatSortNonzeros
        (mkCHRMAT nrows ncols (length d) rowSlice entryColumns entryValues)).

(** [get_unsafe(i, j)] *)
Definition get_unsafe (mat : CMR_CHRMAT) (i j : nat) : result Z :=
  index ← CMRchrmatFindEntry (Some mat) i j;
  match index with
  | None => Ok 0
  | Some index => array_get (entryValues mat) index
  end.

(** The error codes of CMR. *)
Inductive CMR_ERROR : Type :=
| CMR_OKAY
| CMR_ERROR_TIMEOUT
| CMR_ERROR_other (description : string).

(** Modelled from the spec: [CMR_CALL] is defined in [sage/libs/cmr],
    outside the files embedded here.  It turns an error code of CMR into
    an exception; the time limit is reported as
    [RuntimeError: Time limit exceeded]. *)
Definition CMR_CALL (e : CMR_ERROR) : result unit :=
  match e with
  | CMR_OKAY => Ok tt
  | CMR_ERROR_TIMEOUT => Raise (RuntimeError "Time limit exceeded")
  | CMR_ERROR_other description => Raise (RuntimeError description)
  end.

Section Graphic.
(** The type of [time_limit], and the test CMR runs: given the matrix,
    whether the certificates are requested, and the time limit, it
    returns an error code and stores the answer in [result]. *)
Context {time : Type}.
Variable CMRtestGraphicMatrix : CMR_CHRMAT -> bool -> time -> CMR_ERROR * bool.

(** [is_graphic(time_limit=..., certificate=...)] *)
Definition is_graphic (mat : CMR_CHRMAT) (time_limit : time)
    (certificate : bool) : Py.result bool :=
  let '(error, result) := CMRtestGraphicMatrix mat certificate time_limit in
  _ ← CMR_CALL error;
  if certificate then Raise NotImplementedError else Ok result.
End Graphic.

(** [d[key] = value] on a dictionary given by its items: the value of a key
    that is there is replaced where the key stands, a new key goes to the
    end. *)
Fixpoint dict_setitem (d : dict_items) (key : Z * Z) (value : Z)
  : dict_items :=
  match d with
  | [] => [(key, value)]
  | item :: d' =>
      if bool_decide (item.1 = key) then (key, value) :: d'
      else item :: dict_setitem d' key value
  end.

(** [_dict()] *)
Definition _dict (mat : CMR_CHRMAT) : result dict_items :=
  for_each
    (fun d row =>
       lower ← array_get (rowSlice mat) row;
       upper ← array_get (rowSlice mat) (S row);
       for_each
         (fun d index =>
            value ← array_get (entryValues mat) index;
            column ← array_get (entryColumns mat) index;
            Ok (dict_setitem d (Z.of_nat row, Z.of_nat column) value))
         (seq lower (upper - lower)) d)
    (seq 0 (numRows mat)) [].

(** [_pickle()] *)
Definition _pickle (mat : CMR_CHRMAT) : result (dict_items * Z) :=
  d ← _dict mat; Ok (d, 0).

(** [_unpickle(data, version)] on a matrix object of [nrows] rows and
    [ncols] columns; the result is the new value of [self._mat]. *)
Definition _unpickle (garbage : nat -> nat) (nrows ncols : nat)
    (data : dict_items) (version : Z) : result CMR_CHRMAT :=
  version ← as_int version;
  if negb (version =? 0)
  then Raise (RuntimeError
                ("unknown matrix version (=" +:+ pretty version +:+ ")"))
  else _init_from_dict garbage data nrows ncols.

Section Modulus.
(** The tests of CMR for k-modularity and strong k-modularity: they return
    an error code and store the answer in [result] and the modulus in
    [k]. *)
Variable CMRtestKmodularity : CMR_CHRMAT -> CMR_ERROR * bool * nat.
Variable CMRtestStrongKmodularity : CMR_CHRMAT -> CMR_ERROR * bool * nat.

(** [modulus()] *)
Definition modulus (mat : CMR_CHRMAT) : result (option Z) :=
  let '(error, result, k) := CMRtestKmodularity mat in
  _ ← CMR_CALL error;
  if result : bool then Ok (Some (Z.of_nat k)) else Ok None.

(** [strong_modulus()] *)
Definition strong_modulus (mat : CMR_CHRMAT) : result (option Z) :=
  let '(error, result, k) := CMRtestStrongKmodularity mat in
  _ ← CMR_CALL error;
  if result : bool then Ok (Some (Z.of_nat k)) else Ok None.

(** [modulus <= k]; Python does not order [None] and an integer. *)
Definition le_modulus (modulus : option Z) (k : Z) : result bool :=
  match modulus with
  | Some m => Ok (m <=? k)
  | None => Raise (TypeError "'<=' not supported")
  end.

(** [is_k_modular(k)] *)
Definition is_k_modular (mat : CMR_CHRMAT) (k : Z) : result bool :=
  m ← modulus mat; le_modulus m k.

(** [is_strongly_k_modular(k)] *)
Definition is_strongly_k_modular (mat : CMR_CHRMAT) (k : Z) : result bool :=
  m ← strong_modulus mat; le_modulus m k.
End Modulus.

End MatrixCmrSparse.

(** ** palp_normal_form.pyx *)

Module Palp.

(** An integer matrix, as the list of its rows. *)
Definition matrix : Type := list (list Z).

Definition nrows (PM : matrix) : Z := Z.of_nat (length PM).
Definition ncols (PM : matrix) : Z :=
  match PM with
  | [] => 0
  | row :: _ => Z.of_nat (length row)
  end.

(** [PM[i, j]] *)
Definition entry (PM : matrix) (i j : Z) : result Z :=
  row ← getitem PM i; getitem row j.

(** [seq[i] = v] on a Python list. *)
Definition setitem {A} (l : list A) (i : Z) (v : A) : result (list A) :=
  let n := Z.of_nat (length l) in
  let j := if i <? 0 then i + n else i in
  if (0 <=? j) && (j <? n) then Ok (<[Z.to_nat j := v]> l)
  else Raise IndexError.

(** An element of [SymmetricGroup(n)], as the list of the images of
    [1, ..., n]. *)
Definition perm : Type := list Z.

(** [G.one()] for [G = SymmetricGroup(n)] *)
Definition one (n : Z) : perm := range 1 (n + 1).

(** Modelled from the spec: [PermutationGroupElement.__call__] is defined in
    [sage/groups/perm_gps], which is not part of the sources at hand.
    [g(i)] is the image of [i]; an integer outside [1, ..., n] is left
    where it is. *)
Definition call (g : perm) (i : Z) : Z :=
  if (1 <=? i) && (i <=? Z.of_nat (length g))
  then nth (Z.to_nat (i - 1)) g i
  else i.

(** Modelled from the spec: [g(x)] for a list [x] permutes the positions:
    the result has [x[g(i+1) - 1]] at position [i]. *)
Definition act_on_list {A} (g : perm) (x : list A) : result (list A) :=
  tuple_of (fun i => getitem x (call g (i + 1) - 1))
           (range 0 (Z.of_nat (length g))).

(** Modelled from the spec: [g._transpose_left(j, k)] is the product of the
    transposition [(j, k)] with [g]: the images of [j] and [k] are
    exchanged. *)
Definition _transpose_left (g : perm) (j k : Z) : result perm :=
  if j =? k then Ok g
  else
    gj ← MatrixCmrSparse.array_getZ g (j - 1);
    gk ← MatrixCmrSparse.array_getZ g (k - 1);
    g ← MatrixCmrSparse.array_setZ g (j - 1) gk;
    MatrixCmrSparse.array_setZ g (k - 1) gj.

(** Modelled from the spec: [PM.with_permuted_rows_and_columns(r, c)]; the
    result has [PM[r(i+1) - 1, c(j+1) - 1]] at [(i, j)]. *)
Definition with_permuted_rows_and_columns (PM : matrix) (r c : perm)
  : result matrix :=
  tuple_of (fun i =>
              tuple_of (fun j => entry PM (call r (i + 1) - 1)
                                          (call c (j + 1) - 1))
                       (range 0 (ncols PM)))
           (range 0 (nrows PM)).

(** [index_of_max(iterable)]: the index of the first maximum. *)
Fixpoint index_of_max_from (l : list Z) (i best best_i : Z) : Z :=
  match l with
  | [] => best_i
  | x :: l' =>
      if best <? x then index_of_max_from l' (i + 1) x i
      else index_of_max_from l' (i + 1) best best_i
  end.

Definition index_of_max (l : list Z) : result Z :=
  match l with
  | [] => Raise (ValueError "max() arg is an empty sequence")
  | x :: l' => Ok (index_of_max_from l' 1 x 0)
  end.

(** The dictionaries [permutations] and [permutations_bar]: a key is mapped
    to the pair [[row permutation, column permutation]]. *)
Definition perms : Type := gmap Z (perm * perm).

Definition lookup_perms (P : perms) (key : Z) : result (perm * perm) :=
  match P !! key with
  | Some x => Ok x
  | None => Raise KeyError
  end.

(** [P[key][0]] and [P[key][1]] *)
Definition P0 (P : perms) (key : Z) : result perm := fst <$> lookup_perms P key.
Definition P1 (P : perms) (key : Z) : result perm := snd <$> lookup_perms P key.

(** [P[key][0] = g] and [P[key][1] = g] *)
Definition set_P0 (P : perms) (key : Z) (g : perm) : result perms :=
  x ← lookup_perms P key; Ok (<[key := (g, x.2)]> P).
Definition set_P1 (P : perms) (key : Z) (g : perm) : result perms :=
  x ← lookup_perms P key; Ok (<[key := (x.1, g)]> P).

(** [PM[P[key][0](r + 1) - 1, P[key][1](c + 1) - 1]] *)
Definition permuted_entry (PM : matrix) (P : perms) (key r c : Z)
  : result Z :=
  g0 ← P0 P key; g1 ← P1 P key;
  entry PM (call g0 (r + 1) - 1) (call g1 (c + 1) - 1).

(** [P[key][1] = P[key][1]._transpose_left(j, k)] and the same for
    [P[key][0]] *)
Definition transpose_P1 (P : perms) (key j k : Z) : result perms :=
  g ← P1 P key; g ← _transpose_left g j k; set_P1 P key g.
Definition transpose_P0 (P : perms) (key j k : Z) : result perms :=
  g ← P0 P key; g ← _transpose_left g j k; set_P0 P key g.

(** [{k: P[k] for k in P if k < n_s}] *)
Definition below (n_s : Z) (P : perms) : perms :=
  filter (fun kv => kv.1 < n_s) P.

Section PM_max.
Variable PM : matrix.
Let n_v : Z := ncols PM.
Let n_f : Z := nrows PM.

(** *** The first row *)

Definition first_row_step (P : perms) (j : Z) : result perms :=
  values ← tuple_of (fun i => entry PM 0 i) (range j n_v);
  m ← index_of_max values;
  if 0 <? m then transpose_P1 P 0 (j + 1) (m + j + 1) else Ok P.

(** *** The other rows against the first row *)

(** The loop [for i in range(1, n_v)], which is left by [break] as soon
    as [d < 0]. *)
Fixpoint arrange_row (k n_s : Z) (first_row : list Z) (columns : list Z)
    (P : perms) (d : Z) : result (perms * Z) :=
  match columns with
  | [] => Ok (P, d)
  | i :: columns' =>
      g ← P1 P n_s;
      max_element ← entry PM k (call g (i + 1) - 1) ≫= as_int;
      '(max_element, m) ←
        for_each (fun '(max_element, m) j =>
                    element ← entry PM k (call g (j + 1) - 1) ≫= as_int;
                    if max_element <? element then Ok (element, j)
                    else Ok (max_element, m))
                 (range (i + 1) n_v) (max_element, i);
      P ← (if i <? m then transpose_P1 P n_s (i + 1) (m + 1) else Ok P);
      if d =? 0 then
        g ← P1 P n_s;
        x ← entry PM k (call g (i + 1) - 1);
        g0 ← P1 P 0;
        reference ← act_on_list g0 first_row;
        y ← getitem reference i;
        d ← as_int (x - y);
        if d <? 0 then Ok (P, d)
        else arrange_row k n_s first_row columns' P d
      else arrange_row k n_s first_row columns' P d
  end.

Definition other_row_step (st : perms * Z * list Z) (k : Z)
  : result (perms * Z * list Z) :=
  let '(P, n_s, first_row) := st in
  let P := <[n_s := (one n_f, one n_v)]> P in
  g ← P1 P n_s;
  values ← tuple_of (fun j => entry PM k (call g (j + 1) - 1)) (range 0 n_v);
  m ← index_of_max values;
  P ← (if 0 <? m then transpose_P1 P n_s 1 (m + 1) else Ok P);
  g ← P1 P n_s;
  x ← entry PM k (call g 1 - 1);
  g0 ← P1 P 0;
  reference ← act_on_list g0 first_row;
  y ← getitem reference 0;
  d ← as_int (x - y);
  if d <? 0 then Ok (P, n_s, first_row)
  else
    '(P, d) ← arrange_row k n_s first_row (range 1 n_v) P d;
    if d <? 0 then Ok (delete n_s P, n_s, first_row)
    else
      P ← transpose_P0 P n_s 1 (k + 1);
      if d =? 0 then Ok (P, n_s + 1, first_row)
      else
        first_row ← getitem PM k;
        x ← lookup_perms P n_s;
        Ok ({[ 0 := x ]}, 1, first_row).

(** *** The symmetry blocks of the first row *)

Definition blocks_step (b : list Z) (S_ : list Z) (i : Z)
  : result (list Z) :=
  x ← getitem b (i - 1);
  y ← getitem b i;
  if x =? y then
    v ← getitem S_ (i - 1);
    S_ ← setitem S_ i v;
    si ← getitem S_ i;
    w ← getitem S_ (si - 1);
    setitem S_ (si - 1) (w + 1)
  else setitem S_ i (i + 1).

(** *** The rows below the first one *)

(** The variables the search for row [l] updates while it works on the
    candidate [k]. *)
Record search : Type := mkSearch {
  permutations_bar : perms;
  n_p : Z;
  ccf : Z;
  l_r : list Z;
  cf : Z;
  n_s : Z
}.

(** [if s != l: P[key][0] = P[key][0]._transpose_left(l + 1, s + 1)] *)
Definition move_row (P : perms) (key l s : Z) : result perms :=
  if negb (s =? l) then transpose_P0 P key (l + 1) (s + 1) else Ok P.

(** The body of [for s in range(l, n_f)]. *)
Definition first_block_step (l k : Z) (S_ : list Z) (permutations : perms)
    (st : search) (s : Z) : result search :=
  let '(mkSearch Pbar n_p ccf l_r cf n_s) := st in
  s0 ← getitem S_ 0;
  Pbar ← for_each
           (fun Pbar j =>
              v0 ← permuted_entry PM Pbar n_p s 0 ≫= as_int;
              vj ← permuted_entry PM Pbar n_p s j ≫= as_int;
              if v0 <? vj then transpose_P1 Pbar n_p 1 (j + 1) else Ok Pbar)
           (range 1 s0) Pbar;
  if ccf =? 0 then
    x ← permuted_entry PM Pbar n_p s 0;
    l_r ← setitem l_r 0 x;
    Pbar ← move_row Pbar n_p l s;
    let n_p := n_p + 1 in
    pk ← lookup_perms permutations k;
    Ok (mkSearch (<[n_p := pk]> Pbar) n_p 1 l_r cf n_s)
  else
    d1 ← permuted_entry PM Pbar n_p s 0 ≫= as_int;
    y ← getitem l_r 0;
    d ← as_int (d1 - y);
    if d <? 0 then Ok (mkSearch Pbar n_p ccf l_r cf n_s)
    else if d =? 0 then
      Pbar ← move_row Pbar n_p l s;
      let n_p := n_p + 1 in
      pk ← lookup_perms permutations k;
      Ok (mkSearch (<[n_p := pk]> Pbar) n_p ccf l_r cf n_s)
    else
      l_r ← setitem l_r 0 d1;
      Pbar ← move_row Pbar n_p l s;
      x ← lookup_perms Pbar n_p;
      pk ← lookup_perms permutations k;
      Ok (mkSearch (<[1 := pk]> {[ 0 := x ]}) 1 ccf l_r 0 (k + 1)).

(** The body of [while s > 0] after [s -= 1]. *)
Definition block_candidate_step (l k c h : Z) (st : search) (s : Z)
  : result search :=
  let '(mkSearch Pbar n_p ccf l_r cf n_s) := st in
  Pbar ← for_each
           (fun Pbar j =>
              vc ← permuted_entry PM Pbar s l c ≫= as_int;
              vj ← permuted_entry PM Pbar s l j ≫= as_int;
              if vc <? vj then transpose_P1 Pbar s (c + 1) (j + 1)
              else Ok Pbar)
           (range (c + 1) h) Pbar;
  if ccf =? 0 then
    x ← permuted_entry PM Pbar s l c;
    l_r ← setitem l_r c x;
    Ok (mkSearch Pbar n_p 1 l_r cf n_s)
  else
    d1 ← permuted_entry PM Pbar s l c ≫= as_int;
    y ← getitem l_r c;
    d ← as_int (d1 - y);
    if d <? 0 then
      let n_p := n_p - 1 in
      if s <? n_p then
        x ← lookup_perms Pbar n_p;
        Ok (mkSearch (<[s := x]> Pbar) n_p ccf l_r cf n_s)
      else Ok (mkSearch Pbar n_p ccf l_r cf n_s)
    else if 0 <? d then
      l_r ← setitem l_r c d1;
      Ok (mkSearch Pbar (s + 1) ccf l_r 0 (k + 1))
    else Ok (mkSearch Pbar n_p ccf l_r cf n_s).

(** The body of [for c in range(1, n_v)]. *)
Definition block_step (l k : Z) (S_ : list Z) (st : search) (c : Z)
  : result search :=
  h ← getitem S_ c;
  let '(mkSearch Pbar n_p _ l_r cf n_s) := st in
  h ← (if h <? c + 1 then getitem S_ (h - 1) else Ok h);
  for_each (block_candidate_step l k c h) (rev (range 0 n_p))
           (mkSearch Pbar n_p cf l_r cf n_s).

(** The body of [for k in range(n_s_bar - 1, -1, -1)]. *)
Definition candidate_step (l : Z) (S_ : list Z)
    (st : perms * Z * Z * list Z) (k : Z)
  : result (perms * Z * Z * list Z) :=
  let '(permutations, n_s, cf, l_r) := st in
  pk ← lookup_perms permutations k;
  st ← for_each (first_block_step l k S_ permutations) (range l n_f)
                (mkSearch {[ 0 := pk ]} 0 cf l_r cf n_s);
  st ← for_each (block_step l k S_) (range 1 n_v) st;
  let '(mkSearch Pbar n_p _ l_r _ n_s) := st in
  permutations ←
    (if k <? n_s - 1 then
       x ← lookup_perms permutations (n_s - 1); Ok (<[k := x]> permutations)
     else Ok permutations);
  let n_s := n_s - 1 in
  '(permutations, n_s) ←
    for_each (fun '(permutations, n_s) s =>
                x ← lookup_perms Pbar s;
                Ok (<[n_s := x]> permutations, n_s + 1))
             (range 0 n_p) (permutations, n_s);
  Ok (permutations, n_s, n_s, l_r).

(** The inner loop [while c < (s - 1)] of the update of [S_].  [fuel] is
    the number of positions from [c] to the end of [M]; when none is left
    the access [M[c]] is out of range. *)
Fixpoint refine_block (fuel : nat) (M S_ : list Z) (c s : Z)
  : result (list Z * Z) :=
  if c <? s - 1 then
    mc ← getitem M c;
    mc1 ← getitem M (c - 1);
    match fuel with
    | O => Raise IndexError
    | Datatypes.S fuel' =>
        S_ ← (if mc =? mc1 then
               v ← getitem S_ (c - 1);
               S_ ← setitem S_ c v;
               sc ← getitem S_ c;
               w ← getitem S_ (sc - 1);
               setitem S_ (sc - 1) (w + 1)
             else setitem S_ c (c + 1));
        refine_block fuel' M S_ (c + 1) s
    end
  else Ok (S_, c).

(** The outer loop [while c < n_v] of the update of [S_]; it runs at most
    once for every position. *)
Fixpoint refine_blocks (fuel : nat) (M S_ : list Z) (c : Z)
  : result (list Z) :=
  if c <? n_v then
    match fuel with
    | O => Ok S_
    | Datatypes.S fuel' =>
        sc ← getitem S_ c;
        let s := sc + 1 in
        S_ ← setitem S_ c (c + 1);
        let c := c + 1 in
        '(S_, c) ← refine_block (Z.to_nat (n_v - c)) M S_ c s;
        refine_blocks fuel' M S_ c
    end
  else Ok S_.

(** The body of [for l in range(1, n_f - 1)]. *)
Definition row_step (st : perms * list Z) (l : Z)
  : result (perms * list Z) :=
  let '(permutations, S_) := st in
  let n_s := Z.of_nat (size permutations) in
  let n_s_bar := n_s in
  '(permutations, n_s, _, _) ←
    for_each (candidate_step l S_) (rev (range 0 n_s_bar))
             (permutations, n_s, 0, repeat 0 (Z.to_nat n_v));
  let permutations := below n_s permutations in
  if bool_decide (S_ <> range 1 (n_v + 1)) then
    M ← tuple_of (fun j => permuted_entry PM permutations 0 l j)
                 (range 0 n_v);
    S_ ← refine_blocks (Z.to_nat n_v) M S_ 0;
    Ok (permutations, S_)
  else Ok (permutations, S_).

(** [_palp_PM_max(check=True)], on the pairing matrix [PM] *)
Definition _palp_PM_max_check : result (matrix * perms) :=
  let permutations : perms := {[ 0 := (one n_f, one n_v) ]} in
  permutations ← for_each first_row_step (range 0 n_v) permutations;
  first_row ← getitem PM 0;
  '(permutations, n_s, first_row) ←
    for_each other_row_step (range 1 n_f) (permutations, 1, first_row);
  let permutations := below n_s permutations in
  b ← tuple_of (fun j => permuted_entry PM permutations 0 0 j) (range 0 n_v);
  S_ ← for_each (blocks_step b) (range 1 n_v) (range 1 (n_v + 1));
  '(permutations, S_) ←
    for_each row_step (range 1 (n_f - 1)) (permutations, S_);
  x ← lookup_perms permutations 0;
  PM_max ← with_permuted_rows_and_columns PM x.1 x.2;
  Ok (PM_max, permutations).

(** [_palp_PM_max()] *)
Definition _palp_PM_max : result matrix := fst <$> _palp_PM_max_check.
End PM_max.
End Palp.

(** * Statements and examples *)

(** ** Element keys *)

Section BuiltKeys.
Context {label : Type} `{Countable label}.

(** The keys the code builds are equal as records exactly when [__eq__]
    holds, so that [=] on tuples of keys is Python's [==]. *)
Definition built (k : ElementKey label) : Prop :=
  (exists l, k = simple l) \/ (exists s1 l1 s2 l2, k = composed s1 l1 s2 l2).
End BuiltKeys.

(** ** Assignment of keys *)

Section ConsistentKeys.
Import Seymour.
Context {K : Type} `{EqDecision K}.
Implicit Types self : DecompositionNode K.

(** The two conditions under which an assignment of row keys goes
    through. *)
Definition row_keys_consistent self (new : option (list K)) : Prop :=
  (_row_keys self = None \/ _row_keys self = new)
  /\ match new with
     | Some ks => nrows self = Ok (length ks)
     | None => True
     end.

Definition column_keys_consistent self (new : option (list K)) : Prop :=
  (_column_keys self = None \/ _column_keys self = new)
  /\ match new with
     | Some ks => ncols self = Ok (length ks)
     | None => True
     end.
End ConsistentKeys.

(** ** Keys of the children of a 3-sum with distributed ranks *)

Section WideWideKeys.
Import Seymour.
Context `{DecTypes} {K : Type} `{Countable K}.
Implicit Types self : DecompositionNode K.

(** The entry of [mat] at [(row, column)], read from the sparse structure:
    [0] when it is structurally absent. *)
Definition entry_or_0 (mat : option CMR_CHRMAT) (row column : Z) : result Z :=
  index ← FindEntry mat row column; entryValue_or_0 mat index.

(** Child 1 keeps its row keys, and its last column key is the key composed
    of [+1], the column key [C[ncols1 - 1]], the entry of its own matrix in
    the last row and last column, and the row key [R[nrows1 - 1]]. *)
Definition child1_Wide_Wide self (R C : list K) (d1 : CMR_MATROID_DEC)
    (c1 : DecompositionNode (ElementKey K)) : Prop :=
  exists rows cols sign kc kr,
    keys_of self (CMRmatroiddecRowsParent d1)
            (seq 0 (CMRmatroiddecNumRows d1)) = Ok rows
    /\ keys_of self (CMRmatroiddecColumnsParent d1)
               (seq 0 (CMRmatroiddecNumColumns d1 - 1)) = Ok cols
    /\ entry_or_0 (CMRmatroiddecGetMatrix d1)
                  (Z.of_nat (CMRmatroiddecNumRows d1) - 1)
                  (Z.of_nat (CMRmatroiddecNumColumns d1) - 1) = Ok sign
    /\ getitem C (Z.of_nat (CMRmatroiddecNumColumns d1) - 1) = Ok kc
    /\ getitem R (Z.of_nat (CMRmatroiddecNumRows d1) - 1) = Ok kr
    /\ _row_keys c1 = Some rows
    /\ _column_keys c1 = Some (cols ++ [composed 1 kc sign kr]).

(** Child 2 as the specification words it: all column keys kept, the first
    row key replaced by the key composed of [+1], [C[1]], the entry of its
    own matrix at the first row and column, and [R[0]]. *)
Definition child2_Wide_Wide_specified self (R C : list K)
    (d2 : CMR_MATROID_DEC) (c2 : DecompositionNode (ElementKey K)) : Prop :=
  exists rows cols sign kc kr,
    keys_of self (CMRmatroiddecColumnsParent d2)
            (seq 0 (CMRmatroiddecNumColumns d2)) = Ok cols
    /\ keys_of self (CMRmatroiddecRowsParent d2)
               (seq 1 (CMRmatroiddecNumRows d2 - 1)) = Ok rows
    /\ entry_or_0 (CMRmatroiddecGetMatrix d2) 0 0 = Ok sign
    /\ getitem C 1 = Ok kc
    /\ getitem R 0 = Ok kr
    /\ _column_keys c2 = Some cols
    /\ _row_keys c2 = Some (composed 1 kc sign kr :: rows).

(** Child 2 with rows and columns the way the code and its docstring have
    them: all row keys kept, the first column key replaced by the key
    composed of [+1], [C[1]], a sign, and [R[0]].  The sign is [0] when the
    matrix of child 2 stores no entry in its first row and column; which
    sign the key has when the entry is stored is not stated here. *)
Definition child2_Wide_Wide self (R C : list K) (d2 : CMR_MATROID_DEC)
    (c2 : DecompositionNode (ElementKey K)) : Prop :=
  exists rows cols index sign kc kr,
    keys_of self (CMRmatroiddecRowsParent d2)
            (seq 0 (CMRmatroiddecNumRows d2)) = Ok rows
    /\ keys_of self (CMRmatroiddecColumnsParent d2)
               (seq 1 (CMRmatroiddecNumColumns d2 - 1)) = Ok cols
    /\ FindEntry (CMRmatroiddecGetMatrix d2) 0 0 = Ok index
    /\ (index = None -> sign = 0)
    /\ getitem C 1 = Ok kc
    /\ getitem R 0 = Ok kr
    /\ _row_keys c2 = Some rows
    /\ _column_keys c2 = Some (composed 1 kc sign kr :: cols).

(** C1 as the specification states it, for one node. *)
Definition Wide_Wide_as_specified self : Prop :=
  forall d d1 d2 R C children,
    __class__ self = ThreeSumNode ->
    _dec self = Some d ->
    CMRmatroiddecChildren d = [d1; d2] ->
    _row_keys self = Some R -> _column_keys self = Some C ->
    CMRmatroiddecThreeSumConcentratedRank d = false ->
    _children self = Ok children ->
    exists c1 c2,
      children = [Some c1; Some c2]
      /\ child1_Wide_Wide self R C d1 c1
      /\ child2_Wide_Wide_specified self R C d2 c2.
End WideWideKeys.

(** ** Type tags and classes *)

Section NamedTypes.
Import Seymour.
Context `{DecTypes}.

(** The values of the type tag that [_class] tests by name. *)
Definition named_types : list Z :=
  [CMR_MATROID_DEC_TYPE_ONE_SUM; CMR_MATROID_DEC_TYPE_TWO_SUM;
   CMR_MATROID_DEC_TYPE_THREE_SUM; CMR_MATROID_DEC_TYPE_GRAPH;
   CMR_MATROID_DEC_TYPE_COGRAPH; CMR_MATROID_DEC_TYPE_SERIES_PARALLEL;
   CMR_MATROID_DEC_TYPE_PIVOTS; CMR_MATROID_DEC_TYPE_SUBMATRIX;
   CMR_MATROID_DEC_TYPE_IRREGULAR; CMR_MATROID_DEC_TYPE_UNKNOWN].

(** The class that goes with a type tag, [PlanarNode] not being one. *)
Definition class_of_named_type (typ : Z) : option node_class :=
  if typ =? CMR_MATROID_DEC_TYPE_ONE_SUM then Some OneSumNode
  else if typ =? CMR_MATROID_DEC_TYPE_TWO_SUM then Some TwoSumNode
  else if typ =? CMR_MATROID_DEC_TYPE_THREE_SUM then Some ThreeSumNode
  else if typ =? CMR_MATROID_DEC_TYPE_GRAPH then Some GraphicNode
  else if typ =? CMR_MATROID_DEC_TYPE_COGRAPH then Some CographicNode
  else if typ <? -1 then Some SpecialLeafNode
  else if typ =? CMR_MATROID_DEC_TYPE_SERIES_PARALLEL
    then Some SeriesParallelReductionNode
  else if typ =? CMR_MATROID_DEC_TYPE_PIVOTS then Some PivotsNode
  else if typ =? CMR_MATROID_DEC_TYPE_SUBMATRIX then Some SubmatrixNode
  else if typ =? CMR_MATROID_DEC_TYPE_IRREGULAR
    then Some ThreeConnectedIrregularNode
  else if typ =? CMR_MATROID_DEC_TYPE_UNKNOWN then Some UnknownNode
  else None.
End NamedTypes.

(** ** Decompositions of the docstrings *)

Section Docstrings.
Import Seymour.
#[local] Existing Instance cmr_matroid_h.

(** A node over a 2×3 handle, used to run the statements above. *)
Definition example_leaf : CMR_MATROID_DEC :=
  mkDEC 7 2 3 None None None [] false false.

Definition example_unlabelled : DecompositionNode string :=
  mkNode GraphicNode (Some example_leaf) None None None.

Definition example_labelled : DecompositionNode string :=
  mkNode GraphicNode (Some example_leaf) None
         (Some ["r1"; "r2"]) (Some ["a"; "b"; "c"]).

(** The CMR matrix with the given rows. *)
Fixpoint row_nonzeros (column : nat) (row : list Z) : list (nat * Z) :=
  match row with
  | [] => []
  | v :: row' =>
      (if v =? 0 then [] else [(column, v)]) ++ row_nonzeros (S column) row'
  end.

Fixpoint row_slices (start : nat) (rows : list (list Z)) : list nat :=
  match rows with
  | [] => [start]
  | row :: rows' =>
      start :: row_slices (start + length (row_nonzeros 0 row)) rows'
  end.

Definition chrmat (ncolumns : nat) (rows : list (list Z)) : CMR_CHRMAT :=
  let entries := concat (map (row_nonzeros 0) rows) in
  mkCHRMAT (length rows) ncolumns (length entries) (row_slices 0 rows)
           entries.*1 entries.*2.

(** A child handle with its matrix and the parent elements of its rows and
    columns, given as indices of rows and of columns of the parent. *)
Definition child_handle (typ : Z) (mat : CMR_CHRMAT)
    (parent_rows parent_columns : list nat) : CMR_MATROID_DEC :=
  mkDEC typ (numRows mat) (numColumns mat) (Some mat)
        (Some (map CMRrowToElement parent_rows))
        (Some (map CMRcolumnToElement parent_columns))
        [] false false.

(** [three_sum_strategy="Wide_Wide"]: the 3-sum node [C] with row keys
    [(0, 1, 2, 3, a, 5)] and column keys [(4, b, c, d, e, f)]. *)
Definition R12_Wide_Wide_C1 : CMR_MATROID_DEC :=
  child_handle 7
    (chrmat 5 [[0; 0; 1; -1; -1]; [1; 1; 1; 0; 0];
               [0; 1; 0; 1; 1]; [-1; 0; -1; 0; 1]])
    [0; 1; 4; 3]%nat [1; 2; 3; 4; 4]%nat.

Definition R12_Wide_Wide_C2 : CMR_MATROID_DEC :=
  child_handle 7
    (chrmat 5 [[1; 0; 1; -1; 0]; [0; 0; 1; 0; 1];
               [-1; -1; 0; 1; 1]; [-1; -1; 0; 0; 1]])
    [0; 2; 3; 5]%nat [1; 3; 0; 4; 5]%nat.

Definition R12_Wide_Wide_dec : CMR_MATROID_DEC :=
  mkDEC 3 6 6 None None None [R12_Wide_Wide_C1; R12_Wide_Wide_C2] false true.

Definition R12_Wide_Wide : DecompositionNode string :=
  mkNode ThreeSumNode (Some R12_Wide_Wide_dec) None
         (Some ["0"; "1"; "2"; "3"; "a"; "5"])
         (Some ["4"; "b"; "c"; "d"; "e"; "f"]).

(** The children the docstring shows: [C1] with keys
    [((0, 1, a, 3), (b, c, d, e, +3+e))] and [C2] with keys
    [((0, 2, 3, 5), (+b+0, d, 4, e, f))]. *)
Definition R12_Wide_Wide_children
  : list (option (DecompositionNode (ElementKey string))) :=
  [Some (mkNode GraphicNode (Some R12_Wide_Wide_C1)
           (Some (Some R12_Wide_Wide_dec))
           (Some [simple "0"; simple "1"; simple "a"; simple "3"])
           (Some [simple "b"; simple "c"; simple "d"; simple "e";
                  composed 1 "e" 1 "3"]));
   Some (mkNode GraphicNode (Some R12_Wide_Wide_C2)
           (Some (Some R12_Wide_Wide_dec))
           (Some [simple "0"; simple "2"; simple "3"; simple "5"])
           (Some [composed 1 "b" 1 "0"; simple "d"; simple "4"; simple "e";
                  simple "f"]))].

(** [three_sum_strategy="Mixed_Mixed"]: the 3-sum node is the certificate,
    with row keys [range(6)] and column keys ['abcdef']. *)
Definition R12_Mixed_Mixed_C1 : CMR_MATROID_DEC :=
  child_handle 7
    (chrmat 5 [[1; 0; 1; 1; 0]; [0; 1; 1; 1; 0];
               [1; 0; 1; 0; 1]; [0; -1; 0; -1; 1]])
    [0; 1; 2; 3]%nat [0; 1; 2; 3; 4]%nat.

Definition R12_Mixed_Mixed_C2 : CMR_MATROID_DEC :=
  child_handle 7
    (chrmat 4 [[1; 1; 0; 0]; [1; 0; 1; 1]; [0; -1; 1; 1];
               [1; 0; 1; 0]; [0; -1; 0; 1]])
    [0; 2; 3; 4; 5]%nat [0; 3; 4; 5]%nat.

Definition Mixed_Mixed_node (C1 C2 : CMR_MATROID_DEC)
  : DecompositionNode string :=
  mkNode ThreeSumNode (Some (mkDEC 3 6 6 None None None [C1; C2] true false))
         None
         (Some ["0"; "1"; "2"; "3"; "4"; "5"])
         (Some ["a"; "b"; "c"; "d"; "e"; "f"]).

Definition R12_Mixed_Mixed : DecompositionNode string :=
  Mixed_Mixed_node R12_Mixed_Mixed_C1 R12_Mixed_Mixed_C2.

(** The keys the docstring shows: [C1] with
    [((0, 1, 2, 3), (a, b, c, d, +2+3))] and [C2] with
    [((+a+b, 2, 3, 4, 5), (a, d, e, f))]. *)
Definition keys_of_children {K : Type}
    (children : result (list (option (DecompositionNode K))))
  : result (list (option (list K) * option (list K))) :=
  map (fun child => match child with
                    | Some c => (_row_keys c, _column_keys c)
                    | None => (None, None)
                    end) <$> children.

(** The same node, with the first row of the matrix of child 1 negated.
    The matrix of child 2 is unchanged: its entries at [(0, 0)] and
    [(0, 1)] are both [1]. *)
Definition negated_Mixed_Mixed_C1 : CMR_MATROID_DEC :=
  child_handle 7
    (chrmat 5 [[-1; 0; -1; -1; 0]; [0; 1; 1; 1; 0];
               [1; 0; 1; 0; 1]; [0; -1; 0; -1; 1]])
    [0; 1; 2; 3]%nat [0; 1; 2; 3; 4]%nat.

Definition negated_Mixed_Mixed : DecompositionNode string :=
  Mixed_Mixed_node negated_Mixed_Mixed_C1 R12_Mixed_Mixed_C2.

(** The node with distributed ranks, with the first row of the matrix of
    child 1 negated.  The matrix of child 2 is unchanged: its entry at
    [(0, 0)] is [1]. *)
Definition negated_Wide_Wide_C1 : CMR_MATROID_DEC :=
  child_handle 7
    (chrmat 5 [[0; 0; -1; 1; 1]; [1; 1; 1; 0; 0];
               [0; 1; 0; 1; 1]; [-1; 0; -1; 0; 1]])
    [0; 1; 4; 3]%nat [1; 2; 3; 4; 4]%nat.

Definition negated_Wide_Wide : DecompositionNode string :=
  mkNode ThreeSumNode
         (Some (mkDEC 3 6 6 None None None
                      [negated_Wide_Wide_C1; R12_Wide_Wide_C2] false true))
         None
         (Some ["0"; "1"; "2"; "3"; "a"; "5"])
         (Some ["4"; "b"; "c"; "d"; "e"; "f"]).

(** With the values of [cmr/matroid.h]: the type tag [9] is none of the
    tested ones. *)
Definition planar_handle : CMR_MATROID_DEC :=
  mkDEC 9 3 2 None None None [] false false.

Definition graph_handle : CMR_MATROID_DEC :=
  mkDEC 7 3 2 None None None [] false false.

(** The 2-sum of the docstring of [TwoSumNode.block_matrix_form]
    ([certificate2]): CMR numbers first the child with parent rows
    [(4, 5, 6, 7, 0)] and parent columns [(0, 1, 2, 3)], then the child with
    parent rows [(0, 1, 2, 3)] and parent columns [(0, 4, 5, 6, 7)]. *)
Definition two_sum_first : CMR_MATROID_DEC :=
  child_handle 7
    (chrmat 4 [[1; 1; 1; 0]; [1; 0; 0; -1]; [0; 1; 1; 1]; [0; 0; 1; 1];
               [1; 1; 0; 0]])
    [4; 5; 6; 7; 0]%nat [0; 1; 2; 3]%nat.

Definition two_sum_second : CMR_MATROID_DEC :=
  child_handle 8
    (chrmat 5 [[1; 1; 1; 0; 0]; [0; 1; 0; 1; 1]; [1; 1; 0; 1; 0];
               [0; 0; -1; 1; 1]])
    [0; 1; 2; 3]%nat [0; 4; 5; 6; 7]%nat.

Definition two_sum : DecompositionNode string :=
  mkNode TwoSumNode
    (Some (mkDEC 2 8 8 None None None [two_sum_first; two_sum_second]
                 false false))
    None None None.

(** [[child.parent_rows_and_columns() for child in children]] *)
Definition parents_of_children {K : Type}
    (children : result (list (option (DecompositionNode K))))
  : result (list (option (list K + list nat) * option (list K + list nat))) :=
  children ← children;
  tuple_of (fun child => c ← deref child; parent_rows_and_columns c) children.

(** The earlier revision on the same decomposition. *)
Definition earlier_two_sum : SeymourEarlier.DecompositionNode :=
  SeymourEarlier.mkNode TwoSumNode
    (Some (SeymourEarlier.mkCMR_DEC 2 false false 0 false false 8 8 None
             None None
             [SeymourEarlier.mkCMR_DEC 0 true false 0 false false 5 4 None
                (Some [4; 5; 6; 7; 0]%nat) (Some [0; 1; 2; 3]%nat) [];
              SeymourEarlier.mkCMR_DEC 0 false true 0 false false 4 5 None
                (Some [0; 1; 2; 3]%nat) (Some [0; 4; 5; 6; 7]%nat) []]))
    None.
End Docstrings.

(** ** The order of the earlier revision *)

Section EarlierOrder.
Import Seymour SeymourEarlier.

(** [y] does not come before [x]. *)
Definition not_after (x y : sort_key) : Prop := key_lt y x = Ok false.
End EarlierOrder.

(** ** The order of the children in the current revision *)

Section SortedChildren.
Import Seymour.
Context `{DecTypes} {K : Type} `{Countable K}.

(** A component of [parent_rows_and_columns()] as a tuple of indices; a
    component that is [None] or a tuple of keys is not one. *)
Definition index_tuple_of {L : Type} (t : option (list L + list nat))
  : SeymourEarlier.index_tuple :=
  match t with
  | Some (inr indices) => Some indices
  | _ => None
  end.

Definition sort_key_of {L : Type}
    (p : option (list L + list nat) * option (list L + list nat))
  : SeymourEarlier.sort_key :=
  (index_tuple_of p.1, index_tuple_of p.2).

(** C4 as the specification states it, for one node that is not a 3-sum:
    the children come sorted by their parent rows and parent columns. *)
Definition children_sorted_as_specified (self : DecompositionNode K) : Prop :=
  __class__ self <> ThreeSumNode ->
  forall parents,
    parents_of_children (_children self) = Ok parents ->
    Sorted not_after (map sort_key_of parents).
End SortedChildren.

(** ** Dictionaries of matrix entries *)

Section Dictionaries.
Import MatrixCmrSparse.
Variables nrows ncols : nat.

(** The coordinates of the items lie in the matrix. *)
Definition valid_coordinates (d : dict_items) : Prop :=
  Forall (fun item : Z * Z * Z =>
            0 <= item.1.1 < Z.of_nat nrows /\ 0 <= item.1.2 < Z.of_nat ncols) d.

(** The value fits a signed byte. *)
Definition fits_char (v : Z) : Prop := -128 <= v <= 127.

(** The number of nonzero items of [d] in row [r]. *)
Fixpoint count_row (d : dict_items) (r : nat) : nat :=
  match d with
  | [] => 0
  | item :: d' =>
      Nat.add (if negb (item.2 =? 0) && (item.1.1 =? Z.of_nat r)
               then 1%nat else 0%nat)
              (count_row d' r)
  end.

(** The number of nonzero items of [d] in the rows before [k]. *)
Fixpoint count_before (d : dict_items) (k : nat) : nat :=
  match d with
  | [] => 0
  | item :: d' =>
      Nat.add (if negb (item.2 =? 0) && (item.1.1 <? Z.of_nat k)
               then 1%nat else 0%nat)
              (count_before d' k)
  end.

Definition overflow : exception :=
  OverflowError "value too large to convert to char".
End Dictionaries.

(** ** A graphicness test with a time limit *)

Section GivesUp.
Import MatrixCmrSparse.

(** A test that gives up at once when the time limit is [0]. *)
Definition gives_up_at_0 (mat : CMR_CHRMAT) (certificate : bool)
    (time_limit : Z) : CMR_ERROR * bool :=
  if time_limit <=? 0 then (CMR_ERROR_TIMEOUT, false) else (CMR_OKAY, true).
End GivesUp.

(** ** Pairing matrices *)

Section PairingMatrices.
Import Palp.

(** The order of the normal form: rows are compared lexicographically, the
    first row first. *)
Fixpoint row_ltb (x y : list Z) : bool :=
  match x, y with
  | [], [] => false
  | [], _ :: _ => true
  | _ :: _, [] => false
  | a :: x', b :: y' =>
      if a <? b then true else if b <? a then false else row_ltb x' y'
  end.

Definition matrix_ltb (M N : matrix) : bool := row_ltb (concat M) (concat N).

(** The lattice polygon with the vertices [(1, 2)], [(0, 0)], [(0, 1)],
    [(3, 0)] and the facets [x - y + 1 >= 0], [3 - x - y >= 0], [x >= 0],
    [y >= 0]: the entry of its pairing matrix in row [i] and column [j] is
    the value of facet [i] at vertex [j]. *)
Definition quadrilateral_PM : matrix :=
  [[0; 1; 0; 4]; [0; 3; 2; 0]; [1; 0; 0; 3]; [2; 0; 1; 0]].

(** The same polygon with its facets and vertices in another order. *)
Definition quadrilateral_PM_reordered : matrix :=
  [[0; 0; 1; 2]; [0; 3; 0; 1]; [1; 4; 0; 0]; [3; 0; 2; 0]].

Definition quadrilateral_PM_max : matrix :=
  [[4; 0; 1; 0]; [3; 1; 0; 0]; [0; 2; 0; 1]; [0; 0; 3; 2]].

Definition quadrilateral_maximum : matrix :=
  [[4; 1; 0; 0]; [3; 0; 1; 0]; [0; 3; 0; 2]; [0; 0; 2; 1]].
End PairingMatrices.

(** ** Nodes and their keys *)

Section KeysFit.
Import Seymour.
Context {K : Type}.

(** The keys of a node fit its handle: a sequence of keys that is set has
    as many keys as the handle has rows or columns. *)
Definition keys_fit (node : DecompositionNode K) : Prop :=
  exists d, _dec node = Some d
    /\ (forall ks, _row_keys node = Some ks -> length ks = CMRmatroiddecNumRows d)
    /\ (forall ks, _column_keys node = Some ks ->
                   length ks = CMRmatroiddecNumColumns d).

(** Both sequences of keys of the node are set. *)
Definition keyed (node : DecompositionNode K) : bool :=
  bool_decide (is_Some (_row_keys node))
  && bool_decide (is_Some (_column_keys node)).
End KeysFit.

Section UnkeyedChildren.
Import Seymour.
Context `{DecTypes} {K : Type} `{Countable K}.

(** The node made of the handle [dec] for a parent without keys. *)
Definition unkeyed_child (self : DecompositionNode K)
    (dec : CMR_MATROID_DEC) (cls : node_class)
  : option (DecompositionNode (ElementKey K)) :=
  Some (mkNode cls (Some dec) (Some (root_or_self self)) None None).
End UnkeyedChildren.

Section DocstringChildren.
Import Seymour.
#[local] Existing Instance cmr_matroid_h.

(** The first child of the 3-sum of R12 with distributed ranks, with the
    keys that [_create_child_node] gives it. *)
Definition R12_Wide_Wide_summand : DecompositionNode (ElementKey string) :=
  mkNode GraphicNode (Some R12_Wide_Wide_C1) (Some (Some R12_Wide_Wide_dec))
         (Some [simple "0"; simple "1"; simple "a"; simple "3"])
         (Some [simple "b"; simple "c"; simple "d"; simple "e"; simple "e"]).
End DocstringChildren.

(** ** Children of the earlier revision *)

Section EarlierChildren.
Import Seymour SeymourEarlier.

(** Both parent arrays of the handle are there, and each is at least as
    long as the handle has rows or columns. *)
Definition has_parents (dec : CMR_DEC) : Prop :=
  exists a b,
    CMRdecRowsParent dec = Some a /\ CMRdecColumnsParent dec = Some b
    /\ (CMRdecNumRows dec <= length a)%nat
    /\ (CMRdecNumColumns dec <= length b)%nat.

(** The node made of the child handle [dec] of [self]. *)
Definition child_node (self : DecompositionNode) (dec : CMR_DEC)
  : option DecompositionNode :=
  Some (mkNode (_class dec) (Some dec) (Some (root_or_self self))).

(** A sort key of two tuples, none of them [None]. *)
Definition comparable (k : sort_key) : Prop := is_Some k.1 /\ is_Some k.2.
End EarlierChildren.

(** ** Entries of dictionaries and of matrices *)

Section DictionaryEntries.
Import MatrixCmrSparse.

(** The entries [(column, value)] that the nonzero items of [d] give to
    row [r], in the order of [d]. *)
Fixpoint row_entries (d : dict_items) (r : nat) : list (nat * Z) :=
  match d with
  | [] => []
  | item :: d' =>
      (if negb (item.2 =? 0) && (item.1.1 =? Z.of_nat r)
       then [(Z.to_nat item.1.2, item.2)] else [])
      ++ row_entries d' r
  end.

(** [d.get(key, 0)] *)
Fixpoint dict_get (d : dict_items) (key : Z * Z) : Z :=
  match d with
  | [] => 0
  | item :: d' => if bool_decide (item.1 = key) then item.2 else dict_get d' key
  end.

(** The value of the first entry of the row in column [j], and [0] when
    there is none. *)
Fixpoint entry_of (row : list (nat * Z)) (j : nat) : Z :=
  match row with
  | [] => 0
  | e :: row' => if Nat.eqb e.1 j then e.2 else entry_of row' j
  end.

(** The columns of the entries increase strictly. *)
Definition increasing (l : list (nat * Z)) : Prop :=
  Sorted (fun a b : nat * Z => (a.1 < b.1)%nat) l.

(** The entries of row [r] of the matrix with the row slices [sl] and the
    arrays [ec] and [ev] of columns and values. *)
Definition row_at (sl : nat -> nat) (ec : list nat) (ev : list Z) (r : nat)
  : list (nat * Z) :=
  combine (slice (sl r) (sl (S r)) ec) (slice (sl r) (sl (S r)) ev).

(** The item of the dictionary for the entry [e] of row [r]. *)
Definition item_of (r : nat) (e : nat * Z) : (Z * Z) * Z :=
  ((Z.of_nat r, Z.of_nat e.1), e.2).

(** The items of the rows [0, ..., n - 1], row after row. *)
Definition listing (rows : nat -> list (nat * Z)) (n : nat) : dict_items :=
  concat (map (fun r => map (item_of r) (rows r)) (seq 0 n)).

(** The items of [d] whose value is not [0]. *)
Definition nonzero_items (d : list (Z * Z * Z)) : list (Z * Z * Z) :=
  filter (fun item => item.2 <> 0) d.

(** A matrix in the form in which [_init_from_dict] leaves one: the row
    slices start at [0], do not decrease and end at the number of
    nonzeros, which is the length of both arrays of entries; in every row
    the columns increase strictly and lie in the matrix, and the values
    are nonzero bytes. *)
Definition canonical (m : CMR_CHRMAT) : Prop :=
  length (rowSlice m) = S (numRows m)
  /\ rowSlice m !! 0%nat = Some 0%nat
  /\ rowSlice m !! numRows m = Some (numNonzeros m)
  /\ length (entryColumns m) = numNonzeros m
  /\ length (entryValues m) = numNonzeros m
  /\ forall r lo hi,
       rowSlice m !! r = Some lo -> rowSlice m !! S r = Some hi ->
       (lo <= hi)%nat
       /\ increasing (combine (slice lo hi (entryColumns m))
                              (slice lo hi (entryValues m)))
       /\ Forall (fun e : nat * Z =>
                    (e.1 < numColumns m)%nat /\ e.2 <> 0 /\ fits_char e.2)
                 (combine (slice lo hi (entryColumns m))
                          (slice lo hi (entryValues m))).

(** The row slices as a function of the row. *)
Definition slice_of (m : CMR_CHRMAT) (r : nat) : nat :=
  default 0%nat (rowSlice m !! r).

(** The dictionary of the matrix [[1, 2, 3], [4, 0, 6]] of the docstring of
    [Matrix_cmr_chr_sparse]. *)
Definition docstring_dict : dict_items :=
  [((0, 0), 1); ((0, 1), 2); ((0, 2), 3); ((1, 0), 4); ((1, 2), 6)].

(** The matrix of that dictionary. *)
Definition docstring_matrix : CMR_CHRMAT :=
  mkCHRMAT 2 3 5 [0; 3; 5]%nat [0; 1; 2; 0; 2]%nat [1; 2; 3; 4; 6].
End DictionaryEntries.

(** * Properties *)

(** ** The error monad *)

Lemma bind_Ok {A B} (m : result A) (f : A -> result B) (b : B) :
  (m ≫= f) = Ok b -> exists a, m = Ok a /\ f a = Ok b.
Proof. destruct m as [a|e]; simpl; [eauto | discriminate]. Qed.

Lemma fmap_Ok {A B} (m : result A) (f : A -> B) (b : B) :
  (f <$> m) = Ok b -> exists a, m = Ok a /\ b = f a.
Proof. destruct m as [a|e]; simpl; [intros [= <-]; eauto | discriminate]. Qed.

(** Taking apart a hypothesis [(x ← m; f x) = Ok b]. *)
Ltac bind_inv H :=
  let a := fresh "a" in
  let Ha := fresh "H" a in
  apply bind_Ok in H; destruct H as (a & Ha & H).

Tactic Notation "split_bind" hyp(H) "as" ident(x) ident(Hx) :=
  apply bind_Ok in H; destruct H as (x & Hx & H).

Lemma for_each_app {A S} (body : S -> A -> result S) (l1 l2 : list A) (s : S) :
  for_each body (l1 ++ l2) s = (for_each body l1 s ≫= for_each body l2).
Proof.
  revert s; induction l1 as [|x l1 IH]; intros s; simpl; [reflexivity|].
  destruct (body s x); simpl; [apply IH | reflexivity].
Qed.

(** ** Element keys (claim C5) *)

Section ElementKeyFacts.
Context {label : Type} `{Countable label}.
Implicit Types k : ElementKey label.

Lemma eq_iff_key k1 k2 : __eq__ k1 k2 = true <-> _key k1 = _key k2.
Proof. unfold __eq__. apply bool_decide_eq_true. Qed.

Lemma composed_key_swap (s1 s2 : Z) (l1 l2 : label) :
  _key (composed s1 l1 s2 l2) = _key (composed s2 l2 s1 l1).
Proof. simpl. apply (comm_L (∪)). Qed.

Lemma composed_key_first_sign (s1 s1' s2 : Z) (l1 l2 : label) :
  _key (composed s1 l1 s2 l2) = _key (composed s1' l1 s2 l2) <-> s1 = s1'.
Proof.
  simpl; split; [|intros ->; reflexivity].
  intros E.
  destruct (decide (s1 = s1')) as [|Hne]; [assumption|exfalso].
  assert (H1 : Signed s1 l1 ∈ ({[Signed s1' l1; Signed s2 l2]} : gset _))
    by (rewrite <- E; apply elem_of_union_l, elem_of_singleton; reflexivity).
  assert (H2 : Signed s1' l1 ∈ ({[Signed s1 l1; Signed s2 l2]} : gset _))
    by (rewrite E; apply elem_of_union_l, elem_of_singleton; reflexivity).
  apply elem_of_union in H1 as [H1|H1]; apply elem_of_singleton in H1;
    [congruence|].
  apply elem_of_union in H2 as [H2|H2]; apply elem_of_singleton in H2;
    congruence.
Qed.

(** Two composed keys that differ in the first sign only. *)
Lemma eq_first_sign (s1 s1' s2 : Z) (l1 l2 : label) :
  __eq__ (composed s1 l1 s2 l2) (composed s1' l1 s2 l2)
  = bool_decide (s1 = s1').
Proof. unfold __eq__. apply bool_decide_ext, composed_key_first_sign. Qed.

(** C5, as the code has it.  Equality and hash of element keys are those
    of the frozenset [_key], whose members are the pairs (sign, label):
    a composed key equals the key composed from the operands in the other
    order, and both have the same hash; two keys are equal exactly when
    their frozensets are, and equal keys have equal hashes; the signs are
    part of the frozenset, so that changing one sign of a composed key
    gives a different key. *)
Theorem element_key_equality (hash : gset (member label) -> Z) :
  (forall (s1 s2 : Z) (l1 l2 : label),
      __eq__ (composed s1 l1 s2 l2) (composed s2 l2 s1 l1) = true
      /\ __hash__ hash (composed s1 l1 s2 l2)
         = __hash__ hash (composed s2 l2 s1 l1))
  /\ (forall k1 k2, __eq__ k1 k2 = true <-> _key k1 = _key k2)
  /\ (forall k1 k2, __eq__ k1 k2 = true -> __hash__ hash k1 = __hash__ hash k2)
  /\ (forall (s1 s1' s2 : Z) (l1 l2 : label),
        __eq__ (composed s1 l1 s2 l2) (composed s1' l1 s2 l2)
        = bool_decide (s1 = s1')).
Proof.
  split; [|split; [|split]].
  - intros s1 s2 l1 l2; split.
    + apply eq_iff_key, composed_key_swap.
    + unfold __hash__. f_equal. apply composed_key_swap.
  - apply eq_iff_key.
  - intros k1 k2 E. unfold __hash__. f_equal. apply eq_iff_key, E.
  - intros. unfold __eq__. apply bool_decide_ext, composed_key_first_sign.
Qed.

Lemma built_eq k1 k2 :
  built k1 -> built k2 -> __eq__ k1 k2 = true <-> k1 = k2.
Proof.
  intros B1 B2; split; [|intros ->; apply eq_iff_key; reflexivity].
  intros E; apply eq_iff_key in E.
  destruct k1 as [key1 c1], k2 as [key2 c2]; simpl in E; subst key2.
  f_equal.
  destruct B1 as [(l & E1)|(s1 & l1 & s2 & l2 & E1)];
    destruct B2 as [(l' & E2)|(s1' & l1' & s2' & l2' & E2)];
    unfold simple, composed in E1, E2;
    injection E1 as Hk1 Hc1; injection E2 as Hk2 Hc2;
    subst c1 c2; try reflexivity; exfalso; rewrite Hk1 in Hk2.
  - assert (Hin : Bare l ∈ ({[Signed s1' l1'; Signed s2' l2']} : gset _))
      by (rewrite <- Hk2; apply elem_of_singleton; reflexivity).
    apply elem_of_union in Hin as [Hin|Hin];
      apply elem_of_singleton in Hin; discriminate.
  - assert (Hin : Bare l' ∈ ({[Signed s1 l1; Signed s2 l2]} : gset _))
      by (rewrite Hk2; apply elem_of_singleton; reflexivity).
    apply elem_of_union in Hin as [Hin|Hin];
      apply elem_of_singleton in Hin; discriminate.
Qed.
End ElementKeyFacts.

(** C5 as the specification states it would make equality depend on the
    labels alone.  The keys [+a+b] and [-a+b] have the same labels and are
    different. *)
Lemma element_key_sign_matters :
  ~ (forall k1 k2 : ElementKey string,
        labels k1 = labels k2 -> __eq__ k1 k2 = true).
Proof.
  intros Hclaim.
  specialize (Hclaim (composed 1 "a" 1 "b") (composed (-1) "a" 1 "b")).
  assert (E : labels (composed 1 "a" 1 "b")
              = labels (composed (-1) "a" 1 "b" : ElementKey string))
    by (vm_compute; reflexivity).
  specialize (Hclaim E).
  apply eq_iff_key, composed_key_first_sign in Hclaim. discriminate Hclaim.
Qed.

(** The amended statement at the keys [+a-b] and [-b+a], whose hashes agree
    because the keys do. *)
Lemma element_key_equality_witness :
  __eq__ (composed 1 "a" (-1) "b") (composed (-1) "b" 1 "a") = true
  /\ __hash__ (fun s => Z.of_nat (size s)) (composed 1 "a" (-1) "b")
     = __hash__ (fun s => Z.of_nat (size s)) (composed (-1) "b" 1 "a").
Proof.
  split.
  - vm_compute; reflexivity.
  - apply (proj1 (proj2 (proj2
             (element_key_equality (fun s => Z.of_nat (size s)))))).
    vm_compute; reflexivity.
Defined.

(** ** Assignment of keys (claim C7) *)

Import Seymour.

Section SetKeys.
Context {K : Type} `{EqDecision K}.
Implicit Types self : DecompositionNode K.

Lemma _set_row_keys_Ok self new self' :
  _set_row_keys self new = Ok self' <->
  row_keys_consistent self new
  /\ self' = mkNode (__class__ self) (_dec self) (_root self) new
                    (_column_keys self).
Proof.
  unfold _set_row_keys, row_keys_consistent.
  destruct (bool_decide_reflect (_row_keys self <> None)) as [Hset|Hunset];
    [destruct (bool_decide_reflect (_row_keys self <> new)) as [Hne|Heq]|];
    simpl.
  - split; [discriminate|]. intros [[[?|?] _] _]; contradiction.
  - apply dec_stable in Heq.
    destruct new as [ks|]; [|rewrite Heq in Hset; contradiction].
    destruct (nrows self) as [n|e]; simpl.
    + destruct (bool_decide_reflect (n <> length ks)) as [Hn|Hn].
      * split; [discriminate|]. intros [[_ [= ?]] _]; contradiction.
      * apply dec_stable in Hn; subst n.
        split; [intros [= <-]; auto|intros [_ ->]; reflexivity].
    + split; [discriminate|]. intros [[_ ?] _]; discriminate.
  - apply dec_stable in Hunset.
    destruct new as [ks|]; simpl.
    + destruct (nrows self) as [n|e]; simpl.
      * destruct (bool_decide_reflect (n <> length ks)) as [Hn|Hn].
        -- split; [discriminate|]. intros [[_ [= ?]] _]; contradiction.
        -- apply dec_stable in Hn; subst n.
           split; [intros [= <-]; auto|intros [_ ->]; reflexivity].
      * split; [discriminate|]. intros [[_ ?] _]; discriminate.
    + split; [intros [= <-]; auto|intros [_ ->]; reflexivity].
Qed.

Lemma _set_column_keys_Ok self new self' :
  _set_column_keys self new = Ok self' <->
  column_keys_consistent self new
  /\ self' = mkNode (__class__ self) (_dec self) (_root self)
                    (_row_keys self) new.
Proof.
  unfold _set_column_keys, column_keys_consistent.
  destruct (bool_decide_reflect (_column_keys self <> None)) as [Hset|Hunset];
    [destruct (bool_decide_reflect (_column_keys self <> new)) as [Hne|Heq]|];
    simpl.
  - split; [discriminate|]. intros [[[?|?] _] _]; contradiction.
  - apply dec_stable in Heq.
    destruct new as [ks|]; [|rewrite Heq in Hset; contradiction].
    destruct (ncols self) as [n|e]; simpl.
    + destruct (bool_decide_reflect (n <> length ks)) as [Hn|Hn].
      * split; [discriminate|]. intros [[_ [= ?]] _]; contradiction.
      * apply dec_stable in Hn; subst n.
        split; [intros [= <-]; auto|intros [_ ->]; reflexivity].
    + split; [discriminate|]. intros [[_ ?] _]; discriminate.
  - apply dec_stable in Hunset.
    destruct new as [ks|]; simpl.
    + destruct (ncols self) as [n|e]; simpl.
      * destruct (bool_decide_reflect (n <> length ks)) as [Hn|Hn].
        -- split; [discriminate|]. intros [[_ [= ?]] _]; contradiction.
        -- apply dec_stable in Hn; subst n.
           split; [intros [= <-]; auto|intros [_ ->]; reflexivity].
      * split; [discriminate|]. intros [[_ ?] _]; discriminate.
    + split; [intros [= <-]; auto|intros [_ ->]; reflexivity].
Qed.

Lemma _set_row_keys_conflict self old new :
  _row_keys self = Some old -> new <> Some old ->
  _set_row_keys self new = Raise (ValueError "inconsistent row keys").
Proof.
  intros Hold Hne. unfold _set_row_keys. rewrite Hold.
  rewrite (bool_decide_eq_true_2 (Some old <> None)) by discriminate.
  rewrite (bool_decide_eq_true_2 (Some old <> new)) by congruence.
  reflexivity.
Qed.

Lemma _set_column_keys_conflict self old new :
  _column_keys self = Some old -> new <> Some old ->
  _set_column_keys self new = Raise (ValueError "inconsistent column keys").
Proof.
  intros Hold Hne. unfold _set_column_keys. rewrite Hold.
  rewrite (bool_decide_eq_true_2 (Some old <> None)) by discriminate.
  rewrite (bool_decide_eq_true_2 (Some old <> new)) by congruence.
  reflexivity.
Qed.

Lemma _set_row_keys_cardinality self d ks :
  _dec self = Some d -> length ks <> CMRmatroiddecNumRows d ->
  exists msg, _set_row_keys self (Some ks) = Raise (ValueError msg).
Proof.
  intros Hd Hlen. unfold _set_row_keys, nrows. rewrite Hd. simpl.
  destruct (_ && _); [eauto|].
  rewrite bool_decide_eq_true_2 by congruence. eauto.
Qed.

Lemma _set_column_keys_cardinality self d ks :
  _dec self = Some d -> length ks <> CMRmatroiddecNumColumns d ->
  exists msg, _set_column_keys self (Some ks) = Raise (ValueError msg).
Proof.
  intros Hd Hlen. unfold _set_column_keys, ncols. rewrite Hd. simpl.
  destruct (_ && _); [eauto|].
  rewrite bool_decide_eq_true_2 by congruence. eauto.
Qed.

(** C7.  Assigning row keys (and, in the same way, column keys) raises
    [ValueError] when keys were set before and the new value differs from
    them, and when the number of new keys is not the number of rows
    (columns) of the node.  The assignment succeeds exactly when neither
    is the case, and then stores the new value.  Keys that are set stay
    what they are: every later assignment that succeeds leaves them
    unchanged. *)
Theorem set_keys_consistency self :
  (forall old new, _row_keys self = Some old -> new <> Some old ->
      _set_row_keys self new = Raise (ValueError "inconsistent row keys"))
  /\ (forall d ks, _dec self = Some d ->
        length ks <> CMRmatroiddecNumRows d ->
        exists msg, _set_row_keys self (Some ks) = Raise (ValueError msg))
  /\ (forall new self', _set_row_keys self new = Ok self' <->
        row_keys_consistent self new
        /\ self' = mkNode (__class__ self) (_dec self) (_root self) new
                          (_column_keys self))
  /\ (forall ks new self', _row_keys self = Some ks ->
        _set_row_keys self new = Ok self' -> _row_keys self' = Some ks)
  /\ (forall old new, _column_keys self = Some old -> new <> Some old ->
        _set_column_keys self new
        = Raise (ValueError "inconsistent column keys"))
  /\ (forall d ks, _dec self = Some d ->
        length ks <> CMRmatroiddecNumColumns d ->
        exists msg, _set_column_keys self (Some ks) = Raise (ValueError msg))
  /\ (forall new self', _set_column_keys self new = Ok self' <->
        column_keys_consistent self new
        /\ self' = mkNode (__class__ self) (_dec self) (_root self)
                          (_row_keys self) new)
  /\ (forall ks new self', _column_keys self = Some ks ->
        _set_column_keys self new = Ok self' ->
        _column_keys self' = Some ks).
Proof.
  repeat apply conj.
  - apply _set_row_keys_conflict.
  - apply _set_row_keys_cardinality.
  - apply _set_row_keys_Ok.
  - intros ks new self' Hks Hset.
    apply _set_row_keys_Ok in Hset as [[[Hnone| <-] _] ->]; simpl;
      congruence.
  - apply _set_column_keys_conflict.
  - apply _set_column_keys_cardinality.
  - apply _set_column_keys_Ok.
  - intros ks new self' Hks Hset.
    apply _set_column_keys_Ok in Hset as [[[Hnone| <-] _] ->]; simpl;
      congruence.
Qed.
End SetKeys.

Lemma set_keys_consistency_witness :
  _set_row_keys example_labelled (Some ["r2"; "r1"])
  = Raise (ValueError "inconsistent row keys")
  /\ (exists msg, _set_row_keys example_unlabelled (Some ["r1"])
                  = Raise (ValueError msg))
  /\ _set_row_keys example_unlabelled (Some ["r1"; "r2"])
     = Ok (mkNode GraphicNode (Some example_leaf) None (Some ["r1"; "r2"]) None)
  /\ (forall new self', _set_row_keys example_labelled new = Ok self' ->
        _row_keys self' = Some ["r1"; "r2"])
  /\ _set_column_keys example_labelled (Some ["a"; "b"])
     = Raise (ValueError "inconsistent column keys").
Proof.
  pose proof (set_keys_consistency example_labelled)
    as (Hconflict & _ & _ & Hstay & Hcolumns & _).
  pose proof (set_keys_consistency example_unlabelled)
    as (_ & Hcardinality & Hok & _).
  split; [|split; [|split; [|split]]].
  - apply (Hconflict ["r1"; "r2"]); [reflexivity | discriminate].
  - apply (Hcardinality example_leaf); [reflexivity | simpl; lia].
  - apply Hok. split; [|reflexivity].
    split; [left; reflexivity | reflexivity].
  - intros new self'. apply Hstay. reflexivity.
  - apply (Hcolumns ["a"; "b"; "c"]); [reflexivity | discriminate].
Defined.

(** ** Creation of nodes *)

Section Create.
Context `{DecTypes} {K : Type} `{EqDecision K}.

Lemma create_DecompositionNode_Ok (d : CMR_MATROID_DEC) root
    (rk ck : option (list K)) (node : option (DecompositionNode K)) :
  create_DecompositionNode (Some d) root rk ck = Ok node ->
  exists cls, _class d = Some cls
              /\ node = Some (mkNode cls (Some d) root rk ck).
Proof.
  unfold create_DecompositionNode. intros Hc.
  destruct (_class d) as [cls|]; [|discriminate]. simpl in Hc.
  exists cls; split; [reflexivity|].
  bind_inv Hc. bind_inv Hc. injection Hc as <-.
  assert (a = mkNode cls (Some d) root rk None) as ->.
  { destruct rk as [ks|].
    - apply _set_row_keys_Ok in Ha as [_ ->]. reflexivity.
    - injection Ha as <-. reflexivity. }
  destruct ck as [ks|].
  - apply _set_column_keys_Ok in Ha0 as [_ ->]. reflexivity.
  - injection Ha0 as <-. reflexivity.
Qed.

(** A handle whose type tag is none of the tested ones gives no node:
    [_class] returns [None], and calling it raises [TypeError]. *)
Lemma create_DecompositionNode_unmatched (d : CMR_MATROID_DEC) root
    (rk ck : option (list K)) :
  _class d = None ->
  create_DecompositionNode (Some d) root rk ck
  = Raise (TypeError "'NoneType' object is not callable").
Proof. unfold create_DecompositionNode. intros ->. reflexivity. Qed.
End Create.

(** ** The matrix of a node (claim C10) *)

Section MatrixOfNode.
Context `{DecTypes} {K : Type} `{Countable K}.
Implicit Types self : DecompositionNode K.

Lemma keys_of_length self parent indices keys :
  keys_of self parent indices = Ok keys -> length keys = length indices.
Proof.
  unfold keys_of. revert keys.
  induction indices as [|i indices IH]; intros keys Hk; simpl in Hk.
  - injection Hk as <-. reflexivity.
  - bind_inv Hk. bind_inv Hk. injection Hk as <-. simpl. f_equal. eauto.
Qed.

Lemma _create_child_node_root self index child :
  _create_child_node self index = Ok (Some child) ->
  root_or_self child = root_or_self self.
Proof.
  unfold _create_child_node. intros Hc.
  bind_inv Hc. bind_inv Hc.
  destruct (row_keys self), (column_keys self);
    [bind_inv Hc; bind_inv Hc| | |];
    apply create_DecompositionNode_Ok in Hc as (cls & _ & [= ->]);
    reflexivity.
Qed.

Lemma tuple_of_In {A B} (f : A -> result B) l r y :
  tuple_of f l = Ok r -> In y r -> exists x, In x l /\ f x = Ok y.
Proof.
  revert r; induction l as [|x l IH]; intros r Ht Hin; simpl in Ht.
  - injection Ht as <-. destruct Hin.
  - bind_inv Ht. bind_inv Ht. injection Ht as <-.
    destruct Hin as [<-|Hin]; [exists x; simpl; auto|].
    destruct (IH _ Ha0 Hin) as (x' & ? & ?). exists x'; simpl; auto.
Qed.

Lemma ThreeSumNode__children_root self children child :
  ThreeSumNode__children self = Ok children ->
  In (Some child) children ->
  root_or_self child = root_or_self self.
Proof.
  unfold ThreeSumNode__children. intros Hc Hin.
  bind_inv Hc. destruct (negb _); [discriminate|].
  bind_inv Hc. bind_inv Hc. bind_inv Hc.
  destruct (row_keys self), (column_keys self).
  2-4: bind_inv Hc; bind_inv Hc; injection Hc as <-;
       apply create_DecompositionNode_Ok in Ha3 as (? & _ & ->);
       apply create_DecompositionNode_Ok in Ha4 as (? & _ & ->);
       destruct Hin as [[= <-]|[[= <-]|[]]]; reflexivity.
  bind_inv Hc. bind_inv Hc. destruct a4 as [rk1 ck1].
  bind_inv Hc. bind_inv Hc. bind_inv Hc. destruct a6 as [rk2 ck2].
  bind_inv Hc. injection Hc as <-.
  apply create_DecompositionNode_Ok in Ha5 as (? & _ & ->).
  apply create_DecompositionNode_Ok in Ha8 as (? & _ & ->).
  destruct Hin as [[= <-]|[[= <-]|[]]]; reflexivity.
Qed.

Lemma _children_root self children child :
  _children self = Ok children -> In (Some child) children ->
  root_or_self child = root_or_self self.
Proof.
  unfold _children. intros Hc Hin.
  assert (Hgeneric : DecompositionNode__children self = Ok children ->
                     root_or_self child = root_or_self self).
  { unfold DecompositionNode__children. intros Hg. bind_inv Hg.
    destruct (tuple_of_In _ _ _ _ Hg Hin) as (index & _ & Hi).
    eapply _create_child_node_root, Hi. }
  destruct (__class__ self); auto.
  eapply ThreeSumNode__children_root; eauto.
Qed.

(** C10.  [matrix()] of a node returns [None], without raising, when the
    handle of the node holds no matrix.  When the handle holds a matrix,
    [matrix()] returns a matrix object over that very matrix, of its
    dimensions, whose owner [_root] is the root of the node, or the node
    itself when it is a root.  Children have the root of their parent, so
    that the owner is the root of the tree. *)
Theorem matrix_of_node self d :
  _dec self = Some d ->
  (CMRmatroiddecGetMatrix d = None -> matrix self = Ok None)
  /\ (forall mat, CMRmatroiddecGetMatrix d = Some mat ->
        matrix self
        = Ok (Some (Matrix.mkMatrix (numRows mat) (numColumns mat) mat
                      (Some (root_or_self self)))))
  /\ (forall children child,
        _children self = Ok children -> In (Some child) children ->
        forall M, matrix child = Ok (Some M) ->
                  Matrix._root M = Some (root_or_self self)).
Proof.
  intros Hd. unfold matrix. rewrite Hd. simpl.
  split; [intros ->; reflexivity|].
  split; [intros mat ->; reflexivity|].
  intros children child Hc Hin M HM.
  rewrite <- (_children_root _ _ _ Hc Hin).
  unfold matrix in HM. bind_inv HM.
  destruct (CMRmatroiddecGetMatrix a); [|discriminate].
  injection HM as <-. reflexivity.
Qed.
End MatrixOfNode.

(** ** Keys of the children of a 3-sum (claims C1 and C2) *)

Section ThreeSumKeys.
Context `{DecTypes} {K : Type} `{Countable K}.
Implicit Types self : DecompositionNode K.

(** What [ThreeSumNode._children] computes for a node with two children and
    both sequences of keys, in the branch of distributed ranks.  The sign
    in the key composed for child 2 is read from the values of [mat1], at
    the index that the entry has in [mat2]. *)
Lemma ThreeSumNode__children_Wide_Wide self d d1 d2 R C children :
  _dec self = Some d ->
  CMRmatroiddecChildren d = [d1; d2] ->
  _row_keys self = Some R -> _column_keys self = Some C ->
  CMRmatroiddecThreeSumConcentratedRank d = false ->
  ThreeSumNode__children self = Ok children ->
  exists cls1 cls2 rows1 cols1 sign1 kc1 kr1 rows2 cols2 index2 sign2 kc2 kr2,
    keys_of self (CMRmatroiddecRowsParent d1)
            (seq 0 (CMRmatroiddecNumRows d1)) = Ok rows1
    /\ keys_of self (CMRmatroiddecColumnsParent d1)
               (seq 0 (CMRmatroiddecNumColumns d1 - 1)) = Ok cols1
    /\ entry_or_0 (CMRmatroiddecGetMatrix d1)
                  (Z.of_nat (CMRmatroiddecNumRows d1) - 1)
                  (Z.of_nat (CMRmatroiddecNumColumns d1) - 1) = Ok sign1
    /\ getitem C (Z.of_nat (CMRmatroiddecNumColumns d1) - 1) = Ok kc1
    /\ getitem R (Z.of_nat (CMRmatroiddecNumRows d1) - 1) = Ok kr1
    /\ keys_of self (CMRmatroiddecRowsParent d2)
               (seq 0 (CMRmatroiddecNumRows d2)) = Ok rows2
    /\ keys_of self (CMRmatroiddecColumnsParent d2)
               (seq 1 (CMRmatroiddecNumColumns d2 - 1)) = Ok cols2
    /\ FindEntry (CMRmatroiddecGetMatrix d2) 0 0 = Ok index2
    /\ entryValue_or_0 (CMRmatroiddecGetMatrix d1) index2 = Ok sign2
    /\ getitem C 1 = Ok kc2
    /\ getitem R 0 = Ok kr2
    /\ children =
       [Some (mkNode cls1 (Some d1) (Some (root_or_self self)) (Some rows1)
                     (Some (cols1 ++ [composed 1 kc1 sign1 kr1])));
        Some (mkNode cls2 (Some d2) (Some (root_or_self self)) (Some rows2)
                     (Some (composed 1 kc2 sign2 kr2 :: cols2)))].
Proof.
  intros Hd Hch HR HC Hww Hc.
  unfold ThreeSumNode__children, nchildren, is_concentrated_rank,
    row_keys, column_keys, CMRmatroiddecNumChildren, CMRmatroiddecChild in Hc.
  rewrite Hd in Hc. cbn [deref mbind result_bind] in Hc.
  rewrite Hch in Hc. cbn [length Nat.eqb negb array_get nth_error] in Hc.
  cbn [mbind result_bind] in Hc.
  rewrite HR, HC, Hww in Hc. cbn [mbind result_bind] in Hc.
  split_bind Hc as p1 H1. destruct p1 as [rk1 ck1].
  split_bind H1 as rows1 Hrows1. split_bind H1 as cols1 Hcols1.
  split_bind H1 as index1 Hindex1. split_bind H1 as sign1 Hsign1.
  split_bind H1 as kc1 Hkc1. split_bind H1 as kr1 Hkr1.
  injection H1 as <- <-.
  split_bind Hc as child1 Hchild1.
  split_bind Hc as p2 H2. destruct p2 as [rk2 ck2].
  split_bind H2 as rows2 Hrows2. split_bind H2 as index2 Hindex2.
  split_bind H2 as sign2 Hsign2. split_bind H2 as cols2 Hcols2.
  split_bind H2 as kc2 Hkc2. split_bind H2 as kr2 Hkr2.
  injection H2 as <- <-.
  split_bind Hc as child2 Hchild2. injection Hc as <-.
  apply create_DecompositionNode_Ok in Hchild1 as (cls1 & _ & ->).
  apply create_DecompositionNode_Ok in Hchild2 as (cls2 & _ & ->).
  exists cls1, cls2, rows1, cols1, sign1, kc1, kr1, rows2, cols2, index2,
    sign2, kc2, kr2.
  unfold entry_or_0. rewrite Hindex1. cbn [mbind result_bind].
  repeat (split; [assumption|]). reflexivity.
Qed.

(** The same for the branch of concentrated rank.  Both signs in the key
    composed for child 2 are read from the values of [mat1], at the
    indices that the entries have in [mat2]. *)
Lemma ThreeSumNode__children_Mixed_Mixed self d d1 d2 R C children :
  _dec self = Some d ->
  CMRmatroiddecChildren d = [d1; d2] ->
  _row_keys self = Some R -> _column_keys self = Some C ->
  CMRmatroiddecThreeSumConcentratedRank d = true ->
  ThreeSumNode__children self = Ok children ->
  exists cls1 cls2 rows1 cols1 e1 e2 kr1 kr2 rows2 cols2 i1 i2 s1 s2 kc1 kc2,
    keys_of self (CMRmatroiddecRowsParent d1)
            (seq 0 (CMRmatroiddecNumRows d1)) = Ok rows1
    /\ keys_of self (CMRmatroiddecColumnsParent d1)
               (seq 0 (CMRmatroiddecNumColumns d1 - 1)) = Ok cols1
    /\ entry_or_0 (CMRmatroiddecGetMatrix d1)
                  (Z.of_nat (CMRmatroiddecNumRows d1) - 2)
                  (Z.of_nat (CMRmatroiddecNumColumns d1) - 1) = Ok e1
    /\ entry_or_0 (CMRmatroiddecGetMatrix d1)
                  (Z.of_nat (CMRmatroiddecNumRows d1) - 1)
                  (Z.of_nat (CMRmatroiddecNumColumns d1) - 1) = Ok e2
    /\ getitem R (Z.of_nat (CMRmatroiddecNumRows d1) - 2) = Ok kr1
    /\ getitem R (Z.of_nat (CMRmatroiddecNumRows d1) - 1) = Ok kr2
    /\ keys_of self (CMRmatroiddecRowsParent d2)
               (seq 1 (CMRmatroiddecNumRows d2 - 1)) = Ok rows2
    /\ keys_of self (CMRmatroiddecColumnsParent d2)
               (seq 0 (CMRmatroiddecNumColumns d2)) = Ok cols2
    /\ FindEntry (CMRmatroiddecGetMatrix d2) 0 0 = Ok i1
    /\ entryValue_or_0 (CMRmatroiddecGetMatrix d1) i1 = Ok s1
    /\ FindEntry (CMRmatroiddecGetMatrix d2) 0 1 = Ok i2
    /\ entryValue_or_0 (CMRmatroiddecGetMatrix d1) i2 = Ok s2
    /\ getitem C 0 = Ok kc1
    /\ getitem C 1 = Ok kc2
    /\ children =
       [Some (mkNode cls1 (Some d1) (Some (root_or_self self)) (Some rows1)
                     (Some (cols1 ++ [composed e1 kr1 e2 kr2])));
        Some (mkNode cls2 (Some d2) (Some (root_or_self self))
                     (Some (composed s1 kc1 s2 kc2 :: rows2)) (Some cols2))].
Proof.
  intros Hd Hch HR HC Hmm Hc.
  unfold ThreeSumNode__children, nchildren, is_concentrated_rank,
    row_keys, column_keys, CMRmatroiddecNumChildren, CMRmatroiddecChild in Hc.
  rewrite Hd in Hc. cbn [deref mbind result_bind] in Hc.
  rewrite Hch in Hc. cbn [length Nat.eqb negb array_get nth_error] in Hc.
  cbn [mbind result_bind] in Hc.
  rewrite HR, HC, Hmm in Hc. cbn [mbind result_bind] in Hc.
  split_bind Hc as p1 H1. destruct p1 as [rk1 ck1].
  split_bind H1 as rows1 Hrows1. split_bind H1 as cols1 Hcols1.
  split_bind H1 as index1 Hindex1. split_bind H1 as e1 He1.
  split_bind H1 as index2 Hindex2. split_bind H1 as e2 He2.
  split_bind H1 as kr1 Hkr1. split_bind H1 as kr2 Hkr2.
  injection H1 as <- <-.
  split_bind Hc as child1 Hchild1.
  split_bind Hc as p2 H2. destruct p2 as [rk2 ck2].
  split_bind H2 as rows2 Hrows2. split_bind H2 as i1 Hi1.
  split_bind H2 as s1 Hs1. split_bind H2 as i2 Hi2. split_bind H2 as s2 Hs2.
  split_bind H2 as kc1 Hkc1. split_bind H2 as kc2 Hkc2.
  split_bind H2 as cols2 Hcols2.
  injection H2 as <- <-.
  split_bind Hc as child2 Hchild2. injection Hc as <-.
  apply create_DecompositionNode_Ok in Hchild1 as (cls1 & _ & ->).
  apply create_DecompositionNode_Ok in Hchild2 as (cls2 & _ & ->).
  exists cls1, cls2, rows1, cols1, e1, e2, kr1, kr2, rows2, cols2, i1, i2,
    s1, s2, kc1, kc2.
  unfold entry_or_0. rewrite Hindex1, Hindex2. cbn [mbind result_bind].
  repeat (split; [assumption|]). reflexivity.
Qed.
End ThreeSumKeys.

(** *** Statements about the children with distributed ranks *)

Section WideWide.
Context `{DecTypes} {K : Type} `{Countable K}.
Implicit Types self : DecompositionNode K.

(** C1, amended.  For a 3-sum node that is not of concentrated rank and has
    both row keys [R] and column keys [C], the enumeration of the children,
    when it returns, returns two children.  Child 1 has the keys of all its
    rows, and the keys of its columns but the last, whose key is composed
    of [+1], [C[ncols1 - 1]], the entry of the matrix of child 1 in its last
    row and column ([0] when structurally absent), and [R[nrows1 - 1]].
    Child 2 has the keys of all its rows, and the keys of its columns but
    the first, whose key is composed of [+1], [C[1]], a sign, and [R[0]];
    the sign is [0] when the matrix of child 2 stores no entry in its first
    row and column.  Which sign the key of child 2 has when that entry is
    stored is left out of the statement. *)
Theorem Wide_Wide_children self d d1 d2 R C children :
  __class__ self = ThreeSumNode ->
  _dec self = Some d ->
  CMRmatroiddecChildren d = [d1; d2] ->
  _row_keys self = Some R -> _column_keys self = Some C ->
  CMRmatroiddecThreeSumConcentratedRank d = false ->
  _children self = Ok children ->
  exists c1 c2,
    children = [Some c1; Some c2]
    /\ child1_Wide_Wide self R C d1 c1
    /\ child2_Wide_Wide self R C d2 c2.
Proof.
  intros Hcls Hd Hch HR HC Hww Hc.
  unfold _children in Hc. rewrite Hcls in Hc.
  destruct (ThreeSumNode__children_Wide_Wide _ _ _ _ _ _ _ Hd Hch HR HC Hww Hc)
    as (cls1 & cls2 & rows1 & cols1 & sign1 & kc1 & kr1 & rows2 & cols2
        & index2 & sign2 & kc2 & kr2 & Hrows1 & Hcols1 & Hsign1 & Hkc1 & Hkr1
        & Hrows2 & Hcols2 & Hindex2 & Hsign2 & Hkc2 & Hkr2 & ->).
  eexists _, _. split; [reflexivity|]. split.
  - exists rows1, cols1, sign1, kc1, kr1. simpl. auto 10.
  - exists rows2, cols2, index2, sign2, kc2, kr2. simpl.
    assert (Habsent : index2 = None -> sign2 = 0).
    { intros ->. cbn [entryValue_or_0] in Hsign2. congruence. }
    auto 10.
Qed.
End WideWide.

(** *** The worked examples of the docstring of [ThreeSumNode._children] *)

#[local] Existing Instance cmr_matroid_h.

Lemma R12_Wide_Wide_doctest :
  _children R12_Wide_Wide = Ok R12_Wide_Wide_children.
Proof. vm_cast_no_check (eq_refl (Ok R12_Wide_Wide_children)). Qed.

(** C1 as stated fails on the worked example: child 2 does not keep all its
    column keys, its first column key is a composed key. *)
Lemma Wide_Wide_as_specified_fails : ~ Wide_Wide_as_specified R12_Wide_Wide.
Proof.
  intros Hs.
  destruct (Hs R12_Wide_Wide_dec R12_Wide_Wide_C1 R12_Wide_Wide_C2 _ _ _
              eq_refl eq_refl eq_refl eq_refl eq_refl eq_refl
              R12_Wide_Wide_doctest)
    as (c1 & c2 & Hchildren & _ & Hc2).
  injection Hchildren as _ <-.
  destruct Hc2 as (rows & cols & sign & kc & kr & Hcols & _ & _ & _ & _
                   & Hck & _).
  assert (Hown : keys_of R12_Wide_Wide
                   (CMRmatroiddecColumnsParent R12_Wide_Wide_C2)
                   (seq 0 (CMRmatroiddecNumColumns R12_Wide_Wide_C2))
                 = Ok [simple "b"; simple "d"; simple "4"; simple "e";
                       simple "f"]).
  { vm_cast_no_check
      (eq_refl (Ok [simple "b"; simple "d"; simple "4"; simple "e";
                    (simple "f" : ElementKey string)])). }
  rewrite Hown in Hcols. injection Hcols as <-.
  cbn [_column_keys] in Hck.
  assert (Hhead : composed 1 "b" 1 "0" = (simple "b" : ElementKey string))
    by congruence.
  apply (f_equal _composition) in Hhead. discriminate Hhead.
Qed.

Lemma Wide_Wide_children_witness :
  exists c1 c2,
    R12_Wide_Wide_children = [Some c1; Some c2]
    /\ child1_Wide_Wide R12_Wide_Wide
         ["0"; "1"; "2"; "3"; "a"; "5"] ["4"; "b"; "c"; "d"; "e"; "f"]
         R12_Wide_Wide_C1 c1
    /\ child2_Wide_Wide R12_Wide_Wide
         ["0"; "1"; "2"; "3"; "a"; "5"] ["4"; "b"; "c"; "d"; "e"; "f"]
         R12_Wide_Wide_C2 c2.
Proof.
  exact (Wide_Wide_children R12_Wide_Wide R12_Wide_Wide_dec
           R12_Wide_Wide_C1 R12_Wide_Wide_C2 _ _ _
           eq_refl eq_refl eq_refl eq_refl eq_refl eq_refl
           R12_Wide_Wide_doctest).
Defined.

(** The sign of the composed key of child 2 when the entry is stored: the
    code looks the entry up in the matrix of child 2 and reads the value at
    the index found from the matrix of child 1, as it does with concentrated
    rank.  With the first row of child 1 negated, the entry of child 2 at
    [(0, 0)] is still [1], and the key is [+b-0]. *)
Lemma Wide_Wide_child2_sign_of_child1 :
  entry_or_0 (CMRmatroiddecGetMatrix R12_Wide_Wide_C2) 0 0 = Ok 1
  /\ keys_of_children (_children negated_Wide_Wide)
     = Ok [(Some [simple "0"; simple "1"; simple "a"; simple "3"],
            Some [simple "b"; simple "c"; simple "d"; simple "e";
                  composed 1 "e" 1 "3"]);
           (Some [simple "0"; simple "2"; simple "3"; simple "5"],
            Some [composed 1 "b" (-1) "0"; simple "d"; simple "4";
                  simple "e"; simple "f"])].
Proof.
  split; [reflexivity|].
  vm_cast_no_check
    (eq_refl (Ok [(Some [simple "0"; simple "1"; simple "a"; simple "3"],
                   Some [simple "b"; simple "c"; simple "d"; simple "e";
                         (composed 1 "e" 1 "3" : ElementKey string)]);
                  (Some [simple "0"; simple "2"; simple "3"; simple "5"],
                   Some [composed 1 "b" (-1) "0"; simple "d"; simple "4";
                         simple "e"; simple "f"])])).
Qed.

Lemma R12_Mixed_Mixed_doctest :
  keys_of_children (_children R12_Mixed_Mixed)
  = Ok [(Some [simple "0"; simple "1"; simple "2"; simple "3"],
         Some [simple "a"; simple "b"; simple "c"; simple "d";
               composed 1 "2" 1 "3"]);
        (Some [composed 1 "a" 1 "b"; simple "2"; simple "3"; simple "4";
               simple "5"],
         Some [simple "a"; simple "d"; simple "e"; simple "f"])].
Proof.
  vm_cast_no_check
    (eq_refl (Ok [(Some [simple "0"; simple "1"; simple "2"; simple "3"],
                   Some [simple "a"; simple "b"; simple "c"; simple "d";
                         (composed 1 "2" 1 "3" : ElementKey string)]);
                  (Some [composed 1 "a" 1 "b"; simple "2"; simple "3";
                         simple "4"; simple "5"],
                   Some [simple "a"; simple "d"; simple "e"; simple "f"])])).
Qed.

(** C2 on this node.  The specification has the first row key of child 2
    composed of the entries of the matrix of child 2 at [(0, 0)] and
    [(0, 1)], which are [1] and [1], with [C[0]] and [C[1]]: the key
    [+a+b].  The code looks the two entries up in the matrix of child 2 and
    reads the values at the indices found from the matrix of child 1: it
    composes the key [-a-b], which is a different key. *)
Theorem Mixed_Mixed_child2_signs_of_child1 :
  entry_or_0 (CMRmatroiddecGetMatrix R12_Mixed_Mixed_C2) 0 0 = Ok 1
  /\ entry_or_0 (CMRmatroiddecGetMatrix R12_Mixed_Mixed_C2) 0 1 = Ok 1
  /\ keys_of_children (_children negated_Mixed_Mixed)
     = Ok [(Some [simple "0"; simple "1"; simple "2"; simple "3"],
            Some [simple "a"; simple "b"; simple "c"; simple "d";
                  composed 1 "2" 1 "3"]);
           (Some [composed (-1) "a" (-1) "b"; simple "2"; simple "3";
                  simple "4"; simple "5"],
            Some [simple "a"; simple "d"; simple "e"; simple "f"])]
  /\ __eq__ (composed (-1) "a" (-1) "b")
            (composed 1 "a" 1 "b" : ElementKey string) = false.
Proof.
  split; [reflexivity|]. split; [reflexivity|]. split.
  - vm_cast_no_check
      (eq_refl (Ok [(Some [simple "0"; simple "1"; simple "2"; simple "3"],
                     Some [simple "a"; simple "b"; simple "c"; simple "d";
                           (composed 1 "2" 1 "3" : ElementKey string)]);
                    (Some [composed (-1) "a" (-1) "b"; simple "2"; simple "3";
                           simple "4"; simple "5"],
                     Some [simple "a"; simple "d"; simple "e";
                           simple "f"])])).
  - vm_compute. reflexivity.
Qed.

(** *** The matrix of a node, on the worked example and in the earlier
    revision *)

Lemma matrix_of_node_witness :
  matrix R12_Wide_Wide = Ok None
  /\ matrix (mkNode GraphicNode (Some R12_Wide_Wide_C1)
                    (Some (Some R12_Wide_Wide_dec)) None None
             : DecompositionNode string)
     = Ok (Some (Matrix.mkMatrix 4 5
                   (chrmat 5 [[0; 0; 1; -1; -1]; [1; 1; 1; 0; 0];
                              [0; 1; 0; 1; 1]; [-1; 0; -1; 0; 1]])
                   (Some (Some R12_Wide_Wide_dec))))
  /\ forall child M,
       In (Some child) R12_Wide_Wide_children ->
       matrix child = Ok (Some M) ->
       Matrix._root M = Some (Some R12_Wide_Wide_dec).
Proof.
  destruct (matrix_of_node R12_Wide_Wide R12_Wide_Wide_dec eq_refl)
    as (Hnone & _ & Hroot).
  destruct (matrix_of_node
              (mkNode GraphicNode (Some R12_Wide_Wide_C1)
                      (Some (Some R12_Wide_Wide_dec)) None None
               : DecompositionNode string)
              R12_Wide_Wide_C1 eq_refl) as (_ & Hsome & _).
  split; [|split].
  - exact (Hnone eq_refl).
  - exact (Hsome _ eq_refl).
  - intros child M Hin HM.
    exact (Hroot _ _ R12_Wide_Wide_doctest Hin M HM).
Defined.

Lemma earlier_matrix_of_node (self : SeymourEarlier.DecompositionNode)
    (d : SeymourEarlier.CMR_DEC) :
  SeymourEarlier._dec self = Some d ->
  SeymourEarlier.matrix self
  = Ok (match SeymourEarlier.CMRdecGetMatrix d with
        | None => None
        | Some mat =>
            Some (Matrix.mkMatrix (numRows mat) (numColumns mat) mat
                                  (Some (SeymourEarlier.root_or_self self)))
        end).
Proof.
  intros Hd. unfold SeymourEarlier.matrix. rewrite Hd. simpl.
  destruct (SeymourEarlier.CMRdecGetMatrix d); reflexivity.
Qed.

(** ** Classification of handles (claim C3) *)

Section Classification.
Context `{DecTypes}.

(** The test for [PlanarNode] sits inside the test for the graphic type
    tag, and asks for the type tag to be the cographic one as well. *)
Lemma _class_no_Planar (dec : CMR_MATROID_DEC) :
  CMR_MATROID_DEC_TYPE_GRAPH <> CMR_MATROID_DEC_TYPE_COGRAPH ->
  _class dec = class_of_named_type (CMRmatroiddecType dec).
Proof.
  intros Hne. unfold _class, class_of_named_type.
  destruct (Z.eqb_spec (CMRmatroiddecType dec) CMR_MATROID_DEC_TYPE_GRAPH);
    destruct (Z.eqb_spec (CMRmatroiddecType dec) CMR_MATROID_DEC_TYPE_COGRAPH);
    try reflexivity.
  congruence.
Qed.

Lemma class_of_named_type_None (typ : Z) :
  class_of_named_type typ = None <-> -1 <= typ /\ typ ∉ named_types.
Proof.
  unfold class_of_named_type, named_types.
  repeat rewrite not_elem_of_cons.
  repeat first
    [ match goal with
      | |- (if ?a =? ?b then _ else _) = None <-> _ =>
          destruct (Z.eqb_spec a b);
          [split; [discriminate|];
           let Hn := fresh in
           intros [_ Hn]; decompose [and] Hn; congruence|]
      end
    | match goal with
      | |- (if ?a <? ?b then _ else _) = None <-> _ =>
          destruct (Z.ltb_spec a b);
          [split; [discriminate|intros [? _]; lia]|]
      end ].
  split; [intros _|reflexivity].
  split; [lia|]. repeat split; try assumption. apply not_elem_of_nil.
Qed.

(** C3 on the current revision.  With the graphic and the cographic type
    tags different, [_class] never answers [PlanarNode]: a handle with the
    graphic type tag is a [GraphicNode] whatever else holds of it.  On a
    type tag that is none of the named ones and not below [-1], [_class]
    raises nothing and returns [None]; no node is made of such a handle,
    because calling [None] raises [TypeError]. *)
Theorem classification_of_handles (dec : CMR_MATROID_DEC) :
  CMR_MATROID_DEC_TYPE_GRAPH <> CMR_MATROID_DEC_TYPE_COGRAPH ->
  _class dec <> Some PlanarNode
  /\ (CMRmatroiddecType dec = CMR_MATROID_DEC_TYPE_GRAPH ->
      CMR_MATROID_DEC_TYPE_GRAPH ∉
        [CMR_MATROID_DEC_TYPE_ONE_SUM; CMR_MATROID_DEC_TYPE_TWO_SUM;
         CMR_MATROID_DEC_TYPE_THREE_SUM] ->
      _class dec = Some GraphicNode)
  /\ (_class dec = None <->
      -1 <= CMRmatroiddecType dec /\ CMRmatroiddecType dec ∉ named_types)
  /\ (_class dec = None ->
      forall root (row_keys column_keys : option (list string)),
        create_DecompositionNode (Some dec) root row_keys column_keys
        = Raise (TypeError "'NoneType' object is not callable")).
Proof.
  intros Hne. rewrite (_class_no_Planar dec Hne).
  split; [|split; [|split]].
  - unfold class_of_named_type.
    repeat match goal with
           | |- (if ?b then _ else _) <> _ => destruct b
           end; discriminate.
  - intros Htyp Hnot. repeat rewrite not_elem_of_cons in Hnot.
    destruct Hnot as (H1 & H2 & H3 & _).
    unfold class_of_named_type. rewrite Htyp.
    apply Z.eqb_neq in H1, H2, H3. rewrite H1, H2, H3, Z.eqb_refl.
    reflexivity.
  - apply class_of_named_type_None.
  - intros Hnone root rk ck.
    apply create_DecompositionNode_unmatched.
    rewrite (_class_no_Planar dec Hne). exact Hnone.
Qed.
End Classification.

Lemma classification_of_handles_witness :
  _class graph_handle = Some GraphicNode
  /\ _class planar_handle = None
  /\ create_DecompositionNode (K := string) (Some planar_handle) None None None
     = Raise (TypeError "'NoneType' object is not callable").
Proof.
  assert (Hne : @CMR_MATROID_DEC_TYPE_GRAPH cmr_matroid_h
                <> @CMR_MATROID_DEC_TYPE_COGRAPH cmr_matroid_h)
    by (simpl; lia).
  destruct (classification_of_handles graph_handle Hne) as (_ & Hgraph & _).
  destruct (classification_of_handles planar_handle Hne)
    as (_ & _ & Hnone & Hraise).
  assert (Hplanar : _class planar_handle = None).
  { apply Hnone. split; [simpl; lia|].
    unfold named_types; simpl. repeat rewrite not_elem_of_cons.
    repeat split; try lia. apply not_elem_of_nil. }
  split; [|split].
  - apply Hgraph; [reflexivity|]. simpl. repeat rewrite not_elem_of_cons.
    repeat split; try lia. apply not_elem_of_nil.
  - exact Hplanar.
  - apply Hraise, Hplanar.
Defined.

(** The earlier revision asks CMR two questions, and answers [PlanarNode]
    when both hold; it answers with a class on every handle. *)
Lemma earlier_class_Planar (dec : SeymourEarlier.CMR_DEC) :
  SeymourEarlier.CMRdecIsSum dec ∉ [1; 2; 3] ->
  SeymourEarlier.CMRdecIsGraphicLeaf dec = true ->
  SeymourEarlier.CMRdecIsCographicLeaf dec = true ->
  SeymourEarlier._class dec = PlanarNode.
Proof.
  intros Hsum Hg Hc. repeat rewrite not_elem_of_cons in Hsum.
  destruct Hsum as (H1 & H2 & H3 & _).
  unfold SeymourEarlier._class. rewrite Hg, Hc.
  apply Z.eqb_neq in H1, H2, H3. rewrite H1, H2, H3. reflexivity.
Qed.

(** ** Order of the children (claim C4) *)

Lemma tuple_of_lookup {A B} (f : A -> result B) (l : list A) (r : list B) :
  tuple_of f l = Ok r ->
  length r = length l
  /\ forall i x, l !! i = Some x -> exists y, r !! i = Some y /\ f x = Ok y.
Proof.
  revert r; induction l as [|x l IH]; intros r Ht; simpl in Ht.
  - injection Ht as <-. split; [reflexivity|]. intros i x Hi. discriminate.
  - split_bind Ht as y Hy. split_bind Ht as ys Hys. injection Ht as <-.
    destruct (IH _ Hys) as [Hlen Hall].
    split; [simpl; congruence|].
    intros [|i] x' Hi; simpl in *; [injection Hi as <-; eauto|eauto].
Qed.

Section EnumerationOrder.
Context `{DecTypes} {K : Type} `{Countable K}.
Implicit Types self : DecompositionNode K.

Lemma _create_child_node_dec self d index child :
  _dec self = Some d ->
  _create_child_node self index = Ok child ->
  exists c child_dec,
    child = Some c
    /\ CMRmatroiddecChildren d !! index = Some child_dec
    /\ _dec c = Some child_dec.
Proof.
  intros Hd Hc. unfold _create_child_node in Hc. rewrite Hd in Hc.
  cbn [deref mbind result_bind] in Hc.
  split_bind Hc as child_dec Hchild.
  assert (Hlookup : CMRmatroiddecChildren d !! index = Some child_dec).
  { unfold CMRmatroiddecChild, array_get in Hchild.
    destruct (nth_error _ _) eqn:E in Hchild; [|discriminate].
    injection Hchild as <-. rewrite <- E. clear.
    revert index; induction (CMRmatroiddecChildren d) as [|x l IH];
      intros [|i]; simpl; auto. }
  destruct (row_keys self), (column_keys self);
    [split_bind Hc as rk Hrk; split_bind Hc as ck Hck| | |];
    apply create_DecompositionNode_Ok in Hc as (cls & _ & ->);
    eexists _, child_dec; (split; [reflexivity|]); split; auto.
Qed.

(** X13.  The children of a node that is not a 3-sum are the nodes made of
    the child handles, as many as there are handles and in the order in
    which CMR numbers them, whether the node has keys or not. *)
Lemma children_in_enumeration_order self d children :
  __class__ self <> ThreeSumNode ->
  _dec self = Some d ->
  _children self = Ok children ->
  length children = length (CMRmatroiddecChildren d)
  /\ forall i child_dec,
       CMRmatroiddecChildren d !! i = Some child_dec ->
       exists c, children !! i = Some (Some c) /\ _dec c = Some child_dec.
Proof.
  intros Hcls Hd Hc.
  assert (Hg : DecompositionNode__children self = Ok children)
    by (unfold _children in Hc; destruct (__class__ self); congruence).
  unfold DecompositionNode__children, nchildren in Hg. rewrite Hd in Hg.
  cbn [deref mbind result_bind] in Hg.
  destruct (tuple_of_lookup _ _ _ Hg) as [Hlen Hall].
  unfold CMRmatroiddecNumChildren in *. rewrite length_seq in Hlen.
  split; [exact Hlen|].
  intros i child_dec Hi.
  destruct (Hall i i) as (child & Hchild & Hmade).
  { apply lookup_seq. split; [reflexivity|]. eapply lookup_lt_Some, Hi. }
  destruct (_create_child_node_dec _ _ _ _ Hd Hmade)
    as (c & child_dec' & -> & Hi' & Hdec).
  exists c. split; [exact Hchild|]. congruence.
Qed.
End EnumerationOrder.

Lemma children_in_enumeration_order_witness :
  exists children c,
    _children two_sum = Ok children
    /\ children !! 1%nat = Some (Some c) /\ _dec c = Some two_sum_second.
Proof.
  pose (children := [unkeyed_child two_sum two_sum_first GraphicNode;
                     unkeyed_child two_sum two_sum_second CographicNode]).
  assert (Hc : _children two_sum = Ok children) by reflexivity.
  assert (Hcls : __class__ two_sum <> ThreeSumNode) by discriminate.
  destruct (children_in_enumeration_order two_sum _ children Hcls eq_refl Hc)
    as [_ Hall].
  destruct (Hall 1%nat two_sum_second eq_refl) as (c & Hi & Hd).
  exists children, c. auto.
Defined.

(** The current revision at the 2-sum of the docstring.  The
    children come back as CMR numbers them: the child with parent rows
    [(4, 5, 6, 7, 0)] before the child with parent rows [(0, 1, 2, 3)],
    although the tuple of the second is smaller than that of the first. *)
Theorem children_not_sorted :
  parents_of_children (_children two_sum)
  = Ok [(Some (inr [4; 5; 6; 7; 0]%nat), Some (inr [0; 1; 2; 3]%nat));
        (Some (inr [0; 1; 2; 3]%nat), Some (inr [0; 4; 5; 6; 7]%nat))]
  /\ tuple_ltb [0; 1; 2; 3]%nat [4; 5; 6; 7; 0]%nat = true.
Proof. split; vm_compute; reflexivity. Qed.

(** C4 as stated fails on that 2-sum: its children are not sorted by their
    parent rows and parent columns. *)
Lemma children_sorted_as_specified_fails :
  ~ children_sorted_as_specified two_sum.
Proof.
  intros Hs.
  assert (Hp : parents_of_children (_children two_sum)
               = Ok [(Some (inr [4; 5; 6; 7; 0]%nat),
                      Some (inr [0; 1; 2; 3]%nat));
                     (Some (inr [0; 1; 2; 3]%nat),
                      Some (inr [0; 4; 5; 6; 7]%nat))])
    by (vm_compute; reflexivity).
  assert (Hcls : __class__ two_sum <> ThreeSumNode) by discriminate.
  specialize (Hs Hcls _ Hp).
  cbn [map sort_key_of index_tuple_of fst snd] in Hs.
  apply Sorted_inv in Hs as [_ Hhd]. apply HdRel_inv in Hhd.
  unfold not_after in Hhd. vm_compute in Hhd. discriminate Hhd.
Qed.

Section HandleOrder.
Context `{DecTypes} {K : Type} `{Countable K}.
Implicit Types self : DecompositionNode K.

Lemma DecompositionNode__children_dec self d children :
  _dec self = Some d ->
  DecompositionNode__children self = Ok children ->
  length children = length (CMRmatroiddecChildren d)
  /\ forall i child_dec,
       CMRmatroiddecChildren d !! i = Some child_dec ->
       exists c, children !! i = Some (Some c) /\ _dec c = Some child_dec.
Proof.
  intros Hd Hg.
  unfold DecompositionNode__children, nchildren in Hg. rewrite Hd in Hg.
  cbn [deref mbind result_bind] in Hg.
  destruct (tuple_of_lookup _ _ _ Hg) as [Hlen Hall].
  unfold CMRmatroiddecNumChildren in *. rewrite length_seq in Hlen.
  split; [exact Hlen|].
  intros i child_dec Hi.
  destruct (Hall i i) as (child & Hchild & Hmade).
  { apply lookup_seq. split; [reflexivity|]. eapply lookup_lt_Some, Hi. }
  destruct (_create_child_node_dec _ _ _ _ Hd Hmade)
    as (c & child_dec' & -> & Hi' & Hdec).
  exists c. split; [exact Hchild|]. congruence.
Qed.

Lemma ThreeSumNode__children_dec self d children :
  _dec self = Some d ->
  ThreeSumNode__children self = Ok children ->
  exists d1 d2 c1 c2,
    CMRmatroiddecChildren d = [d1; d2]
    /\ children = [Some c1; Some c2]
    /\ _dec c1 = Some d1 /\ _dec c2 = Some d2.
Proof.
  intros Hd Hc.
  unfold ThreeSumNode__children, nchildren, CMRmatroiddecNumChildren,
    CMRmatroiddecChild in Hc.
  rewrite Hd in Hc. cbn [deref mbind result_bind] in Hc.
  destruct (CMRmatroiddecChildren d) as [|d1 [|d2 [|d3 l]]];
    try discriminate Hc.
  cbn [length Nat.eqb negb array_get nth_error mbind result_bind] in Hc.
  exists d1, d2.
  destruct (row_keys self), (column_keys self).
  2-4: split_bind Hc as child1 H1; split_bind Hc as child2 H2;
       injection Hc as <-;
       apply create_DecompositionNode_Ok in H1 as (? & _ & ->);
       apply create_DecompositionNode_Ok in H2 as (? & _ & ->);
       eexists _, _; repeat split.
  split_bind Hc as concentrated Hcr.
  split_bind Hc as p1 Hp1. destruct p1 as [rk1 ck1].
  split_bind Hc as child1 H1.
  split_bind Hc as concentrated' Hcr'.
  split_bind Hc as p2 Hp2. destruct p2 as [rk2 ck2].
  split_bind Hc as child2 H2. injection Hc as <-.
  apply create_DecompositionNode_Ok in H1 as (? & _ & ->).
  apply create_DecompositionNode_Ok in H2 as (? & _ & ->).
  eexists _, _. repeat split.
Qed.

(** C4, amended.  For every node, a 3-sum or not, the enumeration of the
    children, when it returns, returns as many children as the handle of
    the node has child handles, and the child in position [i] is the node
    made of child handle [i]: the children come in the order in which CMR
    numbers them and are not sorted by their parent rows and columns.  The
    two children of a 3-sum are its first and its second child handle, in
    this order. *)
Theorem children_in_handle_order self d children :
  _dec self = Some d ->
  _children self = Ok children ->
  length children = length (CMRmatroiddecChildren d)
  /\ forall i child_dec,
       CMRmatroiddecChildren d !! i = Some child_dec ->
       exists c, children !! i = Some (Some c) /\ _dec c = Some child_dec.
Proof.
  intros Hd Hc. unfold _children in Hc.
  destruct (__class__ self) eqn:Hcls;
    try exact (DecompositionNode__children_dec self d children Hd Hc).
  destruct (ThreeSumNode__children_dec self d children Hd Hc)
    as (d1 & d2 & c1 & c2 & -> & -> & Hd1 & Hd2).
  split; [reflexivity|].
  intros [|[|i]] child_dec Hi; simpl in Hi; try discriminate Hi;
    injection Hi as <-; eexists; (split; [reflexivity|]); assumption.
Qed.
End HandleOrder.

Lemma children_in_handle_order_witness :
  (exists c, R12_Wide_Wide_children !! 1%nat = Some (Some c)
             /\ _dec c = Some R12_Wide_Wide_C2)
  /\ (exists children c,
        _children two_sum = Ok children
        /\ children !! 0%nat = Some (Some c)
        /\ _dec c = Some two_sum_first).
Proof.
  split.
  - destruct (children_in_handle_order R12_Wide_Wide _ _ eq_refl
                R12_Wide_Wide_doctest) as [_ Hall].
    exact (Hall 1%nat R12_Wide_Wide_C2 eq_refl).
  - pose (children := [unkeyed_child two_sum two_sum_first GraphicNode;
                       unkeyed_child two_sum two_sum_second CographicNode]).
    assert (Hc : _children two_sum = Ok children) by reflexivity.
    destruct (children_in_handle_order two_sum _ children eq_refl Hc)
      as [_ Hall].
    destruct (Hall 0%nat two_sum_first eq_refl) as (c & Hi & Hd).
    exists children, c. auto.
Defined.

Lemma earlier_children_sorted_example :
  (children ← SeymourEarlier._children earlier_two_sum;
   tuple_of (fun child => c ← deref child;
                          SeymourEarlier.parent_rows_and_columns c) children)
  = Ok [(Some [0; 1; 2; 3]%nat, Some [0; 4; 5; 6; 7]%nat);
        (Some [4; 5; 6; 7; 0]%nat, Some [0; 1; 2; 3]%nat)].
Proof. vm_compute. reflexivity. Qed.

(** *** The earlier revision sorts *)

Section EarlierSorted.
Import SeymourEarlier.

Lemma tuple_ltb_asym (x y : list nat) :
  tuple_ltb x y = true -> tuple_ltb y x = false.
Proof.
  revert y; induction x as [|a x IH]; intros [|b y]; simpl;
    try reflexivity; try discriminate.
  destruct (Nat.ltb_spec a b), (Nat.ltb_spec b a);
    try reflexivity; try discriminate; try lia.
  apply IH.
Qed.

Lemma key_lt_asym (x y : sort_key) :
  key_lt x y = Ok true -> key_lt y x = Ok false.
Proof.
  unfold key_lt, index_tuple_lt.
  destruct x as [x1 x2], y as [y1 y2]; simpl.
  repeat case_bool_decide; subst; try discriminate; try congruence.
  - destruct x2, y2; try discriminate.
    intros [= E]. f_equal. apply tuple_ltb_asym, E.
  - destruct x1, y1; try discriminate.
    intros [= E]. f_equal. apply tuple_ltb_asym, E.
Qed.

Lemma insert_sorted_Sorted {A} (x : sort_key * A) l r :
  Sorted not_after l.*1 ->
  insert_sorted x l = Ok r ->
  Sorted not_after r.*1
  /\ (forall z, In z r -> z = x \/ In z l)
  /\ (forall y, HdRel not_after y l.*1 -> key_lt x.1 y = Ok false ->
                HdRel not_after y r.*1).
Proof.
  revert r; induction l as [|y l IH]; intros r Hs Hi; simpl in Hi.
  - injection Hi as <-. simpl. repeat split.
    + repeat constructor.
    + intros z [<-|[]]; auto.
    + intros. constructor. assumption.
  - split_bind Hi as b Hb. destruct b.
    + injection Hi as <-. simpl. repeat split.
      * constructor; [exact Hs|]. constructor.
        apply key_lt_asym, Hb.
      * intros z [<-|Hz]; auto.
      * intros. constructor. assumption.
    + split_bind Hi as r' Hr'. injection Hi as <-.
      simpl in Hs. apply Sorted_inv in Hs as [Hs Hhd].
      destruct (IH _ Hs Hr') as (Hsorted & Hin & Hrel).
      simpl. repeat split.
      * constructor; [exact Hsorted|]. apply Hrel; [exact Hhd|exact Hb].
      * intros z [<-|Hz]; [right; left; reflexivity|].
        destruct (Hin z Hz); [left|right; right]; assumption.
      * intros y' Hy' _. apply HdRel_inv in Hy'. constructor. exact Hy'.
Qed.

Lemma sort_keyed_Sorted {A} (sorted_prefix unsorted r : list (sort_key * A)) :
  Sorted not_after sorted_prefix.*1 ->
  sort_keyed sorted_prefix unsorted = Ok r ->
  Sorted not_after r.*1
  /\ forall z, In z r -> In z sorted_prefix \/ In z unsorted.
Proof.
  revert sorted_prefix r; induction unsorted as [|x unsorted IH];
    intros acc r Hs Hr; simpl in Hr.
  - injection Hr as <-. auto.
  - split_bind Hr as acc' Hacc.
    destruct (insert_sorted_Sorted _ _ _ Hs Hacc) as (Hs' & Hin & _).
    destruct (IH _ _ Hs' Hr) as [Hsorted Hin'].
    split; [exact Hsorted|].
    intros z Hz. destruct (Hin' z Hz) as [Hz'|Hz']; [|right; right; exact Hz'].
    destruct (Hin z Hz') as [->|]; [right; left; reflexivity|left; assumption].
Qed.

(** The children the earlier revision returns are ordered by their
    [parent_rows_and_columns()]: no child's tuple is smaller than the
    tuple of the child before it. *)
Lemma earlier_children_sorted (self : DecompositionNode) children :
  _children self = Ok children ->
  exists keyed,
    children = keyed.*2
    /\ Forall (fun kc => with_key kc.2 = Ok kc) keyed
    /\ Sorted not_after keyed.*1.
Proof.
  unfold _children. intros Hc.
  split_bind Hc as d Hd. split_bind Hc as nodes Hnodes.
  split_bind Hc as keyed Hkeyed. split_bind Hc as sorted Hsorted.
  injection Hc as <-.
  destruct (sort_keyed_Sorted [] keyed sorted) as [Hs Hin];
    [constructor|exact Hsorted|].
  exists sorted. split; [reflexivity|]. split; [|exact Hs].
  apply Forall_forall. intros kc Hkc.
  apply list_elem_of_In in Hkc.
  destruct (Hin kc Hkc) as [[]|Hk].
  clear - Hkeyed Hk. revert keyed Hkeyed Hk.
  induction nodes as [|n nodes IH]; intros keyed Hkeyed Hk; simpl in Hkeyed.
  - injection Hkeyed as <-. destruct Hk.
  - split_bind Hkeyed as k Hkn. split_bind Hkeyed as ks Hks.
    injection Hkeyed as <-.
    destruct Hk as [<-|Hk]; [|eauto].
    unfold with_key in Hkn |- *. destruct n as [n|]; [|discriminate].
    split_bind Hkn as key Hkey. injection Hkn as <-. simpl.
    rewrite Hkey. reflexivity.
Qed.
End EarlierSorted.

Import MatrixCmrSparse.

(** ** Construction of a matrix from a dictionary (claim C8) *)

Section InitFromDict.
Variables nrows ncols : nat.

Lemma array_get_lookup {A} (a : list A) i x :
  a !! i = Some x -> array_get a i = Ok x.
Proof.
  unfold array_get. revert i; induction a as [|y a IH]; intros [|i] Hi;
    simpl in *; try discriminate; [injection Hi as ->; reflexivity|auto].
Qed.

Lemma array_set_lt {A} (a : list A) i v :
  (i < length a)%nat -> array_set a i v = Ok (<[i := v]> a).
Proof.
  intros Hi. unfold array_set.
  destruct (Nat.ltb_spec i (length a)); [reflexivity|lia].
Qed.

(** *** Setting the row slices to zero *)
Lemma zero_slices (k : nat) (rs : list nat) :
  (k <= length rs)%nat ->
  exists rs', for_each (fun rs row => array_set rs row 0%nat) (seq 0 k) rs = Ok rs'
    /\ length rs' = length rs
    /\ (forall i, (i < k)%nat -> rs' !! i = Some 0%nat)
    /\ (forall i, (k <= i)%nat -> rs' !! i = rs !! i).
Proof.
  induction k as [|k IH]; intros Hk.
  - exists rs. simpl. repeat split; auto. intros; lia.
  - destruct IH as (rs' & Hrs' & Hlen & Hz & Hsame); [lia|].
    exists (<[k := 0%nat]> rs').
    rewrite seq_S, for_each_app, Hrs'. simpl.
    rewrite array_set_lt by lia. simpl.
    rewrite length_insert. repeat split; auto.
    + intros i Hi. destruct (decide (i = k)) as [->|].
      * apply list_lookup_insert_eq. lia.
      * rewrite list_lookup_insert_ne by auto. apply Hz. lia.
    + intros i Hi. rewrite list_lookup_insert_ne by lia. apply Hsame. lia.
Qed.

(** *** Counting *)
Lemma count_slices (d : dict_items) (rs : list nat) :
  valid_coordinates nrows ncols d -> length rs = S nrows ->
  exists rs', for_each count_step d rs = Ok rs'
    /\ length rs' = S nrows
    /\ rs' !! 0%nat = rs !! 0%nat
    /\ (forall i v, rs !! S i = Some v -> rs' !! S i = Some (v + count_row d i)%nat).
Proof.
  intros Hv; revert rs; induction Hv as [|[[row col] coeff] d [Hrow Hcol] Hv IH];
    intros rs Hlen.
  - exists rs. simpl. repeat split; auto. intros i v ->. f_equal. lia.
  - simpl in Hrow, Hcol. simpl. 
    destruct (Z.eqb_spec coeff 0) as [->|Hnz]; simpl.
    + destruct (IH rs Hlen) as (rs' & -> & ? & ? & Hc). exists rs'.
      repeat split; auto.
    + unfold array_getZ, array_setZ.
      destruct (Z.leb_spec 0 (row + 1)); [|lia].
      replace (Z.to_nat (row + 1)) with (S (Z.to_nat row)) by lia.
      destruct (lookup_lt_is_Some_2 rs (S (Z.to_nat row))) as [v Hvr]; [lia|].
      rewrite (array_get_lookup _ _ _ Hvr). simpl.
      rewrite array_set_lt by lia. simpl.
      destruct (IH (<[S (Z.to_nat row) := (v + 1)%nat]> rs)) as (rs' & -> & ? & H0 & Hc).
      { rewrite length_insert. exact Hlen. }
      exists rs'. repeat split; auto.
      * rewrite H0. apply list_lookup_insert_ne. lia.
      * intros i w Hw.
        destruct (Z.eqb_spec row (Z.of_nat i)) as [->|Hne]; simpl.
        -- rewrite Nat2Z.id in *. rewrite Hvr in Hw. injection Hw as <-.
           rewrite (Hc i (v + 1)%nat); [f_equal; lia|].
           apply list_lookup_insert_eq. lia.
        -- rewrite (Hc i w); [f_equal|].
           rewrite list_lookup_insert_ne by lia. exact Hw.
Qed.

(** *** Accumulating *)

Lemma count_before_S (d : dict_items) (k : nat) :
  count_before d (S k) = (count_before d k + count_row d k)%nat.
Proof.
  induction d as [|[[row col] coeff] d IH]; simpl; [reflexivity|].
  rewrite IH.
  destruct (negb (coeff =? 0)); simpl; [|lia].
  destruct (Z.ltb_spec row (Z.of_nat (S k))), (Z.ltb_spec row (Z.of_nat k)),
    (Z.eqb_spec row (Z.of_nat k)); lia.
Qed.

Lemma count_before_0 (d : dict_items) :
  valid_coordinates nrows ncols d -> count_before d 0 = 0%nat.
Proof.
  induction 1 as [|[[row col] coeff] d [Hrow _] _ IH]; simpl in *;
    [reflexivity|].
  rewrite IH. change (Z.of_nat 0) with 0.
  destruct (Z.ltb_spec row 0); [lia|].
  destruct (negb (coeff =? 0)); reflexivity.
Qed.

Lemma count_before_le (d : dict_items) (k : nat) :
  (count_before d k <= length d)%nat.
Proof.
  induction d as [|item d IH]; simpl; [lia|].
  destruct (_ && _); lia.
Qed.

Lemma accumulate_slices (d : dict_items) (rs : list nat) (k : nat) :
  valid_coordinates nrows ncols d -> length rs = S nrows -> (k <= nrows)%nat ->
  rs !! 0%nat = Some 0%nat ->
  (forall i, (S i < nrows)%nat -> rs !! S i = Some (count_row d i)) ->
  exists rs', for_each accumulate_step (seq 0 k) rs = Ok rs'
    /\ length rs' = S nrows
    /\ (forall i, (i <= k)%nat -> (i < nrows)%nat ->
                  rs' !! i = Some (count_before d i))
    /\ (forall i, (k < i)%nat -> rs' !! i = rs !! i).
Proof.
  intros Hv Hlen Hk H0 Hcount. induction k as [|k IH].
  - exists rs. simpl. repeat split; auto.
    intros i Hi _. replace i with 0%nat by lia.
    rewrite count_before_0 by assumption. exact H0.
  - destruct IH as (rs' & Hrs' & Hlen' & Hacc & Hsame); [lia|].
    destruct (lookup_lt_is_Some_2 rs' (S k)) as [a Ha]; [lia|].
    exists (<[S k := (a + count_before d k)%nat]> rs').
    rewrite seq_S, for_each_app, Hrs'. simpl. unfold accumulate_step.
    rewrite (array_get_lookup _ _ _ Ha). simpl.
    rewrite (array_get_lookup _ _ _ (Hacc k ltac:(lia) ltac:(lia))). simpl.
    rewrite array_set_lt by lia. simpl.
    rewrite length_insert. repeat split; auto.
    + intros i Hi Hin. destruct (decide (i = S k)) as [->|Hne].
      * rewrite list_lookup_insert_eq by lia.
        rewrite Hsame in Ha by lia. rewrite Hcount in Ha by lia.
        injection Ha as <-. rewrite count_before_S. f_equal. lia.
      * rewrite list_lookup_insert_ne by auto. apply Hacc; lia.
    + intros i Hi. rewrite list_lookup_insert_ne by lia. apply Hsame. lia.
Qed.

(** *** Filling *)

Lemma as_char_fits v : fits_char v -> as_char v = Ok v.
Proof.
  unfold fits_char, as_char. intros Hv.
  destruct (Z.leb_spec (-128) v), (Z.leb_spec v 127); simpl;
    [reflexivity|lia|lia|lia].
Qed.

Lemma as_char_overflow v : ~ fits_char v -> as_char v = Raise overflow.
Proof.
  unfold fits_char, as_char. intros Hv.
  destruct (Z.leb_spec (-128) v), (Z.leb_spec v 127); simpl;
    [lia|reflexivity|reflexivity|reflexivity].
Qed.

Lemma fill_slices (N : nat) (d : dict_items) :
  valid_coordinates nrows ncols d ->
  forall rs ec ev,
    length rs = S nrows -> length ec = N -> length (ev : list Z) = N ->
    (forall r, (r < nrows)%nat ->
               exists v, rs !! r = Some v /\ (v + count_row d r <= N)%nat) ->
    (Forall (fun item => fits_char item.2) d ->
     exists rs' ec' ev', for_each fill_step d (rs, ec, ev) = Ok (rs', ec', ev')
                         /\ length rs' = S nrows)
    /\ (Exists (fun item => ~ fits_char item.2) d ->
        for_each fill_step d (rs, ec, ev) = Raise overflow).
Proof.
  induction 1 as [|[[row col] coeff] d [Hrow Hcol] Hv IH];
    intros rs ec ev Hrs Hec Hev Hinv.
  - split.
    + intros _. exists rs, ec, ev. auto.
    + intros He. inversion He.
  - simpl in Hrow, Hcol. cbn [for_each fill_step].
    destruct (Z.eqb_spec coeff 0) as [->|Hnz].
    + cbn [mbind result_bind].
      destruct (IH rs ec ev Hrs Hec Hev) as [IHok IHbad].
      { intros r Hr. destruct (Hinv r Hr) as (v & ? & Hle).
        exists v. split; [assumption|]. simpl in Hle. lia. }
      split.
      * intros Hall. apply Forall_cons in Hall as [_ Hall]. auto.
      * intros He. apply Exists_cons in He as [Hbad|He]; [|auto].
        exfalso. apply Hbad. unfold fits_char. simpl. lia.
    + destruct (Hinv (Z.to_nat row)) as (index & Hindex & Hle); [lia|].
      assert (Hlt : (index < N)%nat).
      { simpl in Hle. rewrite Z2Nat.id in Hle by lia.
        rewrite Z.eqb_refl in Hle.
        destruct (Z.eqb_spec coeff 0); [contradiction|]. simpl in Hle. lia. }
      unfold array_getZ, array_setZ, as_size_t.
      destruct (Z.leb_spec 0 row); [|lia].
      destruct (Z.ltb_spec col 0); [lia|].
      rewrite (array_get_lookup _ _ _ Hindex). cbn [mbind result_bind].
      rewrite (array_set_lt ec) by lia. cbn [mbind result_bind].
      assert (Hdec : fits_char coeff \/ ~ fits_char coeff)
        by (unfold fits_char; lia).
      destruct Hdec as [Hfit|Hbad].
      * rewrite (as_char_fits _ Hfit). cbn [mbind result_bind].
        rewrite (array_set_lt ev) by lia. cbn [mbind result_bind].
        rewrite (array_set_lt rs) by lia. cbn [mbind result_bind].
        destruct (IH (<[Z.to_nat row := (index + 1)%nat]> rs)
                     (<[index := Z.to_nat col]> ec)
                     (<[index := coeff]> ev)) as [IHok IHbad];
          try (rewrite length_insert; assumption).
        { intros r Hr. destruct (decide (r = Z.to_nat row)) as [->|Hne].
          - exists (index + 1)%nat.
            rewrite list_lookup_insert_eq by lia. split; [reflexivity|].
            simpl in Hle. rewrite Z2Nat.id in Hle by lia.
            rewrite Z.eqb_refl in Hle.
            destruct (Z.eqb_spec coeff 0); [contradiction|]. simpl in Hle.
            lia.
          - destruct (Hinv r Hr) as (v & Hv' & Hle').
            exists v. rewrite list_lookup_insert_ne by auto.
            split; [assumption|]. simpl in Hle'.
            destruct (Z.eqb_spec row (Z.of_nat r)); [lia|].
            rewrite andb_false_r in Hle'. simpl in Hle'. lia. }
        split.
        -- intros Hall. apply Forall_cons in Hall as [_ Hall]. auto.
        -- intros He. apply Exists_cons in He as [Hbad|He]; [|auto].
           contradiction.
      * rewrite (as_char_overflow _ Hbad). cbn [mbind result_bind].
        split; [|reflexivity].
        intros Hall. apply Forall_cons in Hall as [Hfit _]. contradiction.
Qed.

(** *** Shifting *)

Lemma shift_slices (rows : list nat) (rs : list nat) :
  Forall (fun row => (S row < length rs)%nat) rows ->
  exists rs', for_each shift_step rows rs = Ok rs' /\ length rs' = length rs.
Proof.
  revert rs; induction rows as [|row rows IH]; intros rs Hrows.
  - exists rs. auto.
  - apply Forall_cons in Hrows as [Hrow Hrows].
    destruct (lookup_lt_is_Some_2 rs row) as [v Hv]; [lia|].
    assert (Hstep : shift_step rs row = Ok (<[S row := v]> rs)).
    { unfold shift_step. rewrite (array_get_lookup _ _ _ Hv).
      cbn [mbind result_bind]. apply array_set_lt. lia. }
    cbn [for_each]. rewrite Hstep. cbn [mbind result_bind].
    destruct (IH (<[S row := v]> rs)) as (rs' & -> & Hlen).
    { rewrite length_insert. exact Hrows. }
    exists rs'. rewrite length_insert in Hlen. auto.
Qed.

(** C8.  Let the coordinates of the items of [d] lie in the matrix of
    [nrows] rows and [ncols] columns.  If some value of [d] does not fit a
    signed byte, [_init_from_dict] raises [OverflowError]; no matrix is
    made, so that no value is stored truncated.  If all values fit, it
    returns a matrix.  What the allocated arrays contained makes no
    difference. *)
Theorem init_from_dict_char_range (garbage : nat -> nat) (d : dict_items) :
  valid_coordinates nrows ncols d ->
  (Exists (fun item => ~ fits_char item.2) d ->
   _init_from_dict garbage d nrows ncols
   = Raise (OverflowError "value too large to convert to char"))
  /\ (Forall (fun item => fits_char item.2) d ->
      exists mat, _init_from_dict garbage d nrows ncols = Ok mat).
Proof.
  intros Hv. unfold _init_from_dict.
  cbn [CMRchrmatCreate rowSlice entryColumns entryValues].
  destruct (Nat.eq_dec nrows 0%nat) as [Hrows0|Hrows].
  { (* a matrix without rows has no items *)
    assert (d = []) as ->.
    { destruct Hv as [|[[row col] coeff] d' [Hrow _] _]; [reflexivity|].
      simpl in Hrow. lia. }
    rewrite Hrows0. split; [intros He; inversion He|].
    intros _. eexists. reflexivity. }
  set (rs0 := map garbage (seq 0 (S nrows))).
  assert (Hlen0 : length rs0 = S nrows)
    by (unfold rs0; rewrite length_map, length_seq; reflexivity).
  destruct (zero_slices nrows rs0) as (rs1 & -> & Hlen1 & Hzero & _); [lia|].
  cbn [mbind result_bind]. rewrite Hlen0 in Hlen1.
  destruct (count_slices d rs1 Hv Hlen1) as (rs2 & -> & Hlen2 & H0 & Hcount).
  cbn [mbind result_bind].
  destruct (accumulate_slices d rs2 nrows Hv Hlen2)
    as (rs3 & -> & Hlen3 & Hacc & _).
  { lia. }
  { rewrite H0. apply Hzero. lia. }
  { intros i Hi. rewrite (Hcount i 0%nat); [reflexivity|]. apply Hzero. lia. }
  cbn [mbind result_bind].
  destruct (fill_slices (length d) d Hv rs3
              (map garbage (seq 0 (length d)))
              (map (fun i => Z.of_nat (garbage i)) (seq 0 (length d))))
    as [Hok Hbad].
  { exact Hlen3. }
  { rewrite length_map, length_seq. reflexivity. }
  { rewrite length_map, length_seq. reflexivity. }
  { intros r Hr. exists (count_before d r).
    split; [apply Hacc; lia|].
    rewrite <- count_before_S. apply count_before_le. }
  split.
  - intros He. rewrite (Hbad He). reflexivity.
  - intros Hall. destruct (Hok Hall) as (rs4 & ec & ev & -> & Hlen4).
    cbn [mbind result_bind].
    destruct (shift_slices (rev (seq 0 nrows)) rs4) as (rs5 & -> & Hlen5).
    { apply List.Forall_forall. intros row Hin.
      apply in_rev, in_seq in Hin. lia. }
    cbn [mbind result_bind].
    rewrite array_set_lt by lia. cbn [mbind result_bind].
    eexists. reflexivity.
Qed.
End InitFromDict.

(** The two matrices of the docstring of [Matrix_cmr_chr_sparse]:
    [[126, 127, 128]] does not fit, [[-128, 0, 127]] does. *)
Lemma init_from_dict_char_range_witness :
  _init_from_dict (fun _ => 0%nat)
    [((0, 0), 126); ((0, 1), 127); ((0, 2), 128)] 1 3
  = Raise (OverflowError "value too large to convert to char")
  /\ exists mat,
       _init_from_dict (fun _ => 0%nat) [((0, 0), -128); ((0, 2), 127)] 1 3
       = Ok mat.
Proof.
  split.
  - apply (init_from_dict_char_range 1 3).
    + repeat constructor; simpl; lia.
    + do 2 apply Exists_cons_tl. apply Exists_cons_hd.
      unfold fits_char. simpl. lia.
  - apply (init_from_dict_char_range 1 3).
    + repeat constructor; simpl; lia.
    + repeat constructor; simpl; lia.
Defined.

Example init_from_dict_docstring :
  _init_from_dict (fun _ => 0%nat) [((0, 0), -128); ((0, 2), 127)] 1 3
  = Ok (mkCHRMAT 1 3 2 [0; 2]%nat [0; 2]%nat [-128; 127]).
Proof. reflexivity. Qed.

(** ** The time limit of the graphicness test (claim C9) *)

Section TimeLimit.
Context {time : Type}.
Variable CMRtestGraphicMatrix : CMR_CHRMAT -> bool -> time -> CMR_ERROR * bool.

(** C9.  When CMR reports that the time limit was exceeded, [is_graphic]
    raises [RuntimeError: Time limit exceeded], and so does not return
    [False]; and when [is_graphic] returns [False], CMR has completed the
    test and answered that the matrix is not graphic. *)
Theorem time_limit_exceeded_is_not_False (mat : CMR_CHRMAT)
    (time_limit : time) (certificate : bool) :
  ((CMRtestGraphicMatrix mat certificate time_limit).1 = CMR_ERROR_TIMEOUT ->
   is_graphic CMRtestGraphicMatrix mat time_limit certificate
   = Raise (RuntimeError "Time limit exceeded")
   /\ is_graphic CMRtestGraphicMatrix mat time_limit certificate <> Ok false)
  /\ (is_graphic CMRtestGraphicMatrix mat time_limit certificate = Ok false ->
      certificate = false
      /\ CMRtestGraphicMatrix mat false time_limit = (CMR_OKAY, false)).
Proof.
  unfold is_graphic.
  destruct (CMRtestGraphicMatrix mat certificate time_limit)
    as [error result] eqn:Htest.
  split.
  - simpl. intros ->. simpl. split; [reflexivity|discriminate].
  - destruct error; simpl; try discriminate.
    destruct certificate; [discriminate|].
    intros [= ->]. split; [reflexivity|exact Htest].
Qed.
End TimeLimit.

Lemma time_limit_exceeded_is_not_False_witness :
  is_graphic gives_up_at_0 (mkCHRMAT 3 2 4 [0; 1; 3; 4]%nat [0; 0; 1; 1]%nat
                                     [1; -1; 1; -1]) 0 false
  = Raise (RuntimeError "Time limit exceeded")
  /\ is_graphic gives_up_at_0 (mkCHRMAT 3 2 4 [0; 1; 3; 4]%nat [0; 0; 1; 1]%nat
                                        [1; -1; 1; -1]) 0 false
     <> Ok false.
Proof.
  apply (time_limit_exceeded_is_not_False gives_up_at_0). reflexivity.
Defined.

(** ** The permutation normal form (claim C6) *)

Import Palp.

(** The examples of the docstring of [_palp_PM_max]: the pairing matrix of
    [ReflexivePolytope(2, 0)] has the normal form [diag(3, 3, 3)], which
    six pairs of permutations give; the pairing matrix of the cross
    polytope of dimension 2 has the normal form that is its lexicographic
    maximum. *)
Example PM_max_of_P2 :
  (fun r => (r.1, size r.2)) <$>
    _palp_PM_max_check [[0; 0; 3]; [3; 0; 0]; [0; 3; 0]]
  = Ok ([[3; 0; 0]; [0; 3; 0]; [0; 0; 3]], 6%nat).
Proof. vm_compute. reflexivity. Qed.

Example PM_max_of_cross_polytope :
  _palp_PM_max [[0; 2; 2; 0]; [0; 0; 2; 2]; [2; 0; 0; 2]; [2; 2; 0; 0]]
  = Ok [[2; 2; 0; 0]; [2; 0; 2; 0]; [0; 2; 0; 2]; [0; 0; 2; 2]].
Proof. vm_compute. reflexivity. Qed.

(** C6 at the pairing matrix of the quadrilateral.  The first row of the
    matrix holds its largest entry, and the loop that arranges the first
    row looks for the maxima in the row as it was given rather than as
    permuted so far: the result starts with [(4, 0, 1, 0)].  Computing the
    normal form of the result gives another matrix, which is larger; and
    the reordered matrix, which is obtained by permuting rows and columns,
    has that other matrix as its normal form. *)
Theorem PM_max_not_canonical :
  _palp_PM_max quadrilateral_PM = Ok quadrilateral_PM_max
  /\ _palp_PM_max quadrilateral_PM_max = Ok quadrilateral_maximum
  /\ quadrilateral_PM_max <> quadrilateral_maximum
  /\ matrix_ltb quadrilateral_PM_max quadrilateral_maximum = true
  /\ with_permuted_rows_and_columns quadrilateral_PM [4; 3; 1; 2] [2; 4; 3; 1]
     = Ok quadrilateral_PM_reordered
  /\ _palp_PM_max quadrilateral_PM_reordered = Ok quadrilateral_maximum.
Proof.
  repeat split; try (vm_compute; reflexivity). discriminate.
Qed.

(** The first row alone shows it: on a matrix with one row the function
    only runs the loop for the first row. *)
Example PM_max_of_one_row :
  _palp_PM_max [[1; 3; 2]] = Ok [[3; 1; 2]]
  /\ _palp_PM_max [[3; 1; 2]] = Ok [[3; 2; 1]].
Proof. split; vm_compute; reflexivity. Qed.

(** A matrix for which the first row is arranged as it should be: the
    candidates that agree on all rows but the last are not compared on the
    last row. *)
Example PM_max_last_row :
  _palp_PM_max [[0; 0; 1]; [0; 1; 1]; [1; 1; 0]]
  = Ok [[1; 1; 0]; [1; 0; 1]; [0; 0; 1]]
  /\ _palp_PM_max [[1; 1; 0]; [1; 0; 1]; [0; 0; 1]]
     = Ok [[1; 1; 0]; [1; 0; 1]; [0; 1; 0]].
Proof. split; vm_compute; reflexivity. Qed.

(** ** Equality of element keys, case by case *)

Section ElementKeyCases.
Context {label : Type} `{Countable label}.

Lemma pair_set_eq {A} `{Countable A} (a b c d : A) :
  ({[a; b]} : gset A) = {[c; d]} <-> (a = c /\ b = d) \/ (a = d /\ b = c).
Proof.
  split.
  - intros E.
    assert (Ha : a ∈ ({[c; d]} : gset A))
      by (rewrite <- E; apply elem_of_union_l, elem_of_singleton; reflexivity).
    assert (Hb : b ∈ ({[c; d]} : gset A))
      by (rewrite <- E; apply elem_of_union_r, elem_of_singleton; reflexivity).
    assert (Hc : c ∈ ({[a; b]} : gset A))
      by (rewrite E; apply elem_of_union_l, elem_of_singleton; reflexivity).
    assert (Hd : d ∈ ({[a; b]} : gset A))
      by (rewrite E; apply elem_of_union_r, elem_of_singleton; reflexivity).
    rewrite elem_of_union, !elem_of_singleton in Ha, Hb, Hc, Hd.
    destruct Ha, Hb, Hc, Hd; subst; auto.
  - intros [[-> ->]|[-> ->]]; [reflexivity|]. apply (comm_L (∪)).
Qed.

(** X1.  Two keys made of one label each are equal exactly when the labels
    are.  Two keys made of two signed labels each are equal exactly when
    they have the same two signed labels, in the same or in the other
    order. *)
Theorem element_key_eq_cases :
  (forall a b : label, __eq__ (simple a) (simple b) = bool_decide (a = b))
  /\ (forall (s1 s2 t1 t2 : Z) (l1 l2 m1 m2 : label),
        __eq__ (composed s1 l1 s2 l2) (composed t1 m1 t2 m2) = true
        <-> (s1 = t1 /\ l1 = m1 /\ s2 = t2 /\ l2 = m2)
            \/ (s1 = t2 /\ l1 = m2 /\ s2 = t1 /\ l2 = m1)).
Proof.
  split.
  - intros a b. unfold __eq__. apply bool_decide_ext. simpl.
    split; [|intros ->; reflexivity].
    intros E. assert (Hin : Bare a ∈ ({[Bare b]} : gset (member label)))
      by (rewrite <- E; apply elem_of_singleton; reflexivity).
    apply elem_of_singleton in Hin. congruence.
  - intros. rewrite eq_iff_key. simpl. rewrite pair_set_eq.
    split; intros [(?&?)|(?&?)]; [left|right|left|right];
      try (repeat split; congruence); intuition congruence.
Qed.
End ElementKeyCases.

(** ** Keys, roots and parents of the children *)

Section ChildNodes.
Import Seymour.

Section CreateFit.
Context `{DecTypes} {K : Type} `{EqDecision K}.

Lemma create_DecompositionNode_fit (d : CMR_MATROID_DEC) root
    (rk ck : option (list K)) (node : DecompositionNode K) :
  create_DecompositionNode (Some d) root rk ck = Ok (Some node) ->
  _dec node = Some d /\ _root node = root
  /\ _row_keys node = rk /\ _column_keys node = ck /\ keys_fit node.
Proof.
  unfold create_DecompositionNode. intros Hc.
  destruct (_class d) as [cls|]; [|discriminate]. simpl in Hc.
  split_bind Hc as n1 H1. split_bind Hc as n2 H2. injection Hc as <-.
  assert (E1 : n1 = mkNode cls (Some d) root rk None
               /\ forall ks, rk = Some ks -> length ks = CMRmatroiddecNumRows d).
  { destruct rk as [ks|].
    - apply _set_row_keys_Ok in H1 as [[_ Hn] ->]. split; [reflexivity|].
      intros ks' [= <-]. unfold nrows in Hn. simpl in Hn. congruence.
    - injection H1 as <-. split; [reflexivity|discriminate]. }
  destruct E1 as [-> Hr].
  assert (E2 : n2 = mkNode cls (Some d) root rk ck
               /\ forall ks, ck = Some ks -> length ks = CMRmatroiddecNumColumns d).
  { destruct ck as [ks|].
    - apply _set_column_keys_Ok in H2 as [[_ Hn] ->]. split; [reflexivity|].
      intros ks' [= <-]. unfold ncols in Hn. simpl in Hn. congruence.
    - injection H2 as <-. split; [reflexivity|discriminate]. }
  destruct E2 as [-> Hc]. simpl.
  repeat split. exists d. simpl. auto.
Qed.
End CreateFit.

Section ChildrenKeys.
Context `{DecTypes} {K : Type} `{Countable K}.
Implicit Types self : DecompositionNode K.

Lemma getitem_Ok {A} (l : list A) (i : Z) (x : A) :
  0 <= i -> getitem l i = Ok x -> l !! Z.to_nat i = Some x.
Proof.
  intros Hi. unfold getitem.
  destruct (Z.ltb_spec i 0); [lia|].
  destruct (_ && _); [|discriminate].
  destruct (nth_error l (Z.to_nat i)) eqn:E; [|discriminate].
  intros [= <-]. rewrite <- E. clear.
  generalize (Z.to_nat i). induction l as [|y l IH]; intros [|n]; simpl; auto.
Qed.

Lemma array_get_Ok {A} (a : list A) i x :
  array_get a i = Ok x -> a !! i = Some x.
Proof.
  unfold array_get. destruct (nth_error a i) eqn:E; [|discriminate].
  intros [= <-]. rewrite <- E. clear.
  revert i. induction a as [|y l IH]; intros [|n]; simpl; auto.
Qed.

Lemma _CMRelement_to_key_Ok self (R C : list K) e k :
  _row_keys self = Some R -> _column_keys self = Some C ->
  _CMRelement_to_key self e = Ok k ->
  exists key, k = simple key
    /\ ((e < 0 /\ R !! Z.to_nat (CMRelementToRowIndex e) = Some key)
        \/ (0 < e /\ C !! Z.to_nat (CMRelementToColumnIndex e) = Some key)).
Proof.
  intros HR HC. unfold _CMRelement_to_key, row_keys, column_keys.
  rewrite HR, HC. unfold CMRelementIsValid, CMRelementIsRow.
  destruct (Z.eqb_spec e 0) as [->|Hne]; [discriminate|]. simpl.
  destruct (Z.ltb_spec e 0); intros Hk; apply fmap_Ok in Hk as (key & Hget & ->);
    exists key; (split; [reflexivity|]); [left|right]; (split; [lia|]);
    apply getitem_Ok; auto.
  - unfold CMRelementToRowIndex. apply Z.mod_pos_bound. lia.
  - unfold CMRelementToColumnIndex. apply Z.mod_pos_bound. lia.
Qed.

Lemma keys_of_lookup self (R C : list K) parent n keys :
  _row_keys self = Some R -> _column_keys self = Some C ->
  keys_of self parent (seq 0 n) = Ok keys ->
  length keys = n
  /\ forall i k, keys !! i = Some k ->
       exists a e key,
         parent = Some a /\ a !! i = Some e /\ k = simple key
         /\ ((e < 0 /\ R !! Z.to_nat (CMRelementToRowIndex e) = Some key)
             \/ (0 < e /\ C !! Z.to_nat (CMRelementToColumnIndex e) = Some key)).
Proof.
  intros HR HC Hk. unfold keys_of in Hk.
  destruct (tuple_of_lookup _ _ _ Hk) as [Hlen Hall].
  rewrite length_seq in Hlen. split; [exact Hlen|].
  intros i k Hi.
  destruct (Hall i i) as (k' & Hk' & Hf).
  { apply lookup_seq. split; [reflexivity|]. apply lookup_lt_Some in Hi. lia. }
  assert (k' = k) as -> by congruence.
  split_bind Hf as e He.
  destruct parent as [a|]; [|discriminate]. simpl in He.
  apply array_get_Ok in He.
  destruct (_CMRelement_to_key_Ok _ _ _ _ _ HR HC Hf) as (key & -> & Hkey).
  exists a, e, key. repeat split; auto.
Qed.

Lemma _create_child_node_keyed self d index c (R C : list K) :
  _dec self = Some d ->
  _row_keys self = Some R -> _column_keys self = Some C ->
  _create_child_node self index = Ok (Some c) ->
  exists child_dec rows cols,
    _dec c = Some child_dec
    /\ keys_of self (CMRmatroiddecRowsParent child_dec)
               (seq 0 (CMRmatroiddecNumRows child_dec)) = Ok rows
    /\ keys_of self (CMRmatroiddecColumnsParent child_dec)
               (seq 0 (CMRmatroiddecNumColumns child_dec)) = Ok cols
    /\ _row_keys c = Some rows /\ _column_keys c = Some cols.
Proof.
  intros Hd HR HC Hc.
  destruct (_create_child_node_dec _ _ _ _ Hd Hc)
    as (c' & child_dec & [= <-] & Hi & Hdec).
  unfold _create_child_node in Hc. rewrite Hd in Hc.
  cbn [deref mbind result_bind] in Hc.
  split_bind Hc as child_dec' Hchild.
  assert (child_dec' = child_dec) as ->.
  { unfold CMRmatroiddecChild in Hchild.
    rewrite (array_get_lookup _ _ _ Hi) in Hchild. congruence. }
  unfold row_keys, column_keys in Hc. rewrite HR, HC in Hc.
  split_bind Hc as rows Hrows. split_bind Hc as cols Hcols.
  apply create_DecompositionNode_fit in Hc as (_ & _ & Hrk & Hck & _).
  exists child_dec, rows, cols. auto.
Qed.

(** X2.  A child made by [_create_child_node] holds the child handle of
    its index.  When the parent has both sequences of keys, the child has
    as many row keys and column keys as its handle has rows and columns,
    and the key of each row and column is the key that the parent has for
    the parent element of that row or column: a row key of the parent for
    a negative element, a column key for a positive one.  When the parent
    lacks a sequence of keys, the child has no keys. *)
Theorem child_keys_name_parent self d index child :
  _dec self = Some d ->
  _create_child_node self index = Ok child ->
  exists c child_dec,
    child = Some c
    /\ CMRmatroiddecChildren d !! index = Some child_dec
    /\ _dec c = Some child_dec
    /\ match _row_keys self, _column_keys self with
       | Some R, Some C =>
           exists rows cols,
             _row_keys c = Some rows /\ _column_keys c = Some cols
             /\ length rows = CMRmatroiddecNumRows child_dec
             /\ length cols = CMRmatroiddecNumColumns child_dec
             /\ (forall i k, rows !! i = Some k ->
                   exists a e key,
                     CMRmatroiddecRowsParent child_dec = Some a
                     /\ a !! i = Some e /\ k = simple key
                     /\ ((e < 0 /\ R !! Z.to_nat (CMRelementToRowIndex e) = Some key)
                         \/ (0 < e /\ C !! Z.to_nat (CMRelementToColumnIndex e)
                                      = Some key)))
             /\ (forall j k, cols !! j = Some k ->
                   exists a e key,
                     CMRmatroiddecColumnsParent child_dec = Some a
                     /\ a !! j = Some e /\ k = simple key
                     /\ ((e < 0 /\ R !! Z.to_nat (CMRelementToRowIndex e) = Some key)
                         \/ (0 < e /\ C !! Z.to_nat (CMRelementToColumnIndex e)
                                      = Some key)))
       | _, _ => _row_keys c = None /\ _column_keys c = None
       end.
Proof.
  intros Hd Hc.
  destruct (_create_child_node_dec _ _ _ _ Hd Hc)
    as (c & child_dec & -> & Hi & Hdec).
  exists c, child_dec. repeat (split; [assumption || reflexivity|]).
  destruct (_row_keys self) as [R|] eqn:HR, (_column_keys self) as [C|] eqn:HC.
  - destruct (_create_child_node_keyed _ _ _ _ _ _ Hd HR HC Hc)
      as (child_dec' & rows & cols & Hdec' & Hrows & Hcols & Hrk & Hck).
    assert (child_dec' = child_dec) as -> by congruence.
    destruct (keys_of_lookup _ _ _ _ _ _ HR HC Hrows) as [Hlr Hrk'].
    destruct (keys_of_lookup _ _ _ _ _ _ HR HC Hcols) as [Hlc Hck'].
    exists rows, cols. auto 10.
  - unfold _create_child_node, row_keys, column_keys in Hc.
    rewrite Hd, ?HR, ?HC in Hc. cbn [deref mbind result_bind] in Hc.
    split_bind Hc as cd Hcd.
    apply create_DecompositionNode_fit in Hc as (_ & _ & Hrk & Hck & _). auto.
  - unfold _create_child_node, row_keys, column_keys in Hc.
    rewrite Hd, ?HR, ?HC in Hc. cbn [deref mbind result_bind] in Hc.
    split_bind Hc as cd Hcd.
    apply create_DecompositionNode_fit in Hc as (_ & _ & Hrk & Hck & _). auto.
  - unfold _create_child_node, row_keys, column_keys in Hc.
    rewrite Hd, ?HR, ?HC in Hc. cbn [deref mbind result_bind] in Hc.
    split_bind Hc as cd Hcd.
    apply create_DecompositionNode_fit in Hc as (_ & _ & Hrk & Hck & _). auto.
Qed.

Lemma ThreeSumNode__children_fit self children child :
  ThreeSumNode__children self = Ok children ->
  In child children ->
  exists c, child = Some c /\ keys_fit c /\ keyed c = keyed self.
Proof.
  unfold ThreeSumNode__children. intros Hc Hin.
  bind_inv Hc. destruct (negb _); [discriminate|].
  bind_inv Hc. bind_inv Hc. bind_inv Hc.
  unfold row_keys, column_keys in Hc. unfold keyed.
  destruct (_row_keys self), (_column_keys self).
  2-4: bind_inv Hc; bind_inv Hc; injection Hc as <-;
       pose proof (create_DecompositionNode_Ok _ _ _ _ _ Ha3) as (? & _ & ->);
       pose proof (create_DecompositionNode_Ok _ _ _ _ _ Ha4) as (? & _ & ->);
       apply create_DecompositionNode_fit in Ha3 as (_ & _ & _ & _ & ?);
       apply create_DecompositionNode_fit in Ha4 as (_ & _ & _ & _ & ?);
       destruct Hin as [<-|[<-|[]]]; eexists; (split; [reflexivity|]);
       (split; [assumption|]); simpl; 
       repeat (rewrite bool_decide_eq_false_2 by (intros [? [=]]));
       repeat (rewrite bool_decide_eq_true_2 by eauto); reflexivity.
  bind_inv Hc. bind_inv Hc. destruct a4 as [rk1 ck1].
  bind_inv Hc. bind_inv Hc. bind_inv Hc. destruct a6 as [rk2 ck2].
  bind_inv Hc. injection Hc as <-.
  pose proof (create_DecompositionNode_Ok _ _ _ _ _ Ha5) as (? & _ & ->).
  pose proof (create_DecompositionNode_Ok _ _ _ _ _ Ha8) as (? & _ & ->).
  apply create_DecompositionNode_fit in Ha5 as (_ & _ & _ & _ & ?).
  apply create_DecompositionNode_fit in Ha8 as (_ & _ & _ & _ & ?).
  destruct Hin as [<-|[<-|[]]]; eexists; (split; [reflexivity|]);
    (split; [assumption|]); simpl;
    repeat (rewrite bool_decide_eq_true_2 by eauto); reflexivity.
Qed.

(** X3.  Every child that [_children] returns is a node whose keys fit its
    handle; it has both sequences of keys exactly when its parent has, and
    its root is the root of its parent, or the parent itself when that is
    a root.  This holds for 3-sums as for the other nodes. *)
Theorem children_keys_fit self children child :
  _children self = Ok children ->
  In child children ->
  exists c, child = Some c /\ keys_fit c /\ keyed c = keyed self
            /\ root_or_self c = root_or_self self.
Proof.
  intros Hc Hin.
  assert (Hfit : exists c, child = Some c /\ keys_fit c /\ keyed c = keyed self).
  { unfold _children in Hc.
    assert (Hgeneric : DecompositionNode__children self = Ok children ->
                       exists c, child = Some c /\ keys_fit c
                                 /\ keyed c = keyed self).
    { unfold DecompositionNode__children. intros Hg. bind_inv Hg.
      destruct (tuple_of_In _ _ _ _ Hg Hin) as (index & _ & Hi).
      unfold _create_child_node in Hi.
      bind_inv Hi. bind_inv Hi.
      unfold row_keys, column_keys, keyed in *.
      destruct (_row_keys self), (_column_keys self);
        [bind_inv Hi; bind_inv Hi| | |];
        pose proof (create_DecompositionNode_Ok _ _ _ _ _ Hi) as (? & _ & ->);
        apply create_DecompositionNode_fit in Hi as (_ & _ & _ & _ & ?);
        eexists; (split; [reflexivity|]); (split; [assumption|]); simpl;
        repeat (rewrite bool_decide_eq_false_2 by (intros [? [=]]));
        repeat (rewrite bool_decide_eq_true_2 by eauto); reflexivity. }
    destruct (__class__ self); auto.
    eapply ThreeSumNode__children_fit; eauto. }
  destruct Hfit as (c & -> & Hf & Hk).
  exists c. repeat split; auto. eapply _children_root; eauto.
Qed.
End ChildrenKeys.


Section ParentOfChild.
Context `{DecTypes} {K : Type} `{Countable K}.
Implicit Types self : DecompositionNode K.

Lemma parent_tuple_keyed {L : Type} (a : option (list CMR_ELEMENT)) (n : nat)
    (ks : list L) (to_index : CMR_ELEMENT -> Z) :
  (forall i, (i < n)%nat -> exists b e, a = Some b /\ b !! i = Some e /\ e <> 0) ->
  parent_tuple a n (Some ks) to_index
  = Ok (if Nat.eqb n 0 then None else Some (inl ks)).
Proof.
  intros Hall. unfold parent_tuple.
  destruct n as [|n].
  - simpl. destruct a; reflexivity.
  - destruct (Hall 0%nat) as (b & e & -> & He & Hne); [lia|].
    change (seq 0 (S n)) with (0%nat :: seq 1 n).
    cbn [all_zero]. unfold CMR_ELEMENT in *. rewrite (array_get_lookup _ _ _ He).
    cbn [mbind result_bind]. destruct (Z.eqb_spec e 0); [contradiction|].
    reflexivity.
Qed.

(** X4.  On a child made by [_create_child_node] of a parent with keys,
    [parent_rows_and_columns] returns the keys of the child: its row keys
    and its column keys, and [None] in the place of a sequence when the
    handle of the child has no row (no column). *)
Theorem parent_rows_and_columns_of_child self d index c :
  _dec self = Some d ->
  is_Some (_row_keys self) -> is_Some (_column_keys self) ->
  _create_child_node self index = Ok (Some c) ->
  exists child_dec rows cols,
    _dec c = Some child_dec
    /\ _row_keys c = Some rows /\ _column_keys c = Some cols
    /\ parent_rows_and_columns c
       = Ok (if Nat.eqb (CMRmatroiddecNumRows child_dec) 0 then None
             else Some (inl rows),
             if Nat.eqb (CMRmatroiddecNumColumns child_dec) 0 then None
             else Some (inl cols)).
Proof.
  intros Hd [R HR] [C HC] Hc.
  destruct (_create_child_node_keyed _ _ _ _ _ _ Hd HR HC Hc)
    as (child_dec & rows & cols & Hdec & Hkr & Hkc & Hrk & Hck).
  destruct (keys_of_lookup _ _ _ _ _ _ HR HC Hkr) as [Hlr Hrows].
  destruct (keys_of_lookup _ _ _ _ _ _ HR HC Hkc) as [Hlc Hcols].
  exists child_dec, rows, cols. repeat (split; [assumption|]).
  unfold parent_rows_and_columns, nrows, ncols, row_keys, column_keys.
  rewrite Hdec, Hrk, Hck. cbn [deref mbind result_bind].
  rewrite (parent_tuple_keyed (CMRmatroiddecRowsParent child_dec)).
  2:{ intros i Hi. destruct (lookup_lt_is_Some_2 rows i) as [k Hk]; [lia|].
      destruct (Hrows i k Hk) as (a & e & key & ? & ? & _ & Hcase).
      exists a, e. split; [assumption|]. split; [assumption|].
      destruct Hcase as [[? _]|[? _]]; lia. }
  cbn [mbind result_bind].
  rewrite parent_tuple_keyed.
  2:{ intros i Hi. destruct (lookup_lt_is_Some_2 cols i) as [k Hk]; [lia|].
      destruct (Hcols i k Hk) as (a & e & key & ? & ? & _ & Hcase).
      exists a, e. split; [assumption|]. split; [assumption|].
      destruct Hcase as [[? _]|[? _]]; lia. }
  reflexivity.
Qed.
End ParentOfChild.


Section Unkeyed.
Context `{DecTypes} {K : Type} `{Countable K}.
Implicit Types self : DecompositionNode K.

Lemma create_unkeyed (dec : CMR_MATROID_DEC) cls root :
  _class dec = Some cls ->
  create_DecompositionNode (K := ElementKey K) (Some dec) root None None
  = Ok (Some (mkNode cls (Some dec) root None None)).
Proof. intros Hcls. unfold create_DecompositionNode. rewrite Hcls. reflexivity. Qed.

Lemma _create_child_node_unkeyed self d index dec cls :
  _dec self = Some d -> keyed self = false ->
  CMRmatroiddecChildren d !! index = Some dec -> _class dec = Some cls ->
  _create_child_node self index = Ok (unkeyed_child self dec cls).
Proof.
  intros Hd Hk Hi Hcls. unfold _create_child_node, CMRmatroiddecChild.
  rewrite Hd. cbn [deref mbind result_bind].
  rewrite (array_get_lookup _ _ _ Hi). cbn [mbind result_bind].
  unfold keyed, row_keys, column_keys in *.
  destruct (_row_keys self), (_column_keys self);
    try (apply create_unkeyed, Hcls).
  exfalso. rewrite !bool_decide_eq_true_2 in Hk by eauto. discriminate.
Qed.

Lemma tuple_of_unkeyed self d (decs : list CMR_MATROID_DEC) clss (k : nat) :
  _dec self = Some d -> keyed self = false ->
  Forall2 (fun dec cls => _class dec = Some cls) decs clss ->
  (forall i dec, decs !! i = Some dec ->
                 CMRmatroiddecChildren d !! (k + i)%nat = Some dec) ->
  tuple_of (_create_child_node self) (seq k (length decs))
  = Ok (zip_with (unkeyed_child self) decs clss).
Proof.
  intros Hd Hk Hall. revert k.
  induction Hall as [|dec cls decs clss Hcls Hall IH]; intros k Hat.
  - reflexivity.
  - cbn [length seq tuple_of zip_with].
    rewrite (_create_child_node_unkeyed self d k dec cls Hd Hk); auto.
    2:{ specialize (Hat 0%nat dec eq_refl). rewrite Nat.add_0_r in Hat. exact Hat. }
    cbn [mbind result_bind]. rewrite (IH (S k)).
    + reflexivity.
    + intros i dec' Hi. specialize (Hat (S i) dec' Hi).
      replace (S k + i)%nat with (k + S i)%nat by lia. exact Hat.
Qed.

(** X5.  A node without keys whose child handles all have a class returns
    as its children the nodes made of the child handles, one for each
    handle and in the order of the handles; each has the class of its
    handle, the root of the parent and no keys.  The one exception is a
    3-sum whose handle does not have exactly two children, on which
    [_children] raises [ValueError]. *)
Theorem children_without_keys self d clss :
  _dec self = Some d -> keyed self = false ->
  Forall2 (fun dec cls => _class dec = Some cls) (CMRmatroiddecChildren d) clss ->
  _children self
  = if bool_decide (__class__ self = ThreeSumNode)
       && negb (Nat.eqb (length (CMRmatroiddecChildren d)) 2)
    then Raise (ValueError "ThreeSumNode has exactly two children")
    else Ok (zip_with (unkeyed_child self) (CMRmatroiddecChildren d) clss).
Proof.
  intros Hd Hk Hall.
  assert (Hgeneric : DecompositionNode__children self
            = Ok (zip_with (unkeyed_child self) (CMRmatroiddecChildren d) clss)).
  { unfold DecompositionNode__children, nchildren, CMRmatroiddecNumChildren.
    rewrite Hd. cbn [deref mbind result_bind].
    apply (tuple_of_unkeyed self d _ _ 0%nat Hd Hk Hall). auto. }
  unfold _children.
  destruct (__class__ self) eqn:Hcls;
    try (rewrite bool_decide_eq_false_2 by discriminate; exact Hgeneric).
  rewrite bool_decide_eq_true_2 by reflexivity. cbn [andb].
  unfold ThreeSumNode__children, nchildren, CMRmatroiddecNumChildren.
  rewrite Hd. cbn [deref mbind result_bind].
  destruct (negb (Nat.eqb (length (CMRmatroiddecChildren d)) 2)) eqn:E;
    [reflexivity|].
  apply negb_false_iff, Nat.eqb_eq in E.
  destruct (CMRmatroiddecChildren d) as [|d1 [|d2 [|]]] eqn:Hch;
    try discriminate.
  inversion Hall as [|? cls1 ? clss1 Hc1 Hall1]; subst.
  inversion Hall1 as [|? cls2 ? clss2 Hc2 Hall2]; subst.
  inversion Hall2; subst.
  unfold CMRmatroiddecChild. rewrite Hch. cbn [array_get nth_error mbind result_bind].
  unfold keyed, row_keys, column_keys in *.
  destruct (_row_keys self), (_column_keys self);
    [exfalso; rewrite !bool_decide_eq_true_2 in Hk by eauto; discriminate| | |];
    rewrite (create_unkeyed d1 cls1) by assumption;
    cbn [mbind result_bind];
    rewrite (create_unkeyed d2 cls2) by assumption; reflexivity.
Qed.
End Unkeyed.

Lemma R12_Wide_Wide_create_child :
  _create_child_node R12_Wide_Wide 0 = Ok (Some R12_Wide_Wide_summand).
Proof. vm_cast_no_check (eq_refl (Ok (Some R12_Wide_Wide_summand))). Qed.

Lemma child_keys_name_parent_witness :
  exists rows cols,
    _row_keys R12_Wide_Wide_summand = Some rows
    /\ _column_keys R12_Wide_Wide_summand = Some cols
    /\ length rows = 4%nat /\ length cols = 5%nat
    /\ rows !! 2%nat = Some (simple "a").
Proof.
  destruct (child_keys_name_parent R12_Wide_Wide R12_Wide_Wide_dec 0 _
              eq_refl R12_Wide_Wide_create_child)
    as (c & child_dec & [= <-] & Hi & Hdec & rows & cols & Hr & Hc & Hlr & Hlc & _).
  injection Hi as <-.
  exists rows, cols. repeat split; auto.
  injection Hr as <-. reflexivity.
Defined.

Lemma children_keys_fit_witness :
  exists c,
    In (Some c) R12_Wide_Wide_children
    /\ keys_fit c /\ keyed c = true
    /\ root_or_self c = Some R12_Wide_Wide_dec.
Proof.
  destruct (children_keys_fit R12_Wide_Wide _
              (nth 0 R12_Wide_Wide_children None)
              R12_Wide_Wide_doctest (or_introl eq_refl))
    as (c & Hc & Hfit & Hk & Hroot).
  exists c. split; [left; exact Hc|]. split; [exact Hfit|].
  split; [rewrite Hk; reflexivity|rewrite Hroot; reflexivity].
Defined.

Lemma parent_rows_and_columns_of_child_witness :
  parent_rows_and_columns R12_Wide_Wide_summand
  = Ok (Some (inl [simple "0"; simple "1"; simple "a"; simple "3"]),
        Some (inl [simple "b"; simple "c"; simple "d"; simple "e";
                   simple "e"])).
Proof.
  destruct (parent_rows_and_columns_of_child R12_Wide_Wide R12_Wide_Wide_dec
              0 R12_Wide_Wide_summand eq_refl
              (ex_intro _ _ eq_refl) (ex_intro _ _ eq_refl)
              R12_Wide_Wide_create_child)
    as (child_dec & rows & cols & [= <-] & [= <-] & [= <-] & Hp).
  exact Hp.
Defined.

Lemma children_without_keys_witness :
  _children two_sum
  = Ok [unkeyed_child two_sum two_sum_first GraphicNode;
        unkeyed_child two_sum two_sum_second CographicNode].
Proof.
  apply (children_without_keys two_sum _ [GraphicNode; CographicNode]
           eq_refl eq_refl).
  repeat constructor.
Defined.
End ChildNodes.

(** ** The children of the earlier revision are the child handles, sorted *)

Section EarlierPermutation.
Import Seymour SeymourEarlier.

Lemma key_lt_comparable (x y : sort_key) :
  comparable x -> comparable y -> exists b, key_lt x y = Ok b.
Proof.
  intros [[a ?] [b ?]] [[c ?] [e ?]]. destruct x, y; simpl in *; subst.
  unfold key_lt, index_tuple_lt; simpl. repeat case_bool_decide; eauto.
Qed.

Lemma insert_sorted_Permutation {A} (x : sort_key * A) l :
  comparable x.1 -> Forall (fun y => comparable y.1) l ->
  exists r, insert_sorted x l = Ok r /\ Permutation r (x :: l).
Proof.
  intros Hx Hl. induction Hl as [|y l Hy Hl IH]; simpl.
  - eauto.
  - destruct (key_lt_comparable _ _ Hx Hy) as [[|] ->]; simpl.
    + eauto.
    + destruct IH as (r & -> & Hp). simpl. eexists; split; [reflexivity|].
      rewrite Hp. apply perm_swap.
Qed.

Lemma sort_keyed_Permutation {A} (acc unsorted : list (sort_key * A)) :
  Forall (fun y => comparable y.1) acc ->
  Forall (fun y => comparable y.1) unsorted ->
  exists r, sort_keyed acc unsorted = Ok r /\ Permutation r (acc ++ unsorted).
Proof.
  intros Hacc Hu. revert acc Hacc.
  induction Hu as [|x unsorted Hx Hu IH]; intros acc Hacc; simpl.
  - exists acc. rewrite app_nil_r. auto.
  - destruct (insert_sorted_Permutation x acc Hx Hacc) as (acc' & -> & Hp).
    simpl. destruct (IH acc') as (r & -> & Hr).
    { rewrite Hp. constructor; assumption. }
    exists r. split; [reflexivity|]. rewrite Hr, Hp.
    simpl. apply Permutation_middle.
Qed.

Lemma tuple_of_array (a : list nat) (n k : nat) :
  (k + n <= length a)%nat ->
  tuple_of (array_get a) (seq k n) = Ok (take n (drop k a)).
Proof.
  revert k; induction n as [|n IH]; intros k Hk; simpl.
  - reflexivity.
  - destruct (lookup_lt_is_Some_2 a k) as [x Hx]; [lia|].
    rewrite (array_get_lookup _ _ _ Hx). simpl.
    rewrite IH by lia. simpl. f_equal.
    rewrite (drop_S _ _ _ Hx). reflexivity.
Qed.

Lemma with_key_child self dec :
  has_parents dec ->
  exists k, with_key (child_node self dec) = Ok (k, child_node self dec)
            /\ comparable k.
Proof.
  intros (a & b & Ha & Hb & Hla & Hlb).
  unfold with_key, child_node, parent_rows_and_columns. simpl.
  rewrite Ha, Hb. rewrite !tuple_of_array by lia. simpl.
  eexists. split; [reflexivity|]. split; simpl; eauto.
Qed.

Lemma tuple_of_children self d (decs : list CMR_DEC) (k : nat) :
  (forall i dec, decs !! i = Some dec -> CMRdecChildren d !! (k + i)%nat = Some dec) ->
  tuple_of (fun index => child ← CMRdecChild d index;
                         Ok (create_DecompositionNode (Some child)
                               (Some (root_or_self self))))
           (seq k (length decs))
  = Ok (map (child_node self) decs).
Proof.
  revert k; induction decs as [|dec decs IH]; intros k Hat;
    cbn [length seq tuple_of map].
  - reflexivity.
  - assert (Hk : CMRdecChild d k = Ok dec).
    { apply array_get_lookup. specialize (Hat 0%nat dec eq_refl).
      rewrite Nat.add_0_r in Hat. exact Hat. }
    rewrite Hk. cbn [mbind result_bind]. rewrite (IH (S k)).
    + reflexivity.
    + intros i dec' Hi. specialize (Hat (S i) dec' Hi).
      replace (S k + i)%nat with (k + S i)%nat by lia. exact Hat.
Qed.

Lemma tuple_of_with_key self (decs : list CMR_DEC) :
  Forall has_parents decs ->
  exists keyed,
    tuple_of with_key (map (child_node self) decs) = Ok keyed
    /\ keyed.*2 = map (child_node self) decs
    /\ Forall (fun y => comparable y.1) keyed.
Proof.
  induction 1 as [|dec decs Hdec Hdecs IH]; cbn [map tuple_of].
  - exists []. auto.
  - destruct (with_key_child self dec Hdec) as (k & -> & Hk).
    cbn [mbind result_bind].
    destruct IH as (keyed & -> & Hsnd & Hc). cbn [mbind result_bind].
    eexists. split; [reflexivity|]. cbn [fmap list_fmap snd fst].
    split; [f_equal; exact Hsnd|]. constructor; assumption.
Qed.

(** X6.  In the earlier revision, on a node whose child handles all have
    their parent arrays, [_children] returns: the result is a rearrangement
    of the nodes made of the child handles, none lost and none twice, and
    the sort keys of the children, each the pair of its parent rows and
    parent columns, stand in ascending order. *)
Theorem earlier_children_permutation (self : DecompositionNode) (d : CMR_DEC) :
  _dec self = Some d ->
  Forall has_parents (CMRdecChildren d) ->
  exists keyed,
    _children self = Ok keyed.*2
    /\ Permutation keyed.*2 (map (child_node self) (CMRdecChildren d))
    /\ Forall (fun kc => with_key kc.2 = Ok kc) keyed
    /\ Sorted not_after keyed.*1.
Proof.
  intros Hd Hall.
  destruct (tuple_of_with_key self _ Hall) as (keyed & Hkeyed & Hsnd & Hc).
  destruct (sort_keyed_Permutation [] keyed) as (sorted & Hsorted & Hperm);
    [constructor|exact Hc|].
  assert (Hchildren : _children self = Ok sorted.*2).
  { unfold _children. rewrite Hd. cbn [deref mbind result_bind].
    unfold CMRdecNumChildren.
    rewrite (tuple_of_children self d _ 0%nat) by auto.
    cbn [mbind result_bind]. rewrite Hkeyed. cbn [mbind result_bind].
    rewrite Hsorted. reflexivity. }
  exists sorted. split; [exact Hchildren|].
  split; [rewrite <- Hsnd; apply fmap_Permutation, Hperm|].
  destruct (earlier_children_sorted self _ Hchildren) as (keyed' & E & Hk & Hs).
  assert (keyed' = sorted) as ->; [|split; assumption].
  clear - E Hk Hperm Hkeyed.
  assert (Hk' : Forall (fun kc => with_key kc.2 = Ok kc) sorted).
  { rewrite Hperm. simpl. clear - Hkeyed.
    revert keyed Hkeyed. generalize (map (child_node self) (CMRdecChildren d)).
    induction l as [|n l IH]; intros keyed Hk; simpl in Hk.
    - injection Hk as <-. constructor.
    - split_bind Hk as k Hkn. split_bind Hk as ks Hks. injection Hk as <-.
      constructor; [|eauto].
      unfold with_key in *. destruct n; [|discriminate].
      split_bind Hkn as key Hkey. injection Hkn as <-. simpl. rewrite Hkey.
      reflexivity. }
  clear - Hk' E Hk. revert keyed' E Hk. induction Hk' as [|x l Hx Hl IH]; intros [|y l'] E Hk;
    try discriminate; [reflexivity|].
  injection E as E1 E2. apply Forall_cons in Hk as [Hy Hk].
  f_equal; [|eauto]. rewrite <- E1 in Hy. congruence.
Qed.
Lemma earlier_children_permutation_witness :
  exists keyed,
    SeymourEarlier._children earlier_two_sum = Ok keyed.*2
    /\ length keyed = 2%nat
    /\ Sorted not_after keyed.*1.
Proof.
  destruct (earlier_children_permutation earlier_two_sum _ eq_refl)
    as (keyed & Hc & Hperm & _ & Hs).
  { constructor; [|constructor; [|constructor]]; eexists _, _;
      (split; [reflexivity|]); (split; [reflexivity|]); simpl; lia. }
  exists keyed. split; [exact Hc|]. split; [|exact Hs].
  apply Permutation_length in Hperm. rewrite length_fmap in Hperm. exact Hperm.
Defined.
End EarlierPermutation.

(** ** The position of the maximum *)

Section IndexOfMax.
Import Palp.

Lemma index_of_max_from_spec (l : list Z) (i best best_i : Z) :
  (index_of_max_from l i best best_i = best_i
   /\ Forall (fun y => y <= best) l)
  \/ (exists (k : nat) (x : Z),
        index_of_max_from l i best best_i = i + Z.of_nat k
        /\ l !! k = Some x /\ best < x
        /\ Forall (fun y => y <= x) l
        /\ forall (j : nat) y, (j < k)%nat -> l !! j = Some y -> y < x).
Proof.
  revert i best best_i; induction l as [|x l IH]; intros i best best_i; simpl.
  - left. auto.
  - destruct (Z.ltb_spec best x) as [Hlt|Hge].
    + right. destruct (IH (i + 1) x i) as [[-> Hall]|(k & x' & -> & Hk & Hx & Hall & Hbefore)].
      * exists 0%nat, x. repeat split; auto; try lia.
        constructor; [lia|exact Hall].
      * exists (S k), x'. repeat split; auto; try lia.
        -- constructor; [lia|exact Hall].
        -- intros [|j] y Hj Hy; simpl in Hy.
           ++ injection Hy as <-. exact Hx.
           ++ apply (Hbefore j); [lia|exact Hy].
    + destruct (IH (i + 1) best best_i) as [[-> Hall]|(k & x' & -> & Hk & Hx & Hall & Hbefore)].
      * left. split; [reflexivity|]. constructor; assumption.
      * right. exists (S k), x'. repeat split; auto; try lia.
        -- constructor; [lia|exact Hall].
        -- intros [|j] y Hj Hy; simpl in Hy.
           ++ injection Hy as <-. lia.
           ++ apply (Hbefore j); [lia|exact Hy].
Qed.

(** X7.  [index_of_max] raises [ValueError] on an empty sequence.  On any
    other sequence it returns the position of the first occurrence of the
    largest value: no value is larger than the one at that position, and
    every value before it is smaller. *)
Theorem index_of_first_maximum (l : list Z) :
  match l with
  | [] => index_of_max l = Raise (ValueError "max() arg is an empty sequence")
  | _ :: _ =>
      exists (i : nat) (x : Z),
        index_of_max l = Ok (Z.of_nat i)
        /\ l !! i = Some x
        /\ Forall (fun y => y <= x) l
        /\ forall (j : nat) y, (j < i)%nat -> l !! j = Some y -> y < x
  end.
Proof.
  destruct l as [|x l]; [reflexivity|]. unfold index_of_max.
  destruct (index_of_max_from_spec l 1 x 0)
    as [[-> Hall]|(k & x' & -> & Hk & Hx & Hall & Hbefore)].
  - exists 0%nat, x. repeat split; auto.
    + constructor; [lia|exact Hall].
    + intros; lia.
  - exists (S k), x'. repeat split; auto.
    + f_equal. lia.
    + constructor; [lia|exact Hall].
    + intros [|j] y Hj Hy; simpl in Hy.
      * injection Hy as <-. exact Hx.
      * apply (Hbefore j); [lia|exact Hy].
Qed.
End IndexOfMax.

(** ** From a dictionary to a matrix and back *)

Section DictionaryRoundTrip.
Import MatrixCmrSparse.

Section InitExact.
Variables nrows ncols : nat.

Lemma length_row_entries (d : dict_items) (r : nat) :
  length (row_entries d r) = count_row d r.
Proof.
  induction d as [|item d IH]; simpl; [reflexivity|].
  rewrite length_app, IH. destruct (_ && _); reflexivity.
Qed.

Lemma fill_exact (N : nat) (d : dict_items) :
  valid_coordinates nrows ncols d ->
  Forall (fun item => fits_char item.2) d ->
  forall (off : nat -> nat) rs ec (ev : list Z),
    length rs = S nrows -> length ec = N -> length ev = N ->
    (forall r, (r < nrows)%nat -> rs !! r = Some (off r)) ->
    (forall r, (r < nrows)%nat -> (off r + count_row d r <= N)%nat) ->
    (forall r r', (r < nrows)%nat -> (r' < nrows)%nat -> r <> r' ->
        (off r + count_row d r <= off r')%nat
        \/ (off r' + count_row d r' <= off r)%nat) ->
    exists rs' ec' ev',
      for_each fill_step d (rs, ec, ev) = Ok (rs', ec', ev')
      /\ length rs' = S nrows /\ length ec' = N /\ length ev' = N
      /\ rs' !! nrows = rs !! nrows
      /\ (forall r, (r < nrows)%nat ->
                    rs' !! r = Some (off r + count_row d r)%nat)
      /\ (forall r k c v, (r < nrows)%nat ->
            row_entries d r !! k = Some (c, v) ->
            ec' !! (off r + k)%nat = Some c /\ ev' !! (off r + k)%nat = Some v)
      /\ (forall p,
            (forall r, (r < nrows)%nat ->
                       ~ (off r <= p < off r + count_row d r)%nat) ->
            ec' !! p = ec !! p /\ ev' !! p = ev !! p).
Proof.
  induction 1 as [|[[row col] coeff] d [Hrow Hcol] Hv IH];
    intros Hfit off rs ec ev Hrs Hec Hev Hoff Hin Hdis.
  - exists rs, ec, ev. cbn [for_each count_row row_entries].
    split; [reflexivity|]. do 4 (split; [assumption || reflexivity|]).
    split; [|split].
    + intros r Hr. rewrite Nat.add_0_r. auto.
    + intros r k c v _ Hk. destruct k; discriminate.
    + intros p _. auto.
  - simpl in Hrow, Hcol. apply Forall_cons in Hfit as [Hfit1 Hfit].
    simpl in Hfit1. cbn [for_each fill_step].
    destruct (Z.eqb_spec coeff 0) as [->|Hnz].
    + cbn [mbind result_bind].
      destruct (IH Hfit off rs ec ev Hrs Hec Hev Hoff) as
        (rs' & ec' & ev' & Hrun & Hlr & Hlc & Hlv & Hlast & Hrs' & Hent & Hout).
      { intros r Hr. specialize (Hin r Hr). simpl in Hin. lia. }
      { intros r r' Hr Hr' Hne. specialize (Hdis r r' Hr Hr' Hne).
        simpl in Hdis. lia. }
      exists rs', ec', ev'. do 5 (split; [assumption|]).
      split; [|split]; simpl; auto.
    + set (r0 := Z.to_nat row).
      assert (Hr0 : (r0 < nrows)%nat) by (unfold r0; lia).
      assert (Hc0 : forall r, count_row (((row, col), coeff) :: d) r
                    = ((if Nat.eqb r r0 then 1 else 0) + count_row d r)%nat).
      { intros r. simpl. destruct (Z.eqb_spec coeff 0); [contradiction|].
        simpl. unfold r0.
        destruct (Z.eqb_spec row (Z.of_nat r)), (Nat.eqb_spec r (Z.to_nat row));
          try reflexivity; lia. }
      assert (He0 : forall r, row_entries (((row, col), coeff) :: d) r
                    = (if Nat.eqb r r0 then [(Z.to_nat col, coeff)] else [])
                      ++ row_entries d r).
      { intros r. simpl. destruct (Z.eqb_spec coeff 0); [contradiction|].
        simpl. unfold r0.
        destruct (Z.eqb_spec row (Z.of_nat r)), (Nat.eqb_spec r (Z.to_nat row));
          try reflexivity; lia. }
      pose proof (Hin r0 Hr0) as Hin0. rewrite Hc0, Nat.eqb_refl in Hin0.
      unfold array_getZ, array_setZ, as_size_t.
      destruct (Z.leb_spec 0 row); [|lia].
      destruct (Z.ltb_spec col 0); [lia|].
      fold r0. rewrite (array_get_lookup _ _ _ (Hoff r0 Hr0)).
      cbn [mbind result_bind].
      rewrite (array_set_lt ec) by lia. cbn [mbind result_bind].
      rewrite (as_char_fits _ Hfit1). cbn [mbind result_bind].
      rewrite (array_set_lt ev) by lia. cbn [mbind result_bind].
      rewrite (array_set_lt rs) by lia. cbn [mbind result_bind].
      set (off' := fun r => if Nat.eqb r r0 then S (off r0) else off r).
      destruct (IH Hfit off' (<[r0 := (off r0 + 1)%nat]> rs)
                   (<[off r0 := Z.to_nat col]> ec) (<[off r0 := coeff]> ev)) as
        (rs' & ec' & ev' & Hrun & Hlr & Hlc & Hlv & Hlast & Hrs' & Hent & Hout);
        try (rewrite length_insert; assumption).
      { intros r Hr. unfold off'. destruct (Nat.eqb_spec r r0) as [->|Hne].
        - rewrite list_lookup_insert_eq by lia. f_equal. lia.
        - rewrite list_lookup_insert_ne by auto. auto. }
      { intros r Hr. unfold off'. specialize (Hin r Hr). rewrite Hc0 in Hin.
        destruct (Nat.eqb_spec r r0) as [->|Hne]; lia. }
      { intros r r' Hr Hr' Hne. unfold off'.
        specialize (Hdis r r' Hr Hr' Hne). rewrite !Hc0 in Hdis.
        destruct (Nat.eqb_spec r r0) as [->|], (Nat.eqb_spec r' r0) as [->|];
          lia. }
      assert (Hat : ec' !! off r0 = Some (Z.to_nat col)
                    /\ ev' !! off r0 = Some coeff).
      { destruct (Hout (off r0)) as [-> ->].
        - intros r Hr. unfold off'.
          destruct (Nat.eqb_spec r r0) as [->|Hne]; [lia|].
          specialize (Hdis r r0 Hr Hr0 Hne). rewrite !Hc0 in Hdis.
          rewrite Nat.eqb_refl in Hdis.
          destruct (Nat.eqb_spec r r0); [contradiction|]. lia.
        - rewrite !list_lookup_insert_eq by lia. auto. }
      exists rs', ec', ev'. do 4 (split; [assumption|]).
      split; [|split; [|split]].
      * rewrite Hlast. apply list_lookup_insert_ne. lia.
      * intros r Hr. rewrite Hrs' by assumption. rewrite Hc0. unfold off'.
        destruct (Nat.eqb_spec r r0) as [->|]; f_equal; lia.
      * intros r k c v Hr Hk. rewrite He0 in Hk.
        destruct (Nat.eqb_spec r r0) as [->|Hne].
        -- destruct k as [|k]; simpl in Hk.
           ++ injection Hk as <- <-. rewrite Nat.add_0_r. exact Hat.
           ++ specialize (Hent r0 k c v Hr Hk). unfold off' in Hent.
              rewrite Nat.eqb_refl in Hent.
              replace (off r0 + S k)%nat with (S (off r0) + k)%nat by lia.
              exact Hent.
        -- simpl in Hk. specialize (Hent r k c v Hr Hk). unfold off' in Hent.
           destruct (Nat.eqb_spec r r0); [contradiction|]. exact Hent.
      * intros p Hp.
        assert (Hne : p <> off r0).
        { intros ->. apply (Hp r0 Hr0). rewrite Hc0, Nat.eqb_refl. lia. }
        destruct (Hout p) as [-> ->].
        -- intros r Hr. specialize (Hp r Hr). rewrite Hc0 in Hp. unfold off'.
           destruct (Nat.eqb_spec r r0) as [E|]; [rewrite E in *|]; lia.
        -- rewrite !list_lookup_insert_ne by auto. auto.
Qed.

Lemma count_before_mono (d : dict_items) (r r' : nat) :
  (r <= r')%nat -> (count_before d r <= count_before d r')%nat.
Proof.
  induction 1 as [|r' _ IH]; [lia|]. rewrite count_before_S. lia.
Qed.

Lemma shift_exact (k : nat) (rs : list nat) :
  (k < length rs)%nat ->
  exists rs', for_each shift_step (rev (seq 0 k)) rs = Ok rs'
    /\ length rs' = length rs
    /\ rs' !! 0%nat = rs !! 0%nat
    /\ (forall i, (i < k)%nat -> rs' !! S i = rs !! i)
    /\ (forall i, (k < i)%nat -> rs' !! i = rs !! i).
Proof.
  revert rs; induction k as [|k IH]; intros rs Hk.
  - exists rs. simpl. repeat split; auto. intros; lia.
  - rewrite seq_S, rev_app_distr. cbn [rev app for_each Nat.add].
    destruct (lookup_lt_is_Some_2 rs k) as [v Hv]; [lia|].
    assert (Hstep : shift_step rs k = Ok (<[S k := v]> rs)).
    { unfold shift_step. rewrite (array_get_lookup _ _ _ Hv).
      cbn [mbind result_bind]. apply array_set_lt. lia. }
    rewrite Hstep. cbn [mbind result_bind].
    destruct (IH (<[S k := v]> rs)) as (rs' & -> & Hlen & H0 & Hshift & Hsame).
    { rewrite length_insert. lia. }
    exists rs'. rewrite length_insert in Hlen.
    split; [reflexivity|]. split; [exact Hlen|]. split; [|split].
    + rewrite H0. apply list_lookup_insert_ne. lia.
    + intros i Hi. destruct (decide (i = k)) as [->|Hne].
      * rewrite Hsame by lia. rewrite list_lookup_insert_eq by lia.
        symmetry. exact Hv.
      * rewrite Hshift by lia. apply list_lookup_insert_ne. lia.
    + intros i Hi. rewrite Hsame by lia. apply list_lookup_insert_ne. lia.
Qed.

(** The matrix that [_init_from_dict] hands to [CMRchrmatSortNonzeros]. *)
Lemma init_unsorted (garbage : nat -> nat) (d : dict_items) :
  valid_coordinates nrows ncols d ->
  Forall (fun item => fits_char item.2) d ->
  exists ec ev,
    _init_from_dict garbage d nrows ncols
    = Ok (CMRchrmatSortNonzeros
            (mkCHRMAT nrows ncols (length d)
               (map (count_before d) (seq 0 (S nrows))) ec ev))
    /\ length ec = length d /\ length ev = length d
    /\ (forall r k c v, (r < nrows)%nat ->
          row_entries d r !! k = Some (c, v) ->
          ec !! (count_before d r + k)%nat = Some c
          /\ ev !! (count_before d r + k)%nat = Some v).
Proof.
  intros Hv Hfit. unfold _init_from_dict.
  cbn [CMRchrmatCreate rowSlice entryColumns entryValues].
  set (rs0 := map garbage (seq 0 (S nrows))).
  assert (Hlen0 : length rs0 = S nrows)
    by (unfold rs0; rewrite length_map, length_seq; reflexivity).
  destruct (zero_slices nrows rs0) as (rs1 & -> & Hlen1 & Hzero & Hrest); [lia|].
  cbn [mbind result_bind]. rewrite Hlen0 in Hlen1.
  destruct (count_slices nrows ncols d rs1 Hv Hlen1)
    as (rs2 & H0' & Hlen2 & H0 & Hcount).
  rewrite H0'. cbn [mbind result_bind].
  destruct (Nat.eq_dec nrows 0%nat) as [Hrows0|Hrows].
  { (* a matrix without rows has no items *)
    assert (d = []) as ->.
    { destruct Hv as [|[[row col] coeff] d' [Hrow _] _]; [reflexivity|].
      simpl in Hrow. lia. }
    clear Hcount. subst nrows. cbn [seq for_each rev mbind result_bind] in *.
    injection H0' as <-.
    destruct rs1 as [|x [|]]; try discriminate.
    exists [], []. split; [reflexivity|]. repeat split; intros; lia. }
  destruct (accumulate_slices nrows ncols d rs2 nrows Hv Hlen2)
    as (rs3 & -> & Hlen3 & Hacc & _).
  { lia. }
  { rewrite H0. apply Hzero. lia. }
  { intros i Hi. rewrite (Hcount i 0%nat); [reflexivity|]. apply Hzero. lia. }
  cbn [mbind result_bind].
  destruct (fill_exact (length d) d Hv Hfit (count_before d) rs3
              (map garbage (seq 0 (length d)))
              (map (fun i => Z.of_nat (garbage i)) (seq 0 (length d))))
    as (rs4 & ec & ev & -> & Hlen4 & Hlc & Hlv & _ & Hrs4 & Hent & _).
  { exact Hlen3. }
  { rewrite length_map, length_seq. reflexivity. }
  { rewrite length_map, length_seq. reflexivity. }
  { intros r Hr. apply Hacc; lia. }
  { intros r Hr. rewrite <- count_before_S. apply count_before_le. }
  { intros r r' Hr Hr' Hne. rewrite <- !count_before_S.
    destruct (Nat.lt_total r r') as [Hlt|[Heq|Hgt]]; [left| contradiction |right];
      apply count_before_mono; lia. }
  cbn [mbind result_bind].
  destruct (shift_exact nrows rs4) as (rs5 & -> & Hlen5 & _ & Hshift & _); [lia|].
  cbn [mbind result_bind].
  rewrite array_set_lt by lia. cbn [mbind result_bind].
  exists ec, ev. split; [|auto].
  do 2 f_equal. f_equal.
  apply list_eq. intros i. rewrite list_lookup_fmap.
  destruct (decide (i < S nrows)%nat) as [Hi|Hi].
  - rewrite lookup_seq_lt by lia. simpl.
    destruct i as [|i].
    + rewrite list_lookup_insert_eq by lia.
      rewrite (count_before_0 nrows ncols) by assumption. reflexivity.
    + rewrite list_lookup_insert_ne by lia. rewrite Hshift by lia.
      rewrite Hrs4 by lia. rewrite count_before_S. reflexivity.
  - rewrite lookup_seq_ge by lia. simpl.
    apply lookup_ge_None_2. rewrite length_insert. lia.
Qed.
End InitExact.


(** ** Slices of arrays *)

Lemma lookup_slice {A} (l : list A) (lo hi i : nat) :
  slice lo hi l !! i = if decide (i < hi - lo)%nat then l !! (lo + i)%nat else None.
Proof.
  unfold slice. destruct (decide (i < hi - lo)%nat).
  - rewrite lookup_take_lt by assumption. apply lookup_drop.
  - apply lookup_take_ge. lia.
Qed.

Lemma length_slice {A} (l : list A) (lo hi : nat) :
  (hi <= length l)%nat -> length (slice lo hi l) = (hi - lo)%nat.
Proof. intros. unfold slice. rewrite length_take, length_drop. lia. Qed.

Lemma slice_ext {A} (l l' : list A) (lo hi : nat) :
  (forall p, (lo <= p < hi)%nat -> l !! p = l' !! p) ->
  slice lo hi l = slice lo hi l'.
Proof.
  intros Hp. apply list_eq. intros i. rewrite !lookup_slice.
  destruct (decide (i < hi - lo)%nat); [apply Hp; lia|reflexivity].
Qed.

Lemma slice_lookup_eq {A} (l l' : list A) (lo hi p : nat) :
  slice lo hi l = slice lo hi l' -> (lo <= p < hi)%nat -> l !! p = l' !! p.
Proof.
  intros E Hp. apply (f_equal (fun s => s !! (p - lo)%nat)) in E.
  rewrite !lookup_slice in E.
  destruct (decide (p - lo < hi - lo)%nat); [|lia].
  replace (lo + (p - lo))%nat with p in E by lia. exact E.
Qed.

Lemma splice_spec {A} (l s : list A) (lo : nat) :
  (lo + length s <= length l)%nat ->
  length (take lo l ++ s ++ drop (lo + length s) l) = length l
  /\ slice lo (lo + length s) (take lo l ++ s ++ drop (lo + length s) l) = s
  /\ forall p, (p < lo \/ lo + length s <= p)%nat ->
       (take lo l ++ s ++ drop (lo + length s) l) !! p = l !! p.
Proof.
  intros Hlen.
  assert (Htake : length (take lo l) = lo) by (rewrite length_take; lia).
  split; [|split].
  - rewrite !length_app, length_drop, Htake. lia.
  - apply list_eq. intros i. rewrite lookup_slice.
    destruct (decide (i < lo + length s - lo)%nat) as [Hi|Hi].
    + rewrite lookup_app_r by lia. rewrite Htake.
      replace (lo + i - lo)%nat with i by lia.
      apply lookup_app_l. lia.
    + symmetry. apply lookup_ge_None_2. lia.
  - intros p [Hp|Hp].
    + rewrite lookup_app_l by lia. apply lookup_take_lt. exact Hp.
    + rewrite lookup_app_r by lia. rewrite Htake.
      rewrite lookup_app_r by lia. rewrite lookup_drop. f_equal. lia.
Qed.

Lemma combine_zip {A B} (l : list A) (l' : list B) : combine l l' = zip l l'.
Proof.
  revert l'; induction l as [|x l IH]; intros [|y l']; simpl; auto.
Qed.

(** ** Sorting the entries of a row *)

Lemma insert_entry_Permutation (e : nat * Z) l :
  Permutation (insert_entry e l) (e :: l).
Proof.
  induction l as [|e' l IH]; simpl; [reflexivity|].
  destruct (Nat.ltb e.1 e'.1); [reflexivity|].
  rewrite IH. apply perm_swap.
Qed.

Lemma sort_entries_Permutation l : Permutation (sort_entries l) l.
Proof.
  induction l as [|e l IH]; simpl; [reflexivity|].
  unfold sort_entries in *. simpl. rewrite insert_entry_Permutation.
  constructor. exact IH.
Qed.

Lemma length_sort_entries l : length (sort_entries l) = length l.
Proof. apply Permutation_length, sort_entries_Permutation. Qed.

Lemma insert_entry_increasing (e : nat * Z) l :
  increasing l -> e.1 ∉ l.*1 -> increasing (insert_entry e l).
Proof.
  unfold increasing. induction l as [|e' l IH]; intros Hs Hnot; simpl.
  - repeat constructor.
  - apply Sorted_inv in Hs as [Hs Hhd].
    rewrite fmap_cons, not_elem_of_cons in Hnot. destruct Hnot as [Hne Hnot].
    destruct (Nat.ltb_spec e.1 e'.1).
    + constructor; [constructor; assumption|]. constructor. assumption.
    + constructor; [apply IH; assumption|].
      destruct l as [|e'' l]; simpl.
      * constructor. lia.
      * destruct (Nat.ltb_spec e.1 e''.1); constructor; [lia|].
        apply HdRel_inv in Hhd. exact Hhd.
Qed.

Lemma sort_entries_increasing l : NoDup l.*1 -> increasing (sort_entries l).
Proof.
  induction l as [|e l IH]; intros Hnd.
  - constructor.
  - rewrite fmap_cons in Hnd. apply NoDup_cons in Hnd as [Hnot Hnd].
    unfold sort_entries in *. simpl. apply insert_entry_increasing; [auto|].
    intros Hin. apply Hnot.
    rewrite <- (sort_entries_Permutation l). exact Hin.
Qed.

Lemma sort_entries_sorted l : increasing l -> sort_entries l = l.
Proof.
  unfold increasing. induction l as [|e l IH]; intros Hs; [reflexivity|].
  apply Sorted_inv in Hs as [Hs Hhd].
  unfold sort_entries in *. simpl. rewrite (IH Hs).
  destruct Hhd as [|e' l' Hlt]; simpl; [reflexivity|].
  destruct (Nat.ltb_spec e.1 e'.1); [reflexivity|lia].
Qed.

(** ** Sorting the rows of a matrix *)

Section Slices.
(** The row slices of the matrix are the values of [sl] at [0, ..., n]. *)
Variable sl : nat -> nat.
Variables n ncols nnz : nat.
Hypothesis sl_mono :
  forall r r', (r <= r')%nat -> (r' <= n)%nat -> (sl r <= sl r')%nat.

Let RS : list nat := map sl (seq 0 (S n)).

Lemma RS_lookup r : (r <= n)%nat -> RS !! r = Some (sl r).
Proof.
  intros Hr. unfold RS. rewrite list_lookup_fmap, lookup_seq_lt by lia.
  reflexivity.
Qed.

Lemma sort_row_step (ec : list nat) (ev : list Z) (r : nat) :
  (r < n)%nat -> length ec = length ev -> (sl n <= length ec)%nat ->
  exists ec' ev',
    sort_row (mkCHRMAT n ncols nnz RS ec ev) r = mkCHRMAT n ncols nnz RS ec' ev'
    /\ length ec' = length ec /\ length ev' = length ev
    /\ row_at sl ec' ev' r = sort_entries (row_at sl ec ev r)
    /\ (forall p, (p < sl r \/ sl (S r) <= p)%nat ->
                  ec' !! p = ec !! p /\ ev' !! p = ev !! p).
Proof.
  intros Hr Hlen Hcap. unfold sort_row.
  cbn [rowSlice entryColumns entryValues numRows numColumns numNonzeros].
  rewrite !RS_lookup by lia.
  set (lo := sl r). set (hi := sl (S r)).
  assert (Hlohi : (lo <= hi)%nat) by (apply sl_mono; lia).
  assert (Hhi : (hi <= length ec)%nat)
    by (etransitivity; [apply (sl_mono (S r) n); lia|exact Hcap]).
  set (sorted := sort_entries (combine (slice lo hi ec) (slice lo hi ev))).
  assert (Hls : length sorted = (hi - lo)%nat).
  { unfold sorted. rewrite length_sort_entries, combine_zip, length_zip_with.
    rewrite !length_slice by lia. lia. }
  assert (Hl1 : length sorted.*1 = (hi - lo)%nat) by (rewrite length_fmap; exact Hls).
  assert (Hl2 : length sorted.*2 = (hi - lo)%nat) by (rewrite length_fmap; exact Hls).
  destruct (splice_spec ec sorted.*1 lo) as (Hlc & Hsc & Hoc); [lia|].
  destruct (splice_spec ev sorted.*2 lo) as (Hlv & Hsv & Hov); [lia|].
  rewrite Hl1 in *. rewrite Hl2 in *. rewrite Hls.
  replace (lo + (hi - lo))%nat with hi in * by lia.
  eexists _, _. split; [reflexivity|]. split; [exact Hlc|]. split; [exact Hlv|].
  split.
  - unfold row_at. fold lo hi. rewrite Hsc, Hsv, combine_zip. apply zip_fst_snd.
  - intros p Hp. split; [apply Hoc|apply Hov]; exact Hp.
Qed.

Lemma sort_rows_prefix (ec : list nat) (ev : list Z) (k : nat) :
  (k <= n)%nat -> length ec = length ev -> (sl n <= length ec)%nat ->
  exists ec' ev',
    fold_left sort_row (seq 0 k) (mkCHRMAT n ncols nnz RS ec ev)
    = mkCHRMAT n ncols nnz RS ec' ev'
    /\ length ec' = length ec /\ length ev' = length ev
    /\ (forall r, (r < k)%nat -> row_at sl ec' ev' r = sort_entries (row_at sl ec ev r))
    /\ (forall p, (p < sl 0 \/ sl k <= p)%nat ->
                  ec' !! p = ec !! p /\ ev' !! p = ev !! p).
Proof.
  intros Hk Hlen Hcap. induction k as [|k IH].
  - exists ec, ev. simpl. repeat split; auto. intros; lia.
  - destruct IH as (ec1 & ev1 & Hrun & Hlc & Hlv & Hrows & Hout); [lia|].
    rewrite seq_S, fold_left_app, Hrun. cbn [fold_left Nat.add].
    destruct (sort_row_step ec1 ev1 k) as (ec2 & ev2 & -> & Hlc2 & Hlv2 & Hrow & Hout2);
      [lia|congruence|lia|].
    exists ec2, ev2. split; [reflexivity|].
    split; [congruence|]. split; [congruence|]. split.
    + intros r Hr. destruct (decide (r = k)) as [->|Hne].
      * rewrite Hrow. f_equal. unfold row_at.
        f_equal; apply slice_ext; intros p Hp; apply Hout; lia.
      * rewrite <- Hrows by lia. unfold row_at.
        assert (sl (S r) <= sl k)%nat by (apply sl_mono; lia).
        f_equal; apply slice_ext; intros p Hp; apply Hout2; lia.
    + intros p Hp.
      assert (sl 0 <= sl k)%nat by (apply sl_mono; lia).
      assert (sl k <= sl (S k))%nat by (apply sl_mono; lia).
      destruct (Hout2 p) as [-> ->]; [lia|]. apply Hout. lia.
Qed.

Lemma sort_rows_spec (ec : list nat) (ev : list Z) :
  length ec = length ev -> (sl n <= length ec)%nat ->
  exists ec' ev',
    CMRchrmatSortNonzeros (mkCHRMAT n ncols nnz RS ec ev)
    = mkCHRMAT n ncols nnz RS ec' ev'
    /\ length ec' = length ec /\ length ev' = length ev
    /\ (forall r, (r < n)%nat -> row_at sl ec' ev' r = sort_entries (row_at sl ec ev r))
    /\ (forall p, (p < sl 0 \/ sl n <= p)%nat ->
                  ec' !! p = ec !! p /\ ev' !! p = ev !! p).
Proof. intros. unfold CMRchrmatSortNonzeros. apply sort_rows_prefix; auto. Qed.
End Slices.


Lemma slice_cons {A} (l : list A) (lo hi : nat) (x : A) :
  l !! lo = Some x -> (lo < hi)%nat -> slice lo hi l = x :: slice (S lo) hi l.
Proof.
  intros Hx Hlt. unfold slice.
  replace (hi - lo)%nat with (S (hi - S lo)) by lia.
  rewrite (drop_S _ _ _ Hx). reflexivity.
Qed.

Lemma slice_nil {A} (l : list A) (lo : nat) : slice lo lo l = [].
Proof. unfold slice. rewrite Nat.sub_diag. reflexivity. Qed.

Lemma row_at_eq (sl : nat -> nat) (ec : list nat) (ev : list Z) (r : nat)
    (L : list (nat * Z)) :
  (sl r + length L = sl (S r))%nat ->
  (forall k c v, L !! k = Some (c, v) ->
     ec !! (sl r + k)%nat = Some c /\ ev !! (sl r + k)%nat = Some v) ->
  row_at sl ec ev r = L.
Proof.
  intros Hlen Hat. unfold row_at. rewrite combine_zip.
  apply list_eq. intros k. rewrite lookup_zip_with, !lookup_slice.
  destruct (decide (k < sl (S r) - sl r)%nat) as [Hk|Hk].
  - destruct (lookup_lt_is_Some_2 L k) as [[c v] Hcv]; [lia|].
    destruct (Hat k c v Hcv) as [-> ->]. simpl. symmetry. exact Hcv.
  - simpl. symmetry. apply lookup_ge_None_2. lia.
Qed.

Lemma get_in_slice (ec : list nat) (ev : list Z) (j : nat) (count lo : nat) :
  (lo + count <= length ec)%nat -> length ec = length ev ->
  (index ← find_in_slice ec j lo count;
   match index with
   | None => Ok 0
   | Some index => array_get ev index
   end)
  = Ok (entry_of (combine (slice lo (lo + count) ec)
                          (slice lo (lo + count) ev)) j).
Proof.
  revert lo; induction count as [|count IH]; intros lo Hlen Hev.
  - rewrite Nat.add_0_r, !slice_nil. reflexivity.
  - destruct (lookup_lt_is_Some_2 ec lo) as [c Hc]; [lia|].
    destruct (lookup_lt_is_Some_2 ev lo) as [v Hv]; [lia|].
    rewrite (slice_cons ec lo _ c), (slice_cons ev lo _ v) by (auto; lia).
    cbn [find_in_slice combine entry_of fst snd].
    rewrite (array_get_lookup _ _ _ Hc). cbn [mbind result_bind].
    destruct (Nat.eqb_spec c j).
    + cbn [mbind result_bind]. apply array_get_lookup, Hv.
    + replace (lo + S count)%nat with (S lo + count)%nat by lia.
      apply IH; [lia|assumption].
Qed.

Lemma get_unsafe_row (sl : nat -> nat) (n ncols nnz : nat)
    (ec : list nat) (ev : list Z) (i j : nat) :
  (forall r r', (r <= r')%nat -> (r' <= n)%nat -> (sl r <= sl r')%nat) ->
  (i < n)%nat -> length ec = length ev -> (sl n <= length ec)%nat ->
  get_unsafe (mkCHRMAT n ncols nnz (map sl (seq 0 (S n))) ec ev) i j
  = Ok (entry_of (row_at sl ec ev i) j).
Proof.
  intros Hmono Hi Hlen Hcap. unfold get_unsafe, CMRchrmatFindEntry.
  cbn [rowSlice entryColumns entryValues].
  rewrite (array_get_lookup _ _ _ (RS_lookup sl n i ltac:(lia))).
  cbn [mbind result_bind].
  rewrite (array_get_lookup _ _ _ (RS_lookup sl n (S i) ltac:(lia))).
  cbn [mbind result_bind].
  assert (sl i <= sl (S i))%nat by (apply Hmono; lia).
  assert (sl (S i) <= sl n)%nat by (apply Hmono; lia).
  rewrite get_in_slice by (auto; lia). unfold row_at.
  replace (sl i + (sl (S i) - sl i))%nat with (sl (S i)) by lia.
  reflexivity.
Qed.

(** ** The entries of a row and the items of the dictionary *)

Lemma elem_of_row_entries (d : dict_items) (r c : nat) (v : Z) :
  (c, v) ∈ row_entries d r <->
  exists col, ((Z.of_nat r, col), v) ∈ d /\ v <> 0 /\ c = Z.to_nat col.
Proof.
  induction d as [|[[row col] coeff] d IH]; simpl.
  - split; [intros Hin; inversion Hin|intros (? & Hin & _); inversion Hin].
  - rewrite elem_of_app, IH. split.
    + intros [Hin|(col' & Hin & Hnz & ->)].
      * destruct (Z.eqb_spec coeff 0), (Z.eqb_spec row (Z.of_nat r));
          simpl in Hin; try (inversion Hin; fail).
        apply list_elem_of_singleton in Hin. injection Hin as -> ->.
        subst row. exists col. split; [left|]; auto.
      * exists col'. split; [right; exact Hin|]. auto.
    + intros (col' & Hin & Hnz & ->).
      apply elem_of_cons in Hin as [[= <- <- <-]|Hin].
      * left. rewrite Z.eqb_refl.
        destruct (Z.eqb_spec v 0); [contradiction|]. simpl. left.
      * right. eauto.
Qed.

Lemma valid_elem (nrows ncols : nat) (d : dict_items) row col v :
  valid_coordinates nrows ncols d -> ((row, col), v) ∈ d ->
  0 <= row < Z.of_nat nrows /\ 0 <= col < Z.of_nat ncols.
Proof.
  unfold valid_coordinates. rewrite List.Forall_forall. intros Hv Hin.
  apply (Hv ((row, col), v)). apply list_elem_of_In, Hin.
Qed.

Lemma NoDup_row_entries (nrows ncols : nat) (d : dict_items) (r : nat) :
  valid_coordinates nrows ncols d -> NoDup d.*1 ->
  NoDup (row_entries d r).*1.
Proof.
  induction 1 as [|[[row col] coeff] d [Hrow Hcol] Hv IH]; simpl; intros Hnd.
  - constructor.
  - apply NoDup_cons in Hnd as [Hnot Hnd]. rewrite fmap_app.
    destruct (_ && _) eqn:E; simpl; [|apply IH, Hnd].
    apply andb_true_iff in E as [_ E]. apply Z.eqb_eq in E. simpl in *.
    constructor; [|apply IH, Hnd].
    intros Hin. apply list_elem_of_fmap in Hin as ([c v] & Hc & Hin).
    simpl in Hc. subst c.
    apply elem_of_row_entries in Hin as (col' & Hin & _ & Hcol').
    apply Hnot. apply list_elem_of_fmap. exists ((Z.of_nat r, col'), v).
    split; [|exact Hin]. simpl. f_equal; [exact E|].
    destruct (valid_elem nrows ncols d _ _ _ Hv Hin) as [_ Hc']. lia.
Qed.

Lemma entry_of_elem (L : list (nat * Z)) (j : nat) (v : Z) :
  NoDup L.*1 -> (j, v) ∈ L -> entry_of L j = v.
Proof.
  induction L as [|[c w] L IH]; intros Hnd Hin; [inversion Hin|].
  rewrite fmap_cons in Hnd. apply NoDup_cons in Hnd as [Hnot Hnd]. simpl in *.
  apply elem_of_cons in Hin as [[= -> ->]|Hin].
  - rewrite Nat.eqb_refl. reflexivity.
  - destruct (Nat.eqb_spec c j) as [->|]; [|auto].
    exfalso. apply Hnot. apply list_elem_of_fmap. exists (j, v). auto.
Qed.

Lemma entry_of_absent (L : list (nat * Z)) (j : nat) :
  j ∉ L.*1 -> entry_of L j = 0.
Proof.
  induction L as [|[c w] L IH]; intros Hnot; [reflexivity|].
  rewrite fmap_cons, not_elem_of_cons in Hnot. destruct Hnot as [Hne Hnot].
  simpl in *. destruct (Nat.eqb_spec c j); [congruence|auto].
Qed.

Lemma dict_get_elem (d : dict_items) (key : Z * Z) (v : Z) :
  NoDup d.*1 -> (key, v) ∈ d -> dict_get d key = v.
Proof.
  induction d as [|[k w] d IH]; intros Hnd Hin; [inversion Hin|].
  rewrite fmap_cons in Hnd. apply NoDup_cons in Hnd as [Hnot Hnd]. simpl in *.
  apply elem_of_cons in Hin as [[= -> ->]|Hin].
  - rewrite bool_decide_eq_true_2 by reflexivity. reflexivity.
  - case_bool_decide as E; [|auto]. subst k.
    exfalso. apply Hnot. apply list_elem_of_fmap. exists (key, v). auto.
Qed.

Lemma dict_get_absent (d : dict_items) (key : Z * Z) :
  key ∉ d.*1 -> dict_get d key = 0.
Proof.
  induction d as [|[k w] d IH]; intros Hnot; [reflexivity|].
  rewrite fmap_cons, not_elem_of_cons in Hnot. destruct Hnot as [Hne Hnot].
  simpl in *. case_bool_decide; [congruence|auto].
Qed.

Lemma entry_of_row_entries (nrows ncols : nat) (d : dict_items) (L : list (nat * Z))
    (i j : nat) :
  valid_coordinates nrows ncols d -> NoDup d.*1 ->
  Permutation L (row_entries d i) ->
  entry_of L j = dict_get d (Z.of_nat i, Z.of_nat j).
Proof.
  intros Hv Hnd Hperm.
  assert (HndL : NoDup L.*1).
  { rewrite Hperm. eapply NoDup_row_entries; eauto. }
  assert (Hcol : forall col v, ((Z.of_nat i, col), v) ∈ d -> 0 <= col).
  { intros col v Hin.
    destruct (valid_elem nrows ncols d _ _ _ Hv Hin) as [_ Hc]. lia. }
  destruct (decide ((Z.of_nat i, Z.of_nat j) ∈ d.*1)) as [Hin|Hnot].
  - apply list_elem_of_fmap in Hin as ([key v] & Hkey & Hin). simpl in Hkey.
    subst key. rewrite (dict_get_elem _ _ v Hnd Hin).
    destruct (Z.eq_dec v 0) as [->|Hnz].
    + apply entry_of_absent. intros Hj.
      apply list_elem_of_fmap in Hj as ([c w] & Hc & Hj). simpl in Hc. subst c.
      rewrite Hperm in Hj.
      apply elem_of_row_entries in Hj as (col & Hw & Hnz & Hcj).
      assert (col = Z.of_nat j) as -> by (specialize (Hcol _ _ Hw); lia).
      apply Hnz. rewrite <- (dict_get_elem _ _ w Hnd Hw).
      apply (dict_get_elem _ _ 0 Hnd Hin).
    + apply entry_of_elem; [exact HndL|]. rewrite Hperm.
      apply elem_of_row_entries. exists (Z.of_nat j).
      repeat split; auto. lia.
  - rewrite (dict_get_absent _ _ Hnot). apply entry_of_absent. intros Hj.
    apply list_elem_of_fmap in Hj as ([c w] & Hc & Hj). simpl in Hc. subst c.
    rewrite Hperm in Hj.
    apply elem_of_row_entries in Hj as (col & Hw & Hnz & Hcj).
    assert (col = Z.of_nat j) as -> by (specialize (Hcol _ _ Hw); lia).
    apply Hnot. apply list_elem_of_fmap. exists ((Z.of_nat i, Z.of_nat j), w). auto.
Qed.

Section GetUnsafe.
Variables nrows ncols : nat.

(** What [_init_from_dict] returns. *)
Lemma init_exact (garbage : nat -> nat) (d : dict_items) :
  valid_coordinates nrows ncols d ->
  Forall (fun item => fits_char item.2) d ->
  exists ec ev,
    _init_from_dict garbage d nrows ncols
    = Ok (mkCHRMAT nrows ncols (length d)
            (map (count_before d) (seq 0 (S nrows))) ec ev)
    /\ length ec = length d /\ length ev = length d
    /\ (forall r, (r < nrows)%nat ->
          row_at (count_before d) ec ev r = sort_entries (row_entries d r)).
Proof.
  intros Hv Hfit.
  destruct (init_unsorted nrows ncols garbage d Hv Hfit)
    as (ec0 & ev0 & -> & Hlc & Hlv & Hent).
  destruct (sort_rows_spec (count_before d) nrows ncols (length d)
              (fun r r' Hr _ => count_before_mono d r r' Hr) ec0 ev0)
    as (ec & ev & -> & Hlc' & Hlv' & Hrows & _).
  { congruence. }
  { rewrite Hlc. apply count_before_le. }
  exists ec, ev. split; [reflexivity|].
  split; [congruence|]. split; [congruence|].
  intros r Hr. rewrite Hrows by assumption. f_equal.
  apply row_at_eq.
  - rewrite length_row_entries, count_before_S. reflexivity.
  - intros k c v Hk. apply Hent; assumption.
Qed.

(** X8.  For a dictionary whose keys are pairwise different positions of
    the matrix and whose values are bytes, [_init_from_dict] returns a
    matrix, and [get_unsafe(i, j)] of that matrix is the value of the
    dictionary at [(i, j)], and [0] where the dictionary has no item; this
    does not depend on what the memory of the row slices held before. *)
Theorem init_from_dict_get_unsafe (garbage : nat -> nat) (d : dict_items) :
  valid_coordinates nrows ncols d ->
  NoDup d.*1 ->
  Forall (fun item => fits_char item.2) d ->
  exists mat,
    _init_from_dict garbage d nrows ncols = Ok mat
    /\ forall i j, (i < nrows)%nat ->
         get_unsafe mat i j = Ok (dict_get d (Z.of_nat i, Z.of_nat j)).
Proof.
  intros Hv Hnd Hfit.
  destruct (init_exact garbage d Hv Hfit) as (ec & ev & -> & Hlc & Hlv & Hrows).
  eexists. split; [reflexivity|].
  intros i j Hi. rewrite get_unsafe_row.
  - f_equal. apply (entry_of_row_entries nrows ncols); auto.
    rewrite Hrows by assumption. apply sort_entries_Permutation.
  - intros r r' Hr _. apply count_before_mono, Hr.
  - exact Hi.
  - congruence.
  - rewrite Hlc. apply count_before_le.
Qed.
End GetUnsafe.

Lemma docstring_dict_valid : valid_coordinates 2 3 docstring_dict.
Proof. repeat constructor; simpl; lia. Qed.

Lemma docstring_dict_NoDup : NoDup docstring_dict.*1.
Proof. apply (bool_decide_unpack _). vm_compute. exact I. Qed.

Lemma docstring_dict_fits : Forall (fun item => fits_char item.2) docstring_dict.
Proof. repeat constructor; simpl; lia. Qed.

Lemma init_from_dict_get_unsafe_witness :
  exists mat,
    _init_from_dict (fun _ => 7%nat) docstring_dict 2 3 = Ok mat
    /\ get_unsafe mat 1 2 = Ok 6 /\ get_unsafe mat 1 1 = Ok 0.
Proof.
  destruct (init_from_dict_get_unsafe 2 3 (fun _ => 7%nat) docstring_dict
              docstring_dict_valid docstring_dict_NoDup docstring_dict_fits)
    as (mat & Hmat & Hget).
  exists mat. split; [exact Hmat|].
  split; [apply (Hget 1%nat 2%nat); lia|apply (Hget 1%nat 1%nat); lia].
Defined.


Lemma listing_S rows n :
  listing rows (S n) = listing rows n ++ map (item_of n) (rows n).
Proof.
  unfold listing. rewrite seq_S, map_app, concat_app. simpl.
  rewrite app_nil_r. reflexivity.
Qed.

Lemma elem_of_listing rows n item :
  item ∈ listing rows n <->
  exists r e, (r < n)%nat /\ e ∈ rows r /\ item = item_of r e.
Proof.
  induction n as [|n IH].
  - split; [intros Hin; inversion Hin|intros (r & _ & ? & _); lia].
  - rewrite listing_S, elem_of_app, IH, list_elem_of_fmap. split.
    + intros [(r & e & Hr & He & ->)|(e & -> & He)].
      * exists r, e. split; [lia|]. auto.
      * exists n, e. split; [lia|]. auto.
    + intros (r & e & Hr & He & ->).
      destruct (decide (r = n)) as [->|]; [right; eauto|].
      left. exists r, e. split; [lia|]. auto.
Qed.

Lemma NoDup_listing rows n :
  (forall r, (r < n)%nat -> NoDup (rows r).*1) -> NoDup (listing rows n).*1.
Proof.
  induction n as [|n IH]; intros Hrows; [constructor|].
  rewrite listing_S, fmap_app. apply NoDup_app. split; [apply IH; auto|].
  split.
  - intros key Hin Hin'.
    apply list_elem_of_fmap in Hin as (item & -> & Hin).
    apply elem_of_listing in Hin as (r & e & Hr & _ & ->).
    apply list_elem_of_fmap in Hin' as (item' & Hk & Hin').
    apply list_elem_of_fmap in Hin' as (e' & -> & _).
    unfold item_of in Hk. simpl in Hk. injection Hk as Hk _. lia.
  - rewrite <- list_fmap_compose.
    assert (E : (fst ∘ item_of n) = (fun e : nat * Z => (Z.of_nat n, Z.of_nat e.1)))
      by reflexivity.
    rewrite E.
    change (fun e : nat * Z => (Z.of_nat n, Z.of_nat e.1))
      with ((fun c : nat => (Z.of_nat n, Z.of_nat c)) ∘ (fst : nat * Z -> nat)).
    rewrite list_fmap_compose. apply NoDup_fmap_2; [|apply Hrows; lia].
    intros c c' [= Hc]. lia.
Qed.

Lemma dict_setitem_new (d : dict_items) key v :
  key ∉ d.*1 -> dict_setitem d key v = d ++ [(key, v)].
Proof.
  induction d as [|item d IH]; intros Hnot; [reflexivity|].
  rewrite fmap_cons, not_elem_of_cons in Hnot. destruct Hnot as [Hne Hnot].
  simpl. rewrite bool_decide_eq_false_2 by congruence.
  rewrite IH by assumption. reflexivity.
Qed.

Lemma dict_of_slice (ec : list nat) (ev : list Z) (r : nat) (count lo : nat)
    (d0 : dict_items) :
  (lo + count <= length ec)%nat -> length ec = length ev ->
  NoDup (d0.*1 ++ (map (item_of r)
                       (combine (slice lo (lo + count) ec)
                                (slice lo (lo + count) ev))).*1) ->
  for_each (fun d index =>
              value ← array_get ev index;
              column ← array_get ec index;
              Ok (dict_setitem d (Z.of_nat r, Z.of_nat column) value))
           (seq lo count) d0
  = Ok (d0 ++ map (item_of r) (combine (slice lo (lo + count) ec)
                                       (slice lo (lo + count) ev))).
Proof.
  revert lo d0; induction count as [|count IH]; intros lo d0 Hlen Hev Hnd.
  - rewrite Nat.add_0_r, !slice_nil. simpl. rewrite app_nil_r. reflexivity.
  - destruct (lookup_lt_is_Some_2 ec lo) as [c Hc]; [lia|].
    destruct (lookup_lt_is_Some_2 ev lo) as [v Hv]; [lia|].
    rewrite (slice_cons ec lo _ c), (slice_cons ev lo _ v) in Hnd |- *
      by (auto; lia).
    cbn [seq for_each combine map] in Hnd |- *.
    rewrite (array_get_lookup _ _ _ Hv). cbn [mbind result_bind].
    rewrite (array_get_lookup _ _ _ Hc). cbn [mbind result_bind].
    rewrite fmap_cons in Hnd. cbn [item_of fst snd] in Hnd.
    rewrite dict_setitem_new.
    2:{ apply NoDup_app in Hnd as (_ & Hdis & _). intros Hin.
        apply (Hdis _ Hin). left. }
    replace (lo + S count)%nat with (S lo + count)%nat in Hnd |- * by lia.
    rewrite IH; [|lia|assumption|].
    + rewrite <- app_assoc. reflexivity.
    + rewrite fmap_app. simpl. rewrite <- app_assoc. exact Hnd.
Qed.

Section DictOfMatrix.
Variable sl : nat -> nat.
Variables n ncols nnz : nat.
Hypothesis sl_mono :
  forall r r', (r <= r')%nat -> (r' <= n)%nat -> (sl r <= sl r')%nat.

Lemma dict_of_rows (ec : list nat) (ev : list Z) (k : nat) :
  (k <= n)%nat -> length ec = length ev -> (sl n <= length ec)%nat ->
  (forall r, (r < n)%nat -> NoDup (row_at sl ec ev r).*1) ->
  for_each
    (fun d row =>
       lower ← array_get (map sl (seq 0 (S n))) row;
       upper ← array_get (map sl (seq 0 (S n))) (S row);
       for_each
         (fun d index =>
            value ← array_get ev index;
            column ← array_get ec index;
            Ok (dict_setitem d (Z.of_nat row, Z.of_nat column) value))
         (seq lower (upper - lower)) d)
    (seq 0 k) []
  = Ok (listing (row_at sl ec ev) k).
Proof.
  intros Hk Hlen Hcap Hnd. induction k as [|k IH]; [reflexivity|].
  rewrite (seq_S k 0), for_each_app, IH by lia.
  cbn [mbind result_bind for_each Nat.add].
  rewrite (array_get_lookup _ _ _ (RS_lookup sl n k ltac:(lia))).
  cbn [mbind result_bind].
  rewrite (array_get_lookup _ _ _ (RS_lookup sl n (S k) ltac:(lia))).
  cbn [mbind result_bind].
  assert (sl k <= sl (S k))%nat by (apply sl_mono; lia).
  assert (sl (S k) <= sl n)%nat by (apply sl_mono; lia).
  assert (Hrow : row_at sl ec ev k
                 = combine (slice (sl k) (sl k + (sl (S k) - sl k)) ec)
                           (slice (sl k) (sl k + (sl (S k) - sl k)) ev)).
  { unfold row_at. replace (sl k + (sl (S k) - sl k))%nat with (sl (S k)) by lia.
    reflexivity. }
  pose proof (NoDup_listing (row_at sl ec ev) (S k)) as Hl.
  rewrite listing_S, fmap_app, Hrow in Hl.
  rewrite listing_S, Hrow.
  rewrite dict_of_slice; [reflexivity|lia|assumption|].
  apply Hl. intros r Hr. apply Hnd. lia.
Qed.

Lemma dict_of_matrix (ec : list nat) (ev : list Z) :
  length ec = length ev -> (sl n <= length ec)%nat ->
  (forall r, (r < n)%nat -> NoDup (row_at sl ec ev r).*1) ->
  _dict (mkCHRMAT n ncols nnz (map sl (seq 0 (S n))) ec ev)
  = Ok (listing (row_at sl ec ev) n).
Proof. intros. unfold _dict. apply dict_of_rows; auto. Qed.
End DictOfMatrix.

(** ** The listing of the rows of a dictionary *)

Lemma listing_Permutation rows rows' n :
  (forall r, (r < n)%nat -> Permutation (rows r) (rows' r)) ->
  Permutation (listing rows n) (listing rows' n).
Proof.
  induction n as [|n IH]; intros Hp; [reflexivity|].
  rewrite !listing_S. apply Permutation_app; [apply IH; auto|].
  apply fmap_Permutation, Hp. lia.
Qed.

Lemma listing_app rows rows' n :
  Permutation (listing (fun r => rows r ++ rows' r) n)
              (listing rows n ++ listing rows' n).
Proof.
  induction n as [|n IH]; [reflexivity|].
  rewrite !listing_S, IH, map_app.
  rewrite <- !app_assoc. apply Permutation_app_head.
  rewrite !app_assoc. apply Permutation_app_tail.
  apply Permutation_app_comm.
Qed.

Lemma listing_single (r0 : nat) (l : list (nat * Z)) n :
  listing (fun r => if Nat.eqb r r0 then l else []) n
  = if decide (r0 < n)%nat then map (item_of r0) l else [].
Proof.
  induction n as [|n IH]; [reflexivity|].
  rewrite listing_S, IH.
  destruct (Nat.eqb_spec n r0) as [->|Hne].
  - destruct (decide (r0 < r0)%nat); [lia|].
    destruct (decide (r0 < S r0)%nat); [reflexivity|lia].
  - simpl. rewrite app_nil_r.
    destruct (decide (r0 < n)%nat), (decide (r0 < S n)%nat);
      try reflexivity; lia.
Qed.

Lemma listing_ext rows rows' n :
  (forall r, (r < n)%nat -> rows r = rows' r) -> listing rows n = listing rows' n.
Proof.
  induction n as [|n IH]; intros He; [reflexivity|].
  rewrite !listing_S, IH, He by (auto; lia). reflexivity.
Qed.

Lemma listing_row_entries (nrows ncols : nat) (d : dict_items) :
  valid_coordinates nrows ncols d ->
  Permutation (listing (row_entries d) nrows) (nonzero_items d).
Proof.
  induction 1 as [|[[row col] coeff] d [Hrow Hcol] Hv IH].
  - unfold listing, nonzero_items. simpl.
    induction (seq 0 nrows); simpl; auto.
  - simpl in Hrow, Hcol. unfold nonzero_items. rewrite filter_cons. cbn [snd].
    fold (nonzero_items d).
    rewrite (listing_ext _
               (fun r => (if Nat.eqb r (Z.to_nat row)
                          then (if negb (coeff =? 0)
                                then [(Z.to_nat col, coeff)] else [])
                          else [])
                         ++ row_entries d r)).
    2:{ intros r Hr. simpl. f_equal.
        destruct (Z.eqb_spec row (Z.of_nat r)), (Nat.eqb_spec r (Z.to_nat row));
          try lia; destruct (negb (coeff =? 0)); reflexivity. }
    rewrite listing_app, listing_single, IH.
    destruct (decide (Z.to_nat row < nrows)%nat); [|lia].
    destruct (Z.eqb_spec coeff 0) as [->|Hnz]; cbn [negb map app].
    + rewrite decide_False by (intros Hne; apply Hne; reflexivity). reflexivity.
    + rewrite decide_True by assumption. unfold item_of. cbn [fst snd].
      rewrite !Z2Nat.id by lia. reflexivity.
Qed.

Section DictRoundTrip.
Variables nrows ncols : nat.

(** X9.  For such a dictionary, [_dict()] of the matrix that
    [_init_from_dict] builds returns the items of the dictionary whose
    value is not zero, each once, and nothing else. *)
Theorem init_from_dict_dict (garbage : nat -> nat) (d : dict_items) :
  valid_coordinates nrows ncols d ->
  NoDup d.*1 ->
  Forall (fun item => fits_char item.2) d ->
  exists mat d',
    _init_from_dict garbage d nrows ncols = Ok mat
    /\ _dict mat = Ok d'
    /\ Permutation d' (nonzero_items d).
Proof.
  intros Hv Hnd Hfit.
  destruct (init_exact nrows ncols garbage d Hv Hfit)
    as (ec & ev & -> & Hlc & Hlv & Hrows).
  eexists _, _. split; [reflexivity|]. split.
  - apply dict_of_matrix.
    + intros r r' Hr _. apply count_before_mono, Hr.
    + congruence.
    + rewrite Hlc. apply count_before_le.
    + intros r Hr. rewrite Hrows by assumption.
      rewrite sort_entries_Permutation. eapply NoDup_row_entries; eauto.
  - rewrite <- (listing_row_entries nrows ncols d Hv).
    apply listing_Permutation. intros r Hr. rewrite Hrows by assumption.
    apply sort_entries_Permutation.
Qed.
End DictRoundTrip.

Lemma init_from_dict_dict_witness :
  exists mat d',
    _init_from_dict (fun _ => 7%nat) docstring_dict 2 3 = Ok mat
    /\ _dict mat = Ok d' /\ Permutation d' docstring_dict.
Proof.
  destruct (init_from_dict_dict 2 3 (fun _ => 7%nat) docstring_dict
              docstring_dict_valid docstring_dict_NoDup docstring_dict_fits)
    as (mat & d' & Hmat & Hd & Hp).
  exists mat, d'. auto.
Defined.


Lemma increasing_NoDup (L : list (nat * Z)) : increasing L -> NoDup L.*1.
Proof.
  unfold increasing. intros Hs. apply Sorted_StronglySorted in Hs.
  2:{ intros a b c; lia. }
  induction Hs as [|e L Hs IH Hall]; [constructor|].
  rewrite fmap_cons. constructor; [|exact IH].
  intros Hin. apply list_elem_of_fmap in Hin as (e' & He & Hin).
  rewrite List.Forall_forall in Hall.
  specialize (Hall e' (proj1 (list_elem_of_In _ _) Hin)). lia.
Qed.

Section Canonical.
Variable sl : nat -> nat.
Variables n ncols : nat.
Variable ec : list nat.
Variable ev : list Z.
Hypothesis sl_0 : sl 0 = 0%nat.
Hypothesis sl_step : forall r, (r < n)%nat -> (sl r <= sl (S r))%nat.
Hypothesis length_ec : length ec = sl n.
Hypothesis length_ev : length ev = sl n.
Hypothesis rows_increasing :
  forall r, (r < n)%nat -> increasing (row_at sl ec ev r).
Hypothesis rows_valid :
  forall r, (r < n)%nat ->
    Forall (fun e : nat * Z => (e.1 < ncols)%nat /\ e.2 <> 0 /\ fits_char e.2)
           (row_at sl ec ev r).

Let rows := row_at sl ec ev.
Let D := listing rows n.

Lemma sl_mono r r' : (r <= r')%nat -> (r' <= n)%nat -> (sl r <= sl r')%nat.
Proof.
  induction 1 as [|r' Hr IH]; intros Hn; [lia|].
  etransitivity; [apply IH; lia|apply sl_step; lia].
Qed.

Lemma length_rows r : (r < n)%nat -> length (rows r) = (sl (S r) - sl r)%nat.
Proof.
  intros Hr. unfold rows, row_at.
  assert (sl (S r) <= sl n)%nat by (apply sl_mono; lia).
  rewrite combine_zip, length_zip_with, !length_slice by lia. lia.
Qed.

Lemma valid_listing : valid_coordinates n ncols D.
Proof.
  unfold valid_coordinates. apply Forall_forall. intros item Hin.
  apply elem_of_listing in Hin as (r & e & Hr & He & ->).
  pose proof (rows_valid r Hr) as Hall. rewrite Forall_forall in Hall.
  destruct (Hall e He) as (Hc & _). unfold item_of. simpl. lia.
Qed.

Lemma fits_listing : Forall (fun item => fits_char item.2) D.
Proof.
  apply Forall_forall. intros item Hin.
  apply elem_of_listing in Hin as (r & e & Hr & He & ->).
  pose proof (rows_valid r Hr) as Hall. rewrite Forall_forall in Hall.
  destruct (Hall e He) as (_ & _ & Hf). exact Hf.
Qed.

Lemma row_entries_map (r r' : nat) (L : list (nat * Z)) :
  Forall (fun e : nat * Z => e.2 <> 0) L ->
  row_entries (map (item_of r') L) r = if Nat.eqb r' r then L else [].
Proof.
  induction 1 as [|[c v] L Hnz _ IH]; simpl.
  - destruct (Nat.eqb r' r); reflexivity.
  - rewrite IH. simpl in Hnz. destruct (Z.eqb_spec v 0); [contradiction|].
    rewrite Nat2Z.id. simpl.
    destruct (Z.eqb_spec (Z.of_nat r') (Z.of_nat r)), (Nat.eqb_spec r' r);
      try reflexivity; lia.
Qed.

Lemma row_entries_app (d1 d2 : dict_items) r :
  row_entries (d1 ++ d2) r = row_entries d1 r ++ row_entries d2 r.
Proof.
  induction d1 as [|item d1 IH]; simpl; [reflexivity|].
  rewrite IH, app_assoc. reflexivity.
Qed.

Lemma row_entries_listing (k r : nat) :
  (k <= n)%nat ->
  row_entries (listing rows k) r = if decide (r < k)%nat then rows r else [].
Proof.
  induction k as [|k IH]; intros Hk; [reflexivity|].
  rewrite listing_S, row_entries_app, IH by lia.
  rewrite row_entries_map.
  2:{ eapply Forall_impl; [apply rows_valid; lia|]. intros e (_ & ? & _). assumption. }
  destruct (Nat.eqb_spec k r) as [->|Hne].
  - rewrite decide_False by lia. rewrite decide_True by lia. reflexivity.
  - rewrite app_nil_r.
    destruct (decide (r < k)%nat), (decide (r < S k)%nat); try reflexivity; lia.
Qed.

Lemma count_before_listing r : (r <= n)%nat -> count_before D r = sl r.
Proof.
  induction r as [|r IH]; intros Hr.
  - rewrite sl_0. apply (count_before_0 n ncols), valid_listing.
  - rewrite count_before_S, IH by lia.
    rewrite <- length_row_entries. unfold D.
    rewrite row_entries_listing by lia. rewrite decide_True by lia.
    rewrite length_rows by lia.
    assert (sl r <= sl (S r))%nat by (apply sl_step; lia). lia.
Qed.

Lemma length_listing (k : nat) : (k <= n)%nat -> length (listing rows k) = sl k.
Proof.
  induction k as [|k IH]; intros Hk; [rewrite sl_0; reflexivity|].
  rewrite listing_S, length_app, length_map, IH, length_rows by lia.
  assert (sl k <= sl (S k))%nat by (apply sl_step; lia). lia.
Qed.

Lemma find_row (p : nat) :
  (p < sl n)%nat -> exists r, (r < n)%nat /\ (sl r <= p < sl (S r))%nat.
Proof.
  clear -sl_0. induction n as [|k IH]; intros Hp; [lia|].
  destruct (decide (p < sl k)%nat) as [Hlt|Hge].
  - destruct (IH Hlt) as (r & Hr & Hin). exists r. split; [lia|exact Hin].
  - exists k. split; lia.
Qed.

Lemma row_at_lookup (ec' : list nat) (ev' : list Z) (p : nat) :
  length ec' = sl n -> length ev' = sl n ->
  (forall r, (r < n)%nat -> row_at sl ec' ev' r = row_at sl ec ev r) ->
  ec' !! p = ec !! p /\ ev' !! p = ev !! p.
Proof.
  intros Hlc Hlv Hrows.
  destruct (decide (p < sl n)%nat) as [Hp|Hp].
  2:{ rewrite !lookup_ge_None_2 by lia. auto. }
  destruct (find_row p Hp) as (r & Hr & Hin).
  specialize (Hrows r Hr). unfold row_at in Hrows.
  assert (sl (S r) <= sl n)%nat by (apply sl_mono; lia).
  rewrite !combine_zip in Hrows.
  pose proof (f_equal (fmap fst) Hrows) as H1.
  pose proof (f_equal (fmap snd) Hrows) as H2.
  rewrite !fst_zip in H1 by (rewrite !length_slice by lia; lia).
  rewrite !snd_zip in H2 by (rewrite !length_slice by lia; lia).
  split; eapply slice_lookup_eq; eauto.
Qed.

Lemma pickle_canonical (nnz : nat) (garbage : nat -> nat) :
  nnz = sl n ->
  _dict (mkCHRMAT n ncols nnz (map sl (seq 0 (S n))) ec ev) = Ok D
  /\ _init_from_dict garbage D n ncols
     = Ok (mkCHRMAT n ncols nnz (map sl (seq 0 (S n))) ec ev).
Proof.
  intros ->. split.
  - apply dict_of_matrix.
    + apply sl_mono.
    + congruence.
    + lia.
    + intros r Hr. apply increasing_NoDup, rows_increasing, Hr.
  - destruct (init_exact n ncols garbage D valid_listing fits_listing)
      as (ec' & ev' & -> & Hlc & Hlv & Hrows).
    unfold D in Hlc, Hlv. rewrite length_listing in Hlc, Hlv by lia.
    assert (Hsl : map (count_before D) (seq 0 (S n)) = map sl (seq 0 (S n))).
    { apply map_ext_in. intros r Hr. apply in_seq in Hr.
      apply count_before_listing. lia. }
    assert (Hrows' : forall r, (r < n)%nat ->
                       row_at sl ec' ev' r = row_at sl ec ev r).
    { intros r Hr. specialize (Hrows r Hr).
      unfold row_at in Hrows |- *.
      rewrite !count_before_listing in Hrows by lia.
      rewrite Hrows. unfold D. rewrite row_entries_listing by lia.
      rewrite decide_True by lia.
      apply sort_entries_sorted, rows_increasing, Hr. }
    rewrite Hsl. unfold D at 1. rewrite length_listing by lia.
    do 2 f_equal; apply list_eq; intros p;
      apply (row_at_lookup ec' ev' p Hlc Hlv Hrows').
Qed.

Lemma get_unsafe_canonical (nnz i j : nat) :
  (i < n)%nat ->
  get_unsafe (mkCHRMAT n ncols nnz (map sl (seq 0 (S n))) ec ev) i j
  = Ok (dict_get D (Z.of_nat i, Z.of_nat j)).
Proof.
  intros Hi. rewrite get_unsafe_row.
  - f_equal. apply (entry_of_row_entries n ncols).
    + apply valid_listing.
    + apply NoDup_listing. intros r Hr.
      apply increasing_NoDup, rows_increasing, Hr.
    + unfold D. rewrite row_entries_listing by lia.
      rewrite decide_True by lia. reflexivity.
  - apply sl_mono.
  - exact Hi.
  - congruence.
  - lia.
Qed.
End Canonical.

Lemma canonical_slices (m : CMR_CHRMAT) :
  canonical m ->
  m = mkCHRMAT (numRows m) (numColumns m) (numNonzeros m)
        (map (slice_of m) (seq 0 (S (numRows m))))
        (entryColumns m) (entryValues m)
  /\ slice_of m 0 = 0%nat
  /\ slice_of m (numRows m) = numNonzeros m
  /\ (forall r, (r < numRows m)%nat ->
        (slice_of m r <= slice_of m (S r))%nat
        /\ increasing (row_at (slice_of m) (entryColumns m) (entryValues m) r)
        /\ Forall (fun e : nat * Z =>
                     (e.1 < numColumns m)%nat /\ e.2 <> 0 /\ fits_char e.2)
                  (row_at (slice_of m) (entryColumns m) (entryValues m) r)).
Proof.
  intros (Hlen & H0 & Hlast & Hlc & Hlv & Hrows).
  assert (Hsl : forall r, (r <= numRows m)%nat ->
                  rowSlice m !! r = Some (slice_of m r)).
  { intros r Hr. unfold slice_of.
    destruct (lookup_lt_is_Some_2 (rowSlice m) r) as [x ->]; [lia|reflexivity]. }
  split; [|split; [|split]].
  - destruct m as [nr nc nz rs ec ev].
    cbn [numRows numColumns numNonzeros rowSlice entryColumns entryValues] in *.
    f_equal.
    apply list_eq. intros i. rewrite list_lookup_fmap.
    destruct (decide (i < S nr)%nat).
    + rewrite lookup_seq_lt by lia. simpl. apply Hsl. lia.
    + rewrite lookup_seq_ge by lia. simpl. apply lookup_ge_None_2. lia.
  - unfold slice_of. rewrite H0. reflexivity.
  - unfold slice_of. rewrite Hlast. reflexivity.
  - intros r Hr. unfold row_at.
    apply (Hrows r); apply Hsl; lia.
Qed.

(** X11.  Pickling and unpickling give back the matrix: for a matrix in
    canonical form, [_pickle()] returns the items of the matrix with the
    version [0], and [_unpickle] of this data rebuilds the very same
    matrix, row slices and entries.  With the same data, [_unpickle]
    raises for every other version. *)
Theorem pickle_unpickle (m : CMR_CHRMAT) (garbage : nat -> nat) :
  canonical m ->
  exists data,
    _pickle m = Ok (data, 0)
    /\ _unpickle garbage (numRows m) (numColumns m) data 0 = Ok m
    /\ forall version, version <> 0 ->
         exists e, _unpickle garbage (numRows m) (numColumns m) data version
                   = Raise e.
Proof.
  intros Hc. pose proof Hc as (_ & _ & _ & Hlc & Hlv & _).
  destruct (canonical_slices m Hc) as (Hm & H0 & Hlast & Hrows).
  destruct (pickle_canonical (slice_of m) (numRows m) (numColumns m)
              (entryColumns m) (entryValues m) H0
              (fun r Hr => proj1 (Hrows r Hr))
              ltac:(congruence) ltac:(congruence)
              (fun r Hr => proj1 (proj2 (Hrows r Hr)))
              (fun r Hr => proj2 (proj2 (Hrows r Hr)))
              (numNonzeros m) garbage (eq_sym Hlast)) as [Hd Hi].
  rewrite <- Hm in Hd, Hi.
  eexists. unfold _pickle, _unpickle. rewrite Hd. cbn [mbind result_bind].
  split; [reflexivity|]. split.
  - cbn [as_int Z.leb Z.compare andb mbind result_bind Z.eqb negb]. exact Hi.
  - intros version Hv. unfold as_int.
    destruct (_ && _); cbn [mbind result_bind]; [|eauto].
    destruct (Z.eqb_spec version 0); [contradiction|]. simpl. eauto.
Qed.

(** X14.  On a matrix in canonical form [_dict()] returns, and
    [get_unsafe(i, j)] is the value of the returned dictionary at [(i, j)],
    and [0] where the dictionary has no item. *)
Theorem get_unsafe_of_dict (m : CMR_CHRMAT) :
  canonical m ->
  exists d,
    _dict m = Ok d
    /\ forall i j, (i < numRows m)%nat ->
         get_unsafe m i j = Ok (dict_get d (Z.of_nat i, Z.of_nat j)).
Proof.
  intros Hc. pose proof Hc as (_ & _ & _ & Hlc & Hlv & _).
  destruct (canonical_slices m Hc) as (Hm & H0 & Hlast & Hrows).
  destruct (pickle_canonical (slice_of m) (numRows m) (numColumns m)
              (entryColumns m) (entryValues m) H0
              (fun r Hr => proj1 (Hrows r Hr))
              ltac:(congruence) ltac:(congruence)
              (fun r Hr => proj1 (proj2 (Hrows r Hr)))
              (fun r Hr => proj2 (proj2 (Hrows r Hr)))
              (numNonzeros m) (fun i => i) (eq_sym Hlast)) as [Hd _].
  rewrite <- Hm in Hd.
  eexists. split; [exact Hd|].
  intros i j Hi. rewrite Hm at 1.
  apply (get_unsafe_canonical (slice_of m) (numRows m) (numColumns m)
           (entryColumns m) (entryValues m));
    try congruence.
  - intros r Hr. apply (Hrows r Hr).
  - intros r Hr. apply (Hrows r Hr).
  - intros r Hr. apply (Hrows r Hr).
Qed.

Lemma docstring_matrix_canonical : canonical docstring_matrix.
Proof.
  unfold canonical, docstring_matrix.
  cbn [numRows numColumns numNonzeros rowSlice entryColumns entryValues].
  do 5 (split; [reflexivity|]).
  intros [|[|r]] lo hi Hlo Hhi; try discriminate;
    injection Hlo as <-; injection Hhi as <-;
    (split; [lia|]); split; repeat constructor; simpl; unfold fits_char; lia.
Qed.

Lemma pickle_unpickle_witness :
  _pickle docstring_matrix = Ok (docstring_dict, 0)
  /\ _unpickle (fun _ => 7%nat) 2 3 docstring_dict 0 = Ok docstring_matrix.
Proof.
  destruct (pickle_unpickle docstring_matrix (fun _ => 7%nat)
              docstring_matrix_canonical) as (data & Hp & Hu & _).
  assert (E : _pickle docstring_matrix = Ok (docstring_dict, 0)) by reflexivity.
  rewrite E in Hp. injection Hp as <-. auto.
Defined.

Lemma get_unsafe_of_dict_witness :
  exists d,
    _dict docstring_matrix = Ok d
    /\ get_unsafe docstring_matrix 1 2 = Ok (dict_get d (1, 2))
    /\ get_unsafe docstring_matrix 1 1 = Ok (dict_get d (1, 1)).
Proof.
  destruct (get_unsafe_of_dict docstring_matrix docstring_matrix_canonical)
    as (d & Hd & Hget).
  exists d. split; [exact Hd|].
  split; [apply (Hget 1%nat 2%nat)|apply (Hget 1%nat 1%nat)]; simpl; lia.
Defined.


Section InitCanonical.
Variables nrows ncols : nat.

Lemma count_before_all (d : dict_items) :
  valid_coordinates nrows ncols d ->
  count_before d nrows = length (nonzero_items d).
Proof.
  induction 1 as [|[[row col] coeff] d [Hrow Hcol] Hv IH]; [reflexivity|].
  simpl in Hrow, Hcol. unfold nonzero_items. rewrite filter_cons.
  fold (nonzero_items d). cbn [count_before fst snd]. rewrite IH.
  destruct (Z.ltb_spec row (Z.of_nat nrows)); [|lia].
  destruct (Z.eqb_spec coeff 0) as [->|Hnz]; cbn [negb andb].
  - rewrite decide_False by (intros Hne; apply Hne; reflexivity). reflexivity.
  - rewrite decide_True by assumption. reflexivity.
Qed.

(** X10.  For such a dictionary, the matrix that [_init_from_dict] builds
    has the dimensions asked for; its field [numNonzeros] is the number of
    items of the dictionary, while its last row slice is the number of
    items whose value is not zero.  When no value of the dictionary is
    zero the matrix is in canonical form: the row slices start at [0], do
    not decrease and end at [numNonzeros], and in each row the columns
    increase strictly, lie in the matrix, and carry nonzero bytes. *)
Theorem init_from_dict_canonical (garbage : nat -> nat) (d : dict_items) :
  valid_coordinates nrows ncols d ->
  NoDup d.*1 ->
  Forall (fun item => fits_char item.2) d ->
  exists mat,
    _init_from_dict garbage d nrows ncols = Ok mat
    /\ numRows mat = nrows /\ numColumns mat = ncols
    /\ numNonzeros mat = length d
    /\ rowSlice mat !! nrows = Some (length (nonzero_items d))
    /\ (Forall (fun item => item.2 <> 0) d -> canonical mat).
Proof.
  intros Hv Hnd Hfit.
  destruct (init_exact nrows ncols garbage d Hv Hfit)
    as (ec & ev & -> & Hlc & Hlv & Hrows).
  eexists. split; [reflexivity|].
  cbn [numRows numColumns numNonzeros rowSlice entryColumns entryValues].
  split; [reflexivity|]. split; [reflexivity|]. split; [reflexivity|].
  assert (Hsl : forall r, (r <= nrows)%nat ->
            map (count_before d) (seq 0 (S nrows)) !! r
            = Some (count_before d r)).
  { intros r Hr. rewrite list_lookup_fmap, lookup_seq_lt by lia. reflexivity. }
  split.
  { rewrite Hsl by lia. rewrite count_before_all by assumption. reflexivity. }
  intros Hnz.
  assert (Hall : nonzero_items d = d).
  { unfold nonzero_items. clear -Hnz. induction Hnz as [|item d Hi _ IH].
    - reflexivity.
    - rewrite filter_cons, decide_True by assumption. unfold dict_items in *.
      rewrite IH. reflexivity. }
  unfold canonical.
  cbn [numRows numColumns numNonzeros rowSlice entryColumns entryValues].
  split; [rewrite length_map, length_seq; reflexivity|].
  split; [rewrite Hsl by lia; rewrite (count_before_0 nrows ncols) by assumption;
          reflexivity|].
  split; [rewrite Hsl by lia; rewrite count_before_all, Hall by assumption;
          reflexivity|].
  split; [assumption|]. split; [assumption|].
  intros r lo hi Hlo Hhi.
  assert (Hr : (r < nrows)%nat).
  { apply lookup_lt_Some in Hhi. rewrite length_map, length_seq in Hhi. lia. }
  rewrite Hsl in Hlo, Hhi by lia. injection Hlo as <-. injection Hhi as <-.
  split; [apply count_before_mono; lia|].
  fold (row_at (count_before d) ec ev r). rewrite Hrows by assumption.
  split.
  - apply sort_entries_increasing. eapply NoDup_row_entries; eauto.
  - rewrite sort_entries_Permutation. apply Forall_forall. intros [c v] Hin.
    apply elem_of_row_entries in Hin as (col & Hin & Hv0 & ->).
    destruct (valid_elem nrows ncols d _ _ _ Hv Hin) as [_ Hc].
    rewrite Forall_forall in Hfit. specialize (Hfit _ Hin).
    cbn [fst snd] in *. split; [lia|]. split; assumption.
Qed.
End InitCanonical.


Lemma init_from_dict_canonical_witness :
  exists mat,
    _init_from_dict (fun _ => 7%nat) docstring_dict 2 3 = Ok mat
    /\ canonical mat.
Proof.
  destruct (init_from_dict_canonical 2 3 (fun _ => 7%nat) docstring_dict
              docstring_dict_valid docstring_dict_NoDup docstring_dict_fits)
    as (mat & Hmat & _ & _ & _ & _ & Hc).
  exists mat. split; [exact Hmat|]. apply Hc.
  repeat constructor; simpl; lia.
Defined.
End DictionaryRoundTrip.

(** ** Moduli *)

Section Moduli.
Import MatrixCmrSparse.
Variables test strong_test : CMR_CHRMAT -> CMR_ERROR * bool * nat.

Lemma le_modulus_of_test (error : CMR_ERROR) (result : bool) (m : nat) (k : Z) :
  (forall b,
     (_ ← CMR_CALL error;
      if result then Ok (Some (Z.of_nat m)) else Ok None) ≫= (fun x => le_modulus x k)
     = Ok b ->
     result = true /\ b = (Z.of_nat m <=? k))
  /\ (result = false ->
      exists e,
        (_ ← CMR_CALL error;
         if result then Ok (Some (Z.of_nat m)) else Ok None)
          ≫= (fun x => le_modulus x k)
        = Raise e).
Proof.
  split.
  - intros b Hb. destruct (CMR_CALL error); [|discriminate].
    destruct result; [|discriminate].
    injection Hb as <-. split; reflexivity.
  - intros ->. destruct (CMR_CALL error); simpl; eauto.
Qed.

(** X12.  [is_k_modular(k)] and [is_strongly_k_modular(k)] return only when
    the test of CMR has found a modulus, and then they tell whether that
    modulus is at most [k].  When the test finds no modulus they raise,
    whatever [k] is: they never answer [False] for a matrix that is not
    k-modular for any k. *)
Theorem k_modular_needs_modulus (mat : CMR_CHRMAT) (k : Z) :
  (forall b, is_k_modular test mat k = Ok b ->
     exists error m,
       test mat = (error, true, m) /\ b = (Z.of_nat m <=? k))
  /\ (forall b, is_strongly_k_modular strong_test mat k = Ok b ->
        exists error m,
          strong_test mat = (error, true, m) /\ b = (Z.of_nat m <=? k))
  /\ (forall error m, test mat = (error, false, m) ->
        exists e, is_k_modular test mat k = Raise e)
  /\ (forall error m, strong_test mat = (error, false, m) ->
        exists e, is_strongly_k_modular strong_test mat k = Raise e).
Proof.
  unfold is_k_modular, is_strongly_k_modular, modulus, strong_modulus.
  destruct (test mat) as [[error result] m].
  destruct (strong_test mat) as [[error' result'] m'].
  repeat split.
  - intros b Hb.
    destruct (proj1 (le_modulus_of_test error result m k) b Hb) as [-> ->].
    eauto.
  - intros b Hb.
    destruct (proj1 (le_modulus_of_test error' result' m' k) b Hb) as [-> ->].
    eauto.
  - intros ? ? [= <- -> <-].
    apply (proj2 (le_modulus_of_test error false m k)). reflexivity.
  - intros ? ? [= <- -> <-].
    apply (proj2 (le_modulus_of_test error' false m' k)). reflexivity.
Qed.
End Moduli.
